(** * The pilmoji / apilmoji emoji text renderer

    A shallow embedding of the two renderer packages of the repository

    - [src/pilmoji/core.py] and [src/pilmoji/source.py]
      (modules [pilmoji_source] and [pilmoji] below), and
    - [src/apilmoji/core.py] (module [apilmoji] below),

    together with the properties the specification states about them.

    Python values are modelled as follows.  An [int] is a [Z].  A [float]
    is an IEEE-754 binary64 value, taken from the Standard Library's
    [SpecFloat] with precision 53 and maximal exponent 1024, so that
    [int(x)], [a / b] and [a * b] round exactly as CPython does.  A [str]
    is a [string], a [bytes] object (and the content of a [BytesIO]) a list
    of bytes, a [dict] a [gmap] (or an association list where the
    iteration order matters), a [set] a [gset], a [pathlib.Path] the list
    of its components.

    Effects are explicit: a computation takes the world (the on-disk
    cache and the renderer's in-memory caches), may raise a Python
    exception, and logs the calls it makes to its collaborators (the HTTP
    client, the canvas) as a list of events, oldest first. *)

From Stdlib Require Import ZArith Ascii SpecFloat.
From stdpp Require Import base gmap strings list pretty.
From Equations Require Import Equations.

Open Scope Z_scope.

(** ** Exceptions and results *)

(** The exception classes the code can meet.  [httpx.HTTPError] is the
    base class of [HTTPStatusError] (raised by [raise_for_status]) and of
    the request errors ([TimeoutException], [ConnectError], [ReadError]);
    [httpx.InvalidURL] is not one of its subclasses. *)
Inductive exn : Type :=
| HTTPStatusError (status_code : Z)
| TimeoutException
| ConnectError
| ReadError
| InvalidURL
| OSError
| UnidentifiedImageError
| ValueError
| OverflowError
| ZeroDivisionError.

(** [isinstance(e, httpx.HTTPError)] *)
Definition is_HTTPError (e : exn) : bool :=
  match e with
  | HTTPStatusError _ | TimeoutException | ConnectError | ReadError => true
  | _ => false
  end.

Inductive result (A : Type) : Type :=
| Ok (a : A)
| Raise (e : exn).
Arguments Ok {A} a.
Arguments Raise {A} e.

Definition is_Raise {A} (r : result A) : bool :=
  match r with Raise _ => true | Ok _ => false end.

(** ** Python floats *)

Module PyFloat.

Definition prec : Z := 53.
Definition emax : Z := 1024.

(** [float(z)] for an [int]: round to nearest even, [OverflowError] when
    the integer is too large for a double. *)
Definition of_int (z : Z) : result spec_float :=
  match binary_normalize prec emax z 0 false with
  | S754_infinity _ => Raise OverflowError
  | f => Ok f
  end.

Definition is_zero (f : spec_float) : bool :=
  match f with S754_zero _ => true | _ => false end.

Definition sub (x y : spec_float) : spec_float := SFsub prec emax x y.
Definition mul (x y : spec_float) : spec_float := SFmul prec emax x y.

(** [x / y] on floats: [ZeroDivisionError] for a zero divisor. *)
Definition truediv (x y : spec_float) : result spec_float :=
  if is_zero y then Raise ZeroDivisionError else Ok (SFdiv prec emax x y).

(** The integer part of the magnitude [m * 2^e]. *)
Definition magnitude_quot (m : positive) (e : Z) : Z :=
  match e with
  | Zneg p => Z.pos m / 2 ^ Z.pos p
  | _ => Z.pos m * 2 ^ e
  end.

(** Whether [m * 2^e] has a fractional part. *)
Definition has_fraction (m : positive) (e : Z) : bool :=
  match e with
  | Zneg p => negb (Z.pos m mod 2 ^ Z.pos p =? 0)
  | _ => false
  end.

(** [int(x)]: truncation toward zero; [ValueError] on NaN and
    [OverflowError] on an infinity. *)
Definition to_int (x : spec_float) : result Z :=
  match x with
  | S754_zero _ => Ok 0
  | S754_finite s m e =>
      let q := magnitude_quot m e in Ok (if s then - q else q)
  | S754_infinity _ => Raise OverflowError
  | S754_nan => Raise ValueError
  end.

(** [math.floor(x)]: the largest integer not above [x]. *)
Definition floor (x : spec_float) : result Z :=
  match x with
  | S754_zero _ => Ok 0
  | S754_finite s m e =>
      let q := magnitude_quot m e in
      Ok (if s then (if has_fraction m e then - q - 1 else - q) else q)
  | S754_infinity _ => Raise OverflowError
  | S754_nan => Raise ValueError
  end.


End PyFloat.

(** ** The world, events and the effect monad *)

Abbreviation bytes := (list Byte.byte).

#[export] Instance byte_eq_dec : EqDecision Byte.byte := Byte.byte_eq_dec.

(** A [pathlib.Path], as the list of its components; [p / name] appends
    one component (the names the code joins, a style name and
    ["<key>.png"], hold no separator). *)
Definition Path : Type := list string.

Definition path_join (p : Path) (name : string) : Path := p ++ [name].
Definition parent (p : Path) : Path := removelast p.

(** A decoded [PIL.Image.Image]: its size and the encoded bytes it was
    decoded from (which identify its pixels). *)
Record PILImage : Type := mkImage {
  width : Z;
  height : Z;
  pixels_of : bytes
}.

(** The calls that are logged: [source.get_emoji(emoji)] and
    [source.get_discord_emoji(id)] (logged on entry),
    [client.get(url)], [source.fetch_emojis(emj_set, ds_emj_set)],
    [draw.text(xy, content, ...)] and [image.paste(im, xy, im)]. *)
Inductive event : Type :=
| EvGetEmoji (emoji : string)
| EvGetDiscordEmoji (id : Z)
| EvHttpGet (url : string)
| EvFetchEmojis (emj_set ds_emj_set : gset string)
| EvDrawText (xy : Z * Z) (content : string)
| EvPaste (xy : Z * Z) (im : PILImage).

Record world : Type := mkWorld {
  files : gmap Path bytes;
  dirs : gset Path;
  _emoji_cache : gmap string bytes;
  _discord_emoji_cache : gmap Z bytes
}.

Definition M (A : Type) : Type := world -> result A * world * list event.

#[export] Instance M_ret : MRet M := fun A a w => (Ok a, w, []).

#[export] Instance M_bind : MBind M := fun A B f m w =>
  match m w with
  | (Ok a, w1, ev1) =>
      match f a w1 with (r, w2, ev2) => (r, w2, ev1 ++ ev2) end
  | (Raise e, w1, ev1) => (Raise e, w1, ev1)
  end.

Definition raise {A} (e : exn) : M A := fun w => (Raise e, w, []).
Definition emit (ev : event) : M unit := fun w => (Ok tt, w, [ev]).
Definition lift {A} (r : result A) : M A := fun w => (r, w, []).

(** [try: body  except <class>: handler], for the exceptions [catches]
    selects; the others propagate. *)
Definition try_except {A} (body : M A) (catches : exn -> bool)
    (handler : M A) : M A := fun w =>
  match body w with
  | (Raise e, w1, ev1) =>
      if catches e
      then match handler w1 with (r, w2, ev2) => (r, w2, ev1 ++ ev2) end
      else (Raise e, w1, ev1)
  | ok => ok
  end.

Definition result_of {A} (x : result A * world * list event) : result A :=
  x.1.1.
Definition world_of {A} (x : result A * world * list event) : world :=
  x.1.2.
Definition events_of {A} (x : result A * world * list event) : list event :=
  x.2.

(** *** The Store capability *)

(** [file_path.exists()] *)
Definition path_exists (p : Path) : M bool := fun w =>
  (Ok (bool_decide (is_Some (files w !! p)) || bool_decide (p ∈ dirs w)), w, []).

(** [async with aopen(p, "rb") as f: await f.read()] *)
Definition read_file (p : Path) : M bytes := fun w =>
  match files w !! p with
  | Some b => (Ok b, w, [])
  | None => (Raise OSError, w, [])
  end.

(** [async with aopen(p, "wb") as f: await f.write(b)]: the parent
    directory has to exist and [p] must not be a directory. *)
Definition write_file (p : Path) (b : bytes) : M unit := fun w =>
  if bool_decide (parent p ∈ dirs w) && negb (bool_decide (p ∈ dirs w))
  then (Ok tt,
        mkWorld (<[p := b]> (files w)) (dirs w)
                (_emoji_cache w) (_discord_emoji_cache w), [])
  else (Raise OSError, w, []).

(** *** The Fetcher capability *)

(** What [client.get(url)] does: a response, or an exception. *)
Inductive http_reply : Type :=
| Response (status_code : Z) (content : bytes)
| RequestFailed (e : exn).

(** ** [pilmoji/source.py] *)

Module pilmoji_source.

Inductive EmojiStyle : Type :=
| APPLE | GOOGLE | MICROSOFT | SAMSUNG | WHATSAPP | FACEBOOK
| MESSENGER | JOYPIXELS | OPENMOJI | EMOJIDEX | MOZILLA | TWEMOJI.

Definition value (s : EmojiStyle) : string :=
  match s with
  | APPLE => "apple" | GOOGLE => "google" | MICROSOFT => "microsoft"
  | SAMSUNG => "samsung" | WHATSAPP => "whatsapp" | FACEBOOK => "facebook"
  | MESSENGER => "messenger" | JOYPIXELS => "joypixels"
  | OPENMOJI => "openmoji" | EMOJIDEX => "emojidex" | MOZILLA => "mozilla"
  | TWEMOJI => "twemoji"
  end.

(** An [EmojiCDNSource] instance: its [cache_dir] and [style]. *)
Record EmojiCDNSource : Type := mkSource {
  cache_dir : Path;
  style : EmojiStyle
}.

Section Source.

(** The remote side: what a GET of each URL answers. *)
Variable http : string -> http_reply.
Variable self : EmojiCDNSource.

(** [HTTPBasedSource.download]: [raise_for_status] raises
    [HTTPStatusError] unless the status is a 2xx one. *)
Definition download (url : string) : M bytes :=
  emit (EvHttpGet url);;
  match http url with
  | Response status_code content =>
      if (200 <=? status_code) && (status_code <? 300)
      then mret content
      else raise (HTTPStatusError status_code)
  | RequestFailed e => raise e
  end.

Definition discord_file_path (id : Z) : Path :=
  path_join (path_join (cache_dir self) "discord") (pretty id +:+ ".png").

Definition discord_url (id : Z) : string :=
  "https://cdn.discordapp.com/emojis/" +:+ (pretty id +:+ ".png").

(** [DiscordEmojiSourceMixin.get_discord_emoji] *)
Definition get_discord_emoji (id : Z) : M (option bytes) :=
  emit (EvGetDiscordEmoji id);;
  let file_path := discord_file_path id in
  cached ← path_exists file_path;
  if (cached : bool) then
    b ← read_file file_path; mret (Some b)
  else
    let url := discord_url id in
    try_except
      (b ← download url; write_file file_path b;; mret (Some b))
      is_HTTPError
      (mret None).

Definition emoji_file_path (emoji : string) : Path :=
  path_join (path_join (cache_dir self) (value (style self))) (emoji +:+ ".png").

(** The URL [get_emoji] builds: the f-string
    [f"https://emojicdn.elk.sh/emoji?style={self.style}"] interpolates the
    style only. *)
Definition emoji_url (emoji : string) : string :=
  "https://emojicdn.elk.sh/emoji?style=" +:+ value (style self).

(** [EmojiCDNSource.get_emoji] *)
Definition get_emoji (emoji : string) : M (option bytes) :=
  emit (EvGetEmoji emoji);;
  let file_path := emoji_file_path emoji in
  cached ← path_exists file_path;
  if (cached : bool) then
    b ← read_file file_path; mret (Some b)
  else
    let url := emoji_url emoji in
    try_except
      (b ← download url; write_file file_path b;; mret (Some b))
      is_HTTPError
      (mret None).

End Source.

(** *** Construction, the local source and the bulk download *)

(** The path itself and the directories above it, outermost first. *)
Definition self_and_parents (p : Path) : list Path :=
  (fun n => take n p) <$> seq 1 (length p).

(** [p.mkdir(parents=True, exist_ok=True)]: creates [p] and the missing
    directories above it; a file in the way is an [OSError]
    ([FileExistsError], [NotADirectoryError]). *)
Definition mkdir_parents (p : Path) : M unit := fun w =>
  if existsb (fun q => bool_decide (is_Some (files w !! q))) (self_and_parents p)
  then (Raise OSError, w, [])
  else (Ok tt,
        mkWorld (files w) (dirs w ∪ list_to_set (self_and_parents p))
                (_emoji_cache w) (_discord_emoji_cache w), []).

(** [cache_dir or (Path.home() / ".cache" / "pilmoji")] *)
Definition cache_dir_or (home : Path) (cache_dir : option Path) : Path :=
  match cache_dir with
  | Some d => d
  | None => path_join (path_join home ".cache") "pilmoji"
  end.

(** [EmojiCDNSource.__init__], which runs [HTTPBasedSource.__init__]: the
    cache directory is made, and nothing below it ([__post_init__] of the
    mixin is a hook of dataclasses and is not run for this class). *)
Definition EmojiCDNSource__init__ (home : Path) (style : EmojiStyle)
    (cache_dir : option Path) : M EmojiCDNSource :=
  let cache_dir := cache_dir_or home cache_dir in
  mkdir_parents cache_dir;;
  mret (mkSource cache_dir style).

(** A [LocalEmojiSource] instance; its [__init__] makes no directory. *)
Record LocalEmojiSource : Type := mkLocal {
  local_cache_dir : Path;
  local_style : EmojiStyle
}.

Definition LocalEmojiSource__init__ (home : Path) (style : EmojiStyle)
    (cache_dir : option Path) : LocalEmojiSource :=
  mkLocal (cache_dir_or home cache_dir) style.

Definition local_file_path (self : LocalEmojiSource) (emoji : string) : Path :=
  path_join (path_join (local_cache_dir self) (value (local_style self)))
            (emoji +:+ ".png").

(** [LocalEmojiSource.get_emoji]: [BytesIO(open(path, "rb").read())] *)
Definition local_get_emoji (self : LocalEmojiSource) (emoji : string)
    : M (option bytes) :=
  b ← read_file (local_file_path self emoji); mret (Some b).

(** [LocalEmojiSource.get_discord_emoji] *)
Definition local_get_discord_emoji (self : LocalEmojiSource) (id : Z)
    : M (option bytes) :=
  b ← read_file
        (path_join (path_join (local_cache_dir self) "discord")
                   (pretty id +:+ ".png"));
  mret (Some b).

(** The bytes [urllib.parse.quote_plus] leaves as they are. *)
Definition is_always_safe (c : ascii) : bool :=
  let n := nat_of_ascii c in
  ((48 <=? n)%nat && (n <=? 57)%nat)
  || ((65 <=? n)%nat && (n <=? 90)%nat)
  || ((97 <=? n)%nat && (n <=? 122)%nat)
  || (n =? 95)%nat || (n =? 46)%nat || (n =? 45)%nat || (n =? 126)%nat.

Definition hex_digit (n : nat) : ascii :=
  match n with
  | 0 => "0" | 1 => "1" | 2 => "2" | 3 => "3" | 4 => "4" | 5 => "5"
  | 6 => "6" | 7 => "7" | 8 => "8" | 9 => "9" | 10 => "A" | 11 => "B"
  | 12 => "C" | 13 => "D" | 14 => "E" | _ => "F"
  end%nat%char.

(** [quote_plus] on one byte of the UTF-8 form of the text. *)
Definition quote_byte (c : ascii) : string :=
  if is_always_safe c then String c EmptyString
  else if Ascii.eqb c " " then "+"
  else String "%" (String (hex_digit (nat_of_ascii c / 16))
                     (String (hex_digit (nat_of_ascii c mod 16)) EmptyString)).

(** [urllib.parse.quote_plus(s)]: a space becomes [+], every other byte
    outside letters, digits and [_.-~] becomes [%XX]. *)
Fixpoint quote_plus (s : string) : string :=
  match s with
  | EmptyString => EmptyString
  | String c s' => quote_byte c +:+ quote_plus s'
  end.

(** [asyncio.gather(..., return_exceptions=True)]: every task runs, and
    an exception becomes the result of its task.  The tasks start in the
    order of the list, and each one of [download_all_emojis] looks at and
    writes the file of its own key only, so for distinct keys they are run
    one after the other, as for [gather] below. *)
Fixpoint gather_return_exceptions {A} (tasks : list (M A))
    : M (list (result A)) := fun w =>
  match tasks with
  | [] => (Ok [], w, [])
  | task :: rest =>
      match task w with
      | (r, w1, ev1) =>
          match gather_return_exceptions rest w1 with
          | (Ok rs, w2, ev2) => (Ok (r :: rs), w2, ev1 ++ ev2)
          | (Raise e, w2, ev2) => (Raise e, w2, ev1 ++ ev2)
          end
      end
  end.

Section Local.

Variable http : string -> http_reply.
(** The keys of [emoji.EMOJI_DATA], a table of the [emoji] package. *)
Variable EMOJI_DATA : list string.
Variable self : LocalEmojiSource.

Definition local_url (emj : string) : string :=
  "https://emojicdn.elk.sh/" +:+ quote_plus emj +:+ "?style="
    +:+ value (local_style self).

(** The inner [download_emoji]: [client.get], [raise_for_status] and the
    content of the response are the steps of [download]. *)
Definition download_emoji (emj : string) : M unit :=
  let file_path := local_file_path self emj in
  present ← path_exists file_path;
  if (present : bool) then mret tt
  else
    content ← download http (local_url emj);
    write_file file_path content.

(** [LocalEmojiSource.download_all_emojis] *)
Definition download_all_emojis : M unit :=
  gather_return_exceptions (download_emoji <$> EMOJI_DATA);; mret tt.

End Local.

End pilmoji_source.

(** ** Nodes, fonts and images (shared by both renderers) *)

Inductive NodeType : Type := TEXT | EMOJI | DISCORD_EMOJI.

#[export] Instance NodeType_eq_dec : EqDecision NodeType.
Proof. solve_decision. Defined.

Record Node : Type := mkNode {
  type : NodeType;
  content : string
}.

(** The Font capability: [font.getlength(text)] is a float. *)
Record FontT : Type := mkFont {
  getlength : string -> spec_float
}.

#[export] Instance result_ret : MRet result := fun A a => Ok a.

#[export] Instance result_bind : MBind result := fun A B f r =>
  match r with
  | Ok a => f a
  | Raise e => Raise e
  end.

(** [a / b] on two ints (true division).  CPython rounds the exact
    quotient once; on operands below [2^53] in magnitude, as image sizes
    are, that is the quotient of the two converted floats. *)
Definition int_truediv (a b : Z) : result spec_float :=
  if b =? 0 then Raise ZeroDivisionError
  else fa ← PyFloat.of_int a; fb ← PyFloat.of_int b; PyFloat.truediv fa fb.

(** [int(n * x)] for an int [n] and a float [x]. *)
Definition int_of_int_mul_float (n : Z) (x : spec_float) : result Z :=
  fn ← PyFloat.of_int n; PyFloat.to_int (PyFloat.mul fn x).

Definition float_2 : spec_float :=
  Eval vm_compute in binary_normalize PyFloat.prec PyFloat.emax 2 0 false.

(** [y_diff = int((line_height - font_size) / 2)] *)
Definition y_diff_of (line_height : Z) (font_size : spec_float) : result Z :=
  lh ← PyFloat.of_int line_height;
  q ← PyFloat.truediv (PyFloat.sub lh font_size) float_2;
  PyFloat.to_int q.

(** [Image.resize(size, LANCZOS)]: Pillow refuses a target below one
    pixel in either direction with a [ValueError]; the result has the
    requested size. *)
Definition resize (im : PILImage) (size : Z * Z) : result PILImage :=
  if (size.1 <? 1) || (size.2 <? 1) then Raise ValueError
  else Ok (mkImage size.1 size.2 (pixels_of im)).

(** [Image.open(bytesio).convert("RGBA")], given the decoder: the size of
    the picture, or [UnidentifiedImageError] for bytes that are no image. *)
Definition open_rgba (Image_open : bytes -> option (Z * Z)) (bytesio : bytes)
    : result PILImage :=
  match Image_open bytesio with
  | Some (w, h) => Ok (mkImage w h bytesio)
  | None => Raise UnidentifiedImageError
  end.

(** The keys of the nodes of one type, over all lines. *)
Definition contents_of (t : NodeType) (lines : list (list Node)) : list string :=
  content <$> filter (fun n => type n = t) (concat lines).

(** [asyncio.gather]: every task is started and runs to its end, also
    when another one raises; the first exception raised is the one that
    [gather] propagates.  The tasks here are for distinct keys, and each
    one touches the cache slot and the cache file of its own key only, so
    their interleaving at the [await]s is not observable beyond the order
    of the logged events; they are run one after the other. *)
Fixpoint gather {A} (tasks : list (M A)) : M (list A) := fun w =>
  match tasks with
  | [] => (Ok [], w, [])
  | task :: rest =>
      match task w with
      | (r, w1, ev1) =>
          match gather rest w1 with
          | (rs, w2, ev2) =>
              (match r, rs with
               | Ok a, Ok l => Ok (a :: l)
               | Raise e, _ => Raise e
               | Ok _, Raise e => Raise e
               end, w2, ev1 ++ ev2)
          end
      end
  end.

(** A [for] loop that threads the cursor through the nodes of a line. *)
Fixpoint for_nodes (body : Z -> Node -> M Z) (cur_x : Z) (line : list Node)
    : M Z :=
  match line with
  | [] => mret cur_x
  | node :: rest => cur_x' ← body cur_x node; for_nodes body cur_x' rest
  end.

(** The loop over the lines: each starts at [x]; [y] grows by
    [line_height] after each. *)
Fixpoint for_lines {L} (body : Z -> L -> M unit) (line_height : Z) (y : Z)
    (lines : list L) : M unit :=
  match lines with
  | [] => mret tt
  | line :: rest =>
      body y line;; for_lines body line_height (y + line_height) rest
  end.

(** ** [pilmoji/core.py] *)

Module pilmoji.

Import pilmoji_source.

Definition EMOJI_PADDING : Z := 1.

Section Pilmoji.

Variable http : string -> http_reply.
(** [self._source] and [self._cache] *)
Variable _source : EmojiCDNSource.
Variable _cache : bool.
(** From [helpers.py], which is not part of the sources at hand:
    [to_nodes(text)] and [to_nodes(text, False)] (the second argument is
    [None] when left out), [get_font_size] and [get_font_height]. *)
Variable to_nodes : string -> option bool -> list (list Node).
Variable get_font_size : FontT -> spec_float.
Variable get_font_height : FontT -> Z.
(** The Image capability's decoder. *)
Variable Image_open : bytes -> option (Z * Z).

Definition set_emoji_cache (emoji : string) (bytesio : bytes) : M unit :=
  fun w => (Ok tt,
            mkWorld (files w) (dirs w) (<[emoji := bytesio]> (_emoji_cache w))
                    (_discord_emoji_cache w), []).

Definition set_discord_emoji_cache (id : Z) (bytesio : bytes) : M unit :=
  fun w => (Ok tt,
            mkWorld (files w) (dirs w) (_emoji_cache w)
                    (<[id := bytesio]> (_discord_emoji_cache w)), []).

Definition _get_emoji (emoji : string) : M (option bytes) := fun w =>
  match (if _cache then _emoji_cache w !! emoji else None) with
  | Some bytesio => (Ok (Some bytesio), w, [])
  | None =>
      (r ← get_emoji http _source emoji;
       match r with
       | Some bytesio =>
           (if _cache then set_emoji_cache emoji bytesio else mret tt);;
           mret (Some bytesio)
       | None => mret None
       end) w
  end.

Definition _get_discord_emoji (id : Z) : M (option bytes) := fun w =>
  match (if _cache then _discord_emoji_cache w !! id else None) with
  | Some bytesio => (Ok (Some bytesio), w, [])
  | None =>
      (r ← get_discord_emoji http _source id;
       match r with
       | Some bytesio =>
           (if _cache then set_discord_emoji_cache id bytesio else mret tt);;
           mret (Some bytesio)
       | None => mret None
       end) w
  end.

(** Draws the text and returns [int(font.getlength(content))]. *)
Definition _render_text (xy : Z * Z) (content : string) (font : FontT) : M Z :=
  emit (EvDrawText xy content);;
  lift (PyFloat.to_int (getlength font content)).

(** Decodes, resizes and pastes the bitmap at [xy]; returns [emoji_size]. *)
Definition _render_emoji (xy : Z * Z) (bytesio : bytes) (size : spec_float)
    : M Z :=
  emoji_img ← lift (open_rgba Image_open bytesio);
  isize ← lift (PyFloat.to_int size);
  let emoji_size := isize - EMOJI_PADDING in
  aspect_ratio ← lift (int_truediv (height emoji_img) (width emoji_img));
  h ← lift (int_of_int_mul_float emoji_size aspect_ratio);
  resized ← lift (resize emoji_img (emoji_size, h));
  emit (EvPaste xy resized);;
  mret emoji_size.

(** [dict.get] on a map whose values may be [None], as a truth test. *)
Definition get_truthy {K} `{Countable K} {V} (m : gmap K (option V)) (k : K)
    : option V :=
  mjoin (m !! k).

(** [await asyncio.gather] over one task per key, then
    [dict(zip(keys, results))]. *)
Definition gather_map {K} `{Countable K} (task : K -> M (option bytes))
    (keys : list K) : M (gmap K (option bytes)) :=
  results ← gather (task <$> keys);
  mret (list_to_map (zip keys results)).

(** The body of the node loop of [text]. *)
Definition text_node (emoji_map : gmap string (option bytes)) (font : FontT)
    (font_size : spec_float) (y y_diff : Z) (cur_x : Z) (node : Node) : M Z :=
  match type node with
  | EMOJI =>
      match get_truthy emoji_map (content node) with
      | Some bytesio =>
          w ← _render_emoji (cur_x, y + y_diff) bytesio font_size;
          mret (cur_x + w)
      | None =>
          w ← _render_text (cur_x, y) (content node) font;
          mret (cur_x + w)
      end
  | _ =>
      w ← _render_text (cur_x, y) (content node) font;
      mret (cur_x + w)
  end.

(** [Pilmoji.text] *)
Definition text (xy : Z * Z) (text : string) (font : FontT) : M unit :=
  let x := xy.1 in
  let y := xy.2 in
  let lines := to_nodes text None in
  let emoji_set : gset string := list_to_set (contents_of EMOJI lines) in
  let keys := elements emoji_set in
  emoji_map ← (match keys with
               | [] => mret ∅
               | _ => gather_map _get_emoji keys
               end);
  let font_size := get_font_size font in
  let line_height := get_font_height font in
  y_diff ← lift (y_diff_of line_height font_size);
  for_lines
    (fun y line =>
       for_nodes (text_node emoji_map font font_size y y_diff) x line;; mret tt)
    line_height y lines.

(** [int(node.content)] on the key of a custom-emoji node; only the
    decimal form [str(id)] of an integer is read back here. *)
Variable int_of_str : string -> result Z.

(** The body of the node loop of [text_with_discord_emoji]. *)
Definition text_with_discord_emoji_node
    (emoji_map : gmap string (option bytes))
    (discord_map : gmap Z (option bytes)) (font : FontT)
    (font_size : spec_float) (y y_diff : Z) (cur_x : Z) (node : Node) : M Z :=
  stream_fallback ←
    match type node with
    | EMOJI => mret (get_truthy emoji_map (content node), content node)
    | DISCORD_EMOJI =>
        id ← lift (int_of_str (content node));
        match get_truthy discord_map id with
        | Some stream => mret (Some stream, content node)
        | None => mret (None, "[:" +:+ content node +:+ ":]")
        end
    | TEXT => mret (None, content node)
    end;
  match stream_fallback with
  | (Some stream, _) =>
      w ← _render_emoji (cur_x, y + y_diff) stream font_size;
      mret (cur_x + w)
  | (None, fallback_text) =>
      w ← _render_text (cur_x, y) fallback_text font;
      mret (cur_x + w)
  end.

(** [Pilmoji.text_with_discord_emoji] *)
Definition text_with_discord_emoji (xy : Z * Z) (text : string) (font : FontT)
    : M unit :=
  let x := xy.1 in
  let y := xy.2 in
  let lines := to_nodes text (Some false) in
  let emoji_set : gset string := list_to_set (contents_of EMOJI lines) in
  ids ← lift (mapM int_of_str (contents_of DISCORD_EMOJI lines));
  let discord_emoji_set : gset Z := list_to_set ids in
  let emoji_keys := elements emoji_set in
  let discord_keys := elements discord_emoji_set in
  let emoji_tasks := _get_emoji <$> emoji_keys in
  let discord_tasks := _get_discord_emoji <$> discord_keys in
  maps ← (match emoji_tasks, discord_tasks with
          | [], [] => mret (∅, ∅)
          | _, _ =>
              results ← gather (emoji_tasks ++ discord_tasks);
              let emoji_results := take (length emoji_tasks) results in
              let discord_results := drop (length emoji_tasks) results in
              mret (list_to_map (zip emoji_keys emoji_results)
                      : gmap string (option bytes),
                    list_to_map (zip discord_keys discord_results)
                      : gmap Z (option bytes))
          end);
  let font_size := get_font_size font in
  let line_height := get_font_height font in
  y_diff ← lift (y_diff_of line_height font_size);
  for_lines
    (fun y line =>
       for_nodes
         (text_with_discord_emoji_node maps.1 maps.2 font font_size y y_diff)
         x line;;
       mret tt)
    line_height y lines.

(** [Pilmoji.close]: with the in-memory cache on, the cached streams are
    closed and both dictionaries start afresh. *)
Definition close : M unit := fun w =>
  if _cache
  then (Ok tt, mkWorld (files w) (dirs w) ∅ ∅, [])
  else (Ok tt, w, []).

End Pilmoji.

End pilmoji.

(** ** [apilmoji/core.py] *)

Module apilmoji.

Section Pilmoji.

(** From [helper.py], which is not part of the sources at hand. *)
Variable contains_emoji : list string -> bool -> bool.
Variable parse_lines : list string -> bool -> list (list Node).
Variable get_font_height : FontT -> Z.
Variable get_font_size : FontT -> spec_float.
(** [self._source.fetch_emojis] (its module is not part of the sources at
    hand either): the items of the [dict] it returns, in their order. *)
Variable fetch_emojis :
  gset string -> gset string -> result (list (string * option bytes)).
(** The Image capability's decoder. *)
Variable Image_open : bytes -> option (Z * Z).

(** [Pilmoji._resize_emoji] *)
Definition _resize_emoji (bytesio : bytes) (size : spec_float)
    : result PILImage :=
  emoji_img ← open_rgba Image_open bytesio;
  isize ← PyFloat.to_int size;
  let emoji_size := isize - 2 in
  aspect_ratio ← int_truediv (height emoji_img) (width emoji_img);
  h ← int_of_int_mul_float emoji_size aspect_ratio;
  resize emoji_img (emoji_size, h).

(** The comprehension that builds [resized_emjs]: every item whose
    [bytesio] is not [None] is resized, in the order of the items. *)
Fixpoint resize_all (font_size : spec_float) (acc : gmap string PILImage)
    (items : list (string * option bytes)) : result (gmap string PILImage) :=
  match items with
  | [] => Ok acc
  | (emoji, Some bytesio) :: rest =>
      im ← _resize_emoji bytesio font_size;
      resize_all font_size (<[emoji := im]> acc) rest
  | (_, None) :: rest => resize_all font_size acc rest
  end.

(** The body of the node loop of [text]. *)
Definition text_node (resized_emjs : gmap string PILImage) (font : FontT)
    (font_size : spec_float) (y y_diff : Z) (cur_x : Z) (node : Node) : M Z :=
  let emj_img :=
    match type node with
    | EMOJI | DISCORD_EMOJI => resized_emjs !! content node
    | TEXT => None
    end in
  match emj_img with
  | Some emj_img =>
      emit (EvPaste (cur_x + 1, y + y_diff) emj_img);;
      w ← lift (PyFloat.to_int font_size);
      mret (cur_x + w)
  | None =>
      emit (EvDrawText (cur_x, y) (content node));;
      w ← lift (PyFloat.to_int (getlength font (content node)));
      mret (cur_x + w)
  end.

(** [line_height or helper.get_font_height(font)] *)
Definition line_height_or (line_height : option Z) (font : FontT) : Z :=
  match line_height with
  | Some lh => if lh =? 0 then get_font_height font else lh
  | None => get_font_height font
  end.

(** [Pilmoji.text] *)
Definition text (xy : Z * Z) (lines : list string) (font : FontT)
    (line_height : option Z) (support_ds_emj : bool) : M unit :=
  match lines with
  | [] => mret tt
  | _ =>
      let x := xy.1 in
      let y := xy.2 in
      let line_height := line_height_or line_height font in
      if negb (contains_emoji lines support_ds_emj) then
        for_lines (fun y line => emit (EvDrawText (x, y) line))
                  line_height y lines
      else
        let nodes_lst := parse_lines lines support_ds_emj in
        let emj_set : gset string := list_to_set (contents_of EMOJI nodes_lst) in
        let ds_emj_set : gset string :=
          list_to_set (contents_of DISCORD_EMOJI nodes_lst) in
        emit (EvFetchEmojis emj_set ds_emj_set);;
        emj_map ← lift (fetch_emojis emj_set ds_emj_set);
        let font_size := get_font_size font in
        y_diff ← lift (y_diff_of line_height font_size);
        resized_emjs ← lift (resize_all font_size ∅ emj_map);
        for_lines
          (fun y line =>
             for_nodes (text_node resized_emjs font font_size y y_diff) x line;;
             mret tt)
          line_height y nodes_lst
  end.

End Pilmoji.

End apilmoji.

(** ** The tokenizer *)

Module Tokenizer.

(** Whether [p] is a prefix of [s]. *)
Fixpoint starts_with (p s : string) : bool :=
  match p, s with
  | EmptyString, _ => true
  | String a p', String b s' => if Ascii.eqb a b then starts_with p' s' else false
  | String _ _, EmptyString => false
  end.

Fixpoint string_drop (n : nat) (s : string) : string :=
  match n, s with
  | O, _ => s
  | S n', String _ s' => string_drop n' s'
  | S _, EmptyString => EmptyString
  end.

(** The longest leading run of characters that satisfy [p], and what
    follows it. *)
Fixpoint span (p : Ascii.ascii -> bool) (s : string) : string * string :=
  match s with
  | String c s' =>
      if p c then let '(run, rest) := span p s' in (String c run, rest)
      else (EmptyString, s)
  | EmptyString => (EmptyString, EmptyString)
  end.

Definition is_digit (c : Ascii.ascii) : bool :=
  let n := Ascii.nat_of_ascii c in (48 <=? n)%nat && (n <=? 57)%nat.

Definition is_name_char (c : Ascii.ascii) : bool :=
  let n := Ascii.nat_of_ascii c in
  is_digit c || ((65 <=? n)%nat && (n <=? 90)%nat)
  || ((97 <=? n)%nat && (n <=? 122)%nat) || (n =? 95)%nat.

(** A custom-emoji reference found at the head of a line. *)
Record custom_ref : Type := mkRef {
  ref_name : string;
  ref_id : string;
  ref_length : nat
}.

(** Modelled from the spec: the custom-emoji-reference match, whose
    function is not part of the sources at hand; the spec asks for "a
    bracketed syntax carrying a display name and a numeric ID" and leaves
    the brackets open, the platform's [<:name:id>] is taken. *)
Definition custom_ref_at (s : string) : option custom_ref :=
  if starts_with "<:" s then
    let '(name, after_name) := span is_name_char (string_drop 2 s) in
    match name, after_name with
    | String _ _, String ":"%char after_colon =>
        let '(id, after_id) := span is_digit after_colon in
        match id, after_id with
        | String _ _, String ">"%char _ =>
            Some (mkRef name id (String.length name + String.length id + 4))
        | _, _ => None
        end
    | _, _ => None
    end
  else None.

Section Tokenize.

(** The known emoji registry. *)
Variable registry : list string.

(** Modelled from the spec: the Unicode-emoji match, whose function is
    not part of the sources at hand: the "longest matching emoji grapheme
    sequence ... from a known emoji registry" at the head of the line. *)
Definition emoji_at (s : string) : option string :=
  foldr (fun e best =>
           if starts_with e s && negb (String.eqb e EmptyString) then
             match best with
             | Some b =>
                 if (String.length b <? String.length e)%nat then Some e else best
             | None => Some e
             end
           else best)
        None registry.

(** Modelled from the spec: what is matched at a position, in the spec's
    priority order ("a custom-emoji-reference match ... when
    [detect_custom_emoji] is true; else a Unicode-emoji match"): the node
    and the number of characters it takes.  The content of a custom-emoji
    node is "an opaque reference identifier (e.g., a numeric ID as a
    string)". *)
Definition match_at (detect_custom_emoji : bool) (s : string)
    : option (Node * nat) :=
  match (if detect_custom_emoji then custom_ref_at s else None) with
  | Some r => Some (mkNode DISCORD_EMOJI (ref_id r), ref_length r)
  | None =>
      match emoji_at s with
      | Some e => Some (mkNode EMOJI e, String.length e)
      | None => None
      end
  end.

(** Modelled from the spec: "extends the current plain-text run by one
    character"; "consecutive non-emoji characters are coalesced into a
    single TEXT node". *)
Definition push_char (c : Ascii.ascii) (nodes : list Node) : list Node :=
  match nodes with
  | mkNode TEXT run :: rest => mkNode TEXT (String c run) :: rest
  | _ => mkNode TEXT (String c EmptyString) :: nodes
  end.

(** Modelled from the spec: [tokenize(line, detect_custom_emoji)], whose
    module ([helpers.py], [helper.py]) is not part of the sources at
    hand: "scans the line left to right", trying the matches at each
    position and else extending the text run. *)
Equations? tokenize (detect_custom_emoji : bool) (line : string) : list Node
    by wf (String.length line) lt :=
  tokenize d EmptyString := [];
  tokenize d (String c s') with match_at d (String c s') => {
    | Some (node, n) := node :: tokenize d (string_drop (Nat.pred n) s');
    | None := push_char c (tokenize d s') }.
Proof.
  all: simpl; try lia.
  clear. generalize (Nat.pred n). intros k. revert s'.
  induction k as [|k IH]; intros [|a s']; simpl; try lia.
  specialize (IH s'). lia.
Qed.

(** Concatenating the content of every node, in order. *)
Definition concat_contents (nodes : list Node) : string :=
  foldr (fun n acc => content n +:+ acc) EmptyString nodes.

End Tokenize.

End Tokenizer.

(** * Statements *)

(** The URLs requested from the network, in order. *)
Definition http_gets (evs : list event) : list string :=
  omap (fun ev => match ev with EvHttpGet url => Some url | _ => None end) evs.

(** The failures of a network fetch: an error status (a 404 for a
    remote not-found), a timeout, a connection failure. *)
Inductive fetch_fails (http : string -> http_reply) (url : string) : Prop :=
| fails_status status_code body :
    http url = Response status_code body ->
    ~ (200 <= status_code < 300) ->
    fetch_fails http url
| fails_timeout :
    http url = RequestFailed TimeoutException -> fetch_fails http url
| fails_connect :
    http url = RequestFailed ConnectError -> fetch_fails http url.

(** Nothing is stored under [p]: neither a file nor a directory. *)
Definition absent (p : Path) (w : world) : Prop :=
  files w !! p = None /\ p ∉ dirs w.

(** ** Concrete settings for the examples *)

Definition thumbs_up : string := "👍".
Definition sunglasses : string := "😎".

Definition png_1 : bytes := [Byte.x89; Byte.x50; Byte.x4e; Byte.x47; Byte.x01].
Definition png_2 : bytes := [Byte.x89; Byte.x50; Byte.x4e; Byte.x47; Byte.x02].
Definition garbage : bytes := [Byte.x00].

Definition apple_source : pilmoji_source.EmojiCDNSource :=
  pilmoji_source.mkSource ["cache"] pilmoji_source.APPLE.

(** A remote that answers 404 to everything, and one that serves [png_1]. *)
Definition http_404 : string -> http_reply := fun _ => Response 404 [].
Definition http_png : string -> http_reply := fun _ => Response 200 png_1.

Definition empty_world : world := mkWorld ∅ ∅ ∅ ∅.

(** An empty cache whose style and [discord] directories exist. *)
Definition fresh_world : world :=
  mkWorld ∅ {[ ["cache"]; ["cache"; "apple"]; ["cache"; "discord"] ]} ∅ ∅.

(** A cache that holds the bitmap of [thumbs_up] on disk. *)
Definition warm_world : world :=
  mkWorld {[ ["cache"; "apple"; thumbs_up +:+ ".png"] := png_1 ]}
          {[ ["cache"]; ["cache"; "apple"]; ["cache"; "discord"] ]} ∅ ∅.

(** ** The spec's formulas *)

Definition float_6 : spec_float :=
  Eval vm_compute in binary_normalize PyFloat.prec PyFloat.emax 6 0 false.
Definition float_16 : spec_float :=
  Eval vm_compute in binary_normalize PyFloat.prec PyFloat.emax 16 0 false.



(** [r] is an integer nearest to the fraction [n / d] (for [0 < d]): the
    spec's [round(n / d)], whichever way a tie is broken. *)
Definition is_nearest_integer (r n d : Z) : Prop :=
  2 * Z.abs (r * d - n) <= d.

(** [int(emoji_size * (h / w))], the height both renderers ask [resize]
    for. *)
Definition truncated_height (emoji_size h w : Z) : result Z :=
  aspect_ratio ← int_truediv h w;
  int_of_int_mul_float emoji_size aspect_ratio.

(** A decoder that knows [png_1] as a 4 x 3 picture and [png_2] as a
    72 x 72 one, and nothing else. *)
Definition decode_example (b : bytes) : option (Z * Z) :=
  if decide (b = png_1) then Some (4, 3)
  else if decide (b = png_2) then Some (72, 72)
  else None.

(** The Bitmap Adapter's [prepare(raw_bytes, target_size)], as both
    renderers run it: decode, then resize to [int(size) - padding] wide
    and [int(width * (h / w))] high. *)
Definition prepare (Image_open : bytes -> option (Z * Z)) (padding : Z)
    (bytesio : bytes) (size : spec_float) : result PILImage :=
  emoji_img ← open_rgba Image_open bytesio;
  isize ← PyFloat.to_int size;
  h ← truncated_height (isize - padding) (height emoji_img) (width emoji_img);
  resize emoji_img (isize - padding, h).

(** [int(s)] on a string of decimal digits, the form in which the id of
    a custom emoji is written. *)
Fixpoint digits_value (acc : Z) (s : string) : result Z :=
  match s with
  | EmptyString => Ok acc
  | String c s' =>
      if Tokenizer.is_digit c
      then digits_value (10 * acc + (Z.of_nat (nat_of_ascii c) - 48)) s'
      else Raise ValueError
  end.

Definition decimal_int (s : string) : result Z :=
  match s with
  | EmptyString => Raise ValueError
  | _ => digits_value 0 s
  end.

(** A font whose every character is 7.5 units wide. *)
Definition example_font : FontT :=
  mkFont (fun s =>
    binary_normalize PyFloat.prec PyFloat.emax
      (15 * Z.of_nat (String.length s)) (-1) false).

(** The custom-emoji reference of the examples, its id and its name. *)
Definition smile_id : string := "596576798351949847".
Definition smile_ref : string := "<:smile:596576798351949847>".

Definition thumbs_node : Node := mkNode EMOJI thumbs_up.
Definition smile_node : Node := mkNode DISCORD_EMOJI smile_id.

(** ** Reading the event log *)

(** A pixel is drawn: text drawn or a bitmap pasted. *)
Definition is_draw (ev : event) : bool :=
  match ev with
  | EvDrawText _ _ | EvPaste _ _ => true
  | _ => false
  end.

Definition draws (evs : list event) : list event := filter is_draw evs.

(** The keys [source.get_emoji] was called for, in order. *)
Definition get_calls (evs : list event) : list string :=
  omap (fun ev => match ev with EvGetEmoji k => Some k | _ => None end) evs.

(** The key sets [source.fetch_emojis] was called with, in order. *)
Definition fetch_calls (evs : list event) : list (gset string * gset string) :=
  omap (fun ev =>
          match ev with EvFetchEmojis a b => Some (a, b) | _ => None end) evs.

(** Every event a computation logs satisfies [P], from any world. *)
Definition emits {A} (P : event -> Prop) (m : M A) : Prop :=
  forall w, Forall P (events_of (m w)).

Definition not_draw (ev : event) : Prop := is_draw ev = false.
Definition only_draw (ev : event) : Prop := is_draw ev = true.

(** The log is a resolution phase followed by a drawing phase. *)
Definition resolve_then_draw (evs : list event) : Prop :=
  exists pre post,
    evs = pre ++ post /\ Forall not_draw pre /\ Forall only_draw post.

(** A remote that serves bytes that are no image. *)
Definition http_garbage : string -> http_reply := fun _ => Response 200 garbage.

(** The tokenizer of the examples: one line, Unicode emoji only. *)
Definition example_to_nodes (text : string) (_ : option bool)
    : list (list Node) :=
  [Tokenizer.tokenize [thumbs_up; sunglasses] false text].

(** An item of [emj_map] is harmless when its bitmap, if any, is either
    undecodable or prepared without an error. *)
Definition decodes_or_prepares (Image_open : bytes -> option (Z * Z))
    (font_size : spec_float) (item : string * option bytes) : Prop :=
  forall b, item.2 = Some b ->
    Image_open b = None
    \/ is_Raise (apilmoji._resize_emoji Image_open b font_size) = false.

(** Instances of the helpers of apilmoji for the examples: the lines are
    tokenized one by one, and hold an emoji when some node is not text. *)
Definition example_parse_lines (lines : list string) (support_ds_emj : bool)
    : list (list Node) :=
  Tokenizer.tokenize [thumbs_up; sunglasses] support_ds_emj <$> lines.

Definition example_contains_emoji (lines : list string) (support_ds_emj : bool)
    : bool :=
  existsb (fun n => negb (bool_decide (type n = TEXT)))
          (concat (example_parse_lines lines support_ds_emj)).

(** A resolver that answers every key with bytes that are no image, and
    one that answers with [png_2]. *)
Definition fetch_garbage (emj_set ds_emj_set : gset string)
    : result (list (string * option bytes)) :=
  Ok ((fun k => (k, Some garbage)) <$> elements (emj_set ∪ ds_emj_set)).

Definition fetch_png (emj_set ds_emj_set : gset string)
    : result (list (string * option bytes)) :=
  Ok ((fun k => (k, Some png_2)) <$> elements (emj_set ∪ ds_emj_set)).

Definition font_height_20 (_ : FontT) : Z := 20.
Definition font_size_16 (_ : FontT) : spec_float := float_16.

(** The key is not served by the in-memory cache [c] of a renderer
    whose caching flag is [_cache]. *)
Definition memory_miss (_cache : bool) (c : gmap string bytes) (k : string)
    : bool :=
  negb (_cache && bool_decide (is_Some (c !! k))).

(** On the integers [line_height] and [font_size], whether [y_diff] is
    the quotient of their difference by 2 truncated toward zero. *)
Definition y_diff_matches_quot (line_height font_size : Z) : bool :=
  match PyFloat.of_int font_size with
  | Ok fs =>
      match y_diff_of line_height fs with
      | Ok d => d =? Z.quot (line_height - font_size) 2
      | Raise _ => false
      end
  | Raise _ => false
  end.

(** Whether the height asked for is the floor of [emoji_size * h / w], or,
    where that fraction is an integer, possibly that integer less one (the
    quotient [h / w] is rounded before it is multiplied). *)
Definition height_is_floor_or_below (emoji_size h w : Z) : bool :=
  match truncated_height emoji_size h w with
  | Ok t =>
      (t =? emoji_size * h / w)
      || ((t =? emoji_size * h / w - 1) && (emoji_size * h mod w =? 0))
  | Raise _ => false
  end.

(** ** Statements about the caches and the layout *)

(** Neither cache lost or changed an entry, and no directory was made or
    removed. *)
Definition cache_grows (w w' : world) : Prop :=
  files w ⊆ files w'
  /\ dirs w' = dirs w
  /\ _emoji_cache w ⊆ _emoji_cache w'
  /\ _discord_emoji_cache w ⊆ _discord_emoji_cache w'.

(** The world a computation leaves is related by [R] to the one it
    found, whatever it returns or raises. *)
Definition keeps {A} (R : world -> world -> Prop) (m : M A) : Prop :=
  forall w, R w (world_of (m w)).

Definition sum_Z (l : list Z) : Z := foldr Z.add 0 l.

(** The draw calls of a line whose nodes are all drawn as text: each at
    the cursor the advances of the nodes before it lead to. *)
Fixpoint run_events (y cur_x : Z) (line : list Node) (advances : list Z)
    : list event :=
  match line, advances with
  | node :: line', a :: advances' =>
      EvDrawText (cur_x, y) (content node)
        :: run_events y (cur_x + a) line' advances'
  | _, _ => []
  end.

(** The value of a hexadecimal digit, and a reader of what [quote_plus]
    writes. *)
Definition hex_value (c : ascii) : nat :=
  let n := nat_of_ascii c in
  if (n <=? 57)%nat then (n - 48)%nat else (n - 55)%nat.

Fixpoint unquote_plus (s : string) : string :=
  match s with
  | String c rest =>
      if Ascii.eqb c "%" then
        match rest with
        | String a (String b rest') =>
            String (ascii_of_nat (16 * hex_value a + hex_value b))
                   (unquote_plus rest')
        | _ => String c (unquote_plus rest)
        end
      else if Ascii.eqb c "+" then String " " (unquote_plus rest)
      else String c (unquote_plus rest)
  | EmptyString => EmptyString
  end.

(** What [file_path.exists()] answers in a world. *)
Definition on_disk (w : world) (p : Path) : bool :=
  bool_decide (is_Some (files w !! p)) || bool_decide (p ∈ dirs w).

(** The keys of the table whose file [download_all_emojis] does not find. *)
Definition to_download (self : pilmoji_source.LocalEmojiSource) (w : world)
    (keys : list string) : list string :=
  List.filter
    (fun emj => negb (on_disk w (pilmoji_source.local_file_path self emj)))
    keys.

(** One draw call per line: line [i] at [x] and [i] line heights below
    [y]. *)
Definition line_draws (x y line_height : Z) (lines : list string)
    : list event :=
  imap (fun i line => EvDrawText (x, y + Z.of_nat i * line_height) line) lines.

(** [a] is [int(font.getlength(node.content))]. *)
Definition measured (font : FontT) (node : Node) (a : Z) : Prop :=
  PyFloat.to_int (getlength font (content node)) = Ok a.

(** The draw calls of lines of text nodes: line [i] is laid out from
    [x], [i] line heights below [y]. *)
Definition layout_events (x y line_height : Z) (lines : list (list Node))
    (advances : list (list Z)) : list event :=
  concat
    (imap (fun i la => run_events (y + Z.of_nat i * line_height) x la.1 la.2)
          (zip lines advances)).

(** A tokenizer for the examples that makes one text node of each word
    of a two-line text. *)
Definition two_line_nodes (_ : string) (_ : option bool) : list (list Node) :=
  [[mkNode TEXT "Hi "; mkNode TEXT "you"]; [mkNode TEXT "bye"]].

(** The key holds no path separator, so [f"{emoji}.png"] is one
    component of the path, as [path_join] takes it. *)
Definition no_separator (s : string) : bool :=
  forallb (fun c => negb (Ascii.eqb c "/")) (String.list_ascii_of_string s).

(** A bitmap that is pasted is one that was prepared, decoded and
    resized, from the bytes of an item of [emj_map]. *)
Definition pastes_prepared (Image_open : bytes -> option (Z * Z))
    (font_size : spec_float) (items : list (string * option bytes))
    (ev : event) : Prop :=
  match ev with
  | EvPaste _ im =>
      exists k b,
        (k, Some b) ∈ items
        /\ apilmoji._resize_emoji Image_open b font_size = Ok im
  | _ => True
  end.

(** A bitmap that is pasted is a value of the dictionary [resized_emjs]. *)
Definition pastes_from (resized_emjs : gmap string PILImage) (ev : event)
    : Prop :=
  match ev with
  | EvPaste _ im => exists k, resized_emjs !! k = Some im
  | _ => True
  end.

(** Every bitmap of the items is decoded and resized without an error. *)
Definition all_prepared (Image_open : bytes -> option (Z * Z))
    (font_size : spec_float) (items : list (string * option bytes)) : Prop :=
  Forall
    (fun item : string * option bytes =>
       forall b, item.2 = Some b ->
         is_Raise (apilmoji._resize_emoji Image_open b font_size) = false)
    items.

(** A font of size 2, too small for a bitmap. *)
Definition font_size_2 (_ : FontT) : spec_float := float_2.

(** The part of the line a node stands for: its content, and for the
    node of a custom-emoji reference the whole reference, of which the
    content is the id. *)
Definition node_span (node : Node) (s : string) : Prop :=
  match type node with
  | DISCORD_EMOJI =>
      exists name, s = "<:" +:+ name +:+ ":" +:+ content node +:+ ">"
  | _ => s = content node
  end.

Definition concat_strings (l : list string) : string :=
  foldr (fun s acc => s +:+ acc) EmptyString l.

(** No custom-emoji reference starts anywhere in the line. *)
Definition no_custom_ref (line : string) : Prop :=
  forall n, Tokenizer.custom_ref_at (Tokenizer.string_drop n line) = None.

(** * Properties *)

(** Running a bind: the first computation, then, unless it raised, the
    second on the world it left; the logs are appended. *)
Lemma bind_run {A B} (m : M A) (f : A -> M B) w :
  (m ≫= f) w
  = match m w with
    | (Ok a, w1, ev1) =>
        match f a w1 with (r, w2, ev2) => (r, w2, ev1 ++ ev2) end
    | (Raise e, w1, ev1) => (Raise e, w1, ev1)
    end.
Proof. reflexivity. Qed.

(** ** Strings and paths *)

Lemma string_app_cons a s t : String a s +:+ t = String a (s +:+ t).
Proof. reflexivity. Qed.

Lemma list_ascii_of_string_app s t :
  String.list_ascii_of_string (s +:+ t)
  = String.list_ascii_of_string s ++ String.list_ascii_of_string t.
Proof.
  induction s as [|a s IH]; [reflexivity |].
  rewrite string_app_cons. simpl. rewrite IH. reflexivity.
Qed.

(** A common suffix can be cancelled. *)
Lemma string_app_inj_r s1 s2 t : s1 +:+ t = s2 +:+ t -> s1 = s2.
Proof.
  intros Heq. apply (f_equal String.list_ascii_of_string) in Heq.
  rewrite !list_ascii_of_string_app in Heq.
  apply app_inv_tail in Heq.
  rewrite <- (String.string_of_list_ascii_of_string s1),
          <- (String.string_of_list_ascii_of_string s2), Heq.
  reflexivity.
Qed.

Lemma path_join_inj p q a b : path_join p a = path_join q b -> p = q /\ a = b.
Proof.
  unfold path_join. intros H. apply app_inj_tail in H as [-> ->]. auto.
Qed.

Section SourceProperties.

Import pilmoji_source.

Variable http : string -> http_reply.
Variable self : EmojiCDNSource.

Lemma path_exists_absent p w :
  absent p w -> path_exists p w = (Ok false, w, []).
Proof.
  intros [Hf Hd]. unfold path_exists. rewrite Hf.
  rewrite bool_decide_eq_false_2 by (intros [? ?]; discriminate).
  rewrite bool_decide_eq_false_2 by assumption. reflexivity.
Qed.

Lemma path_exists_file p w b :
  files w !! p = Some b -> path_exists p w = (Ok true, w, []).
Proof.
  intros Hf. unfold path_exists. rewrite Hf.
  rewrite bool_decide_eq_true_2 by eauto. reflexivity.
Qed.

Lemma download_fails url w :
  fetch_fails http url ->
  exists e, is_HTTPError e = true /\
            download http url w = (Raise e, w, [EvHttpGet url]).
Proof.
  intros Hfail. unfold download, mbind, M_bind, emit; simpl.
  destruct Hfail as [sc body Hr Hsc | Hr | Hr]; rewrite Hr.
  - exists (HTTPStatusError sc). split; [reflexivity |].
    destruct (200 <=? sc) eqn:H1; destruct (sc <? 300) eqn:H2; simpl;
      try reflexivity.
    exfalso. apply Hsc. lia.
  - exists TimeoutException. split; reflexivity.
  - exists ConnectError. split; reflexivity.
Qed.

(** What a cache miss followed by a failed fetch does, for any cache
    path and URL: the [try] catches the error and the answer is [None]. *)
Lemma fetch_or_none_fails file_path url w :
  fetch_fails http url ->
  try_except
    (b ← download http url; write_file file_path b;; mret (Some b))
    is_HTTPError (mret None) w
  = (Ok None, w, [EvHttpGet url]).
Proof.
  intros Hfail. destruct (download_fails url w Hfail) as (e & He & Hd).
  unfold try_except, mbind at 1, M_bind. rewrite Hd, He. reflexivity.
Qed.

(** C6: a key whose network fetch fails (error status, timeout,
    connection failure, remote not-found) resolves to [None] in both
    [get_emoji] and [get_discord_emoji]: no exception reaches the caller,
    and the on-disk cache is left as it was; the renderer's [_get_emoji]
    and [_get_discord_emoji] hand that [None] on, and cache nothing. *)
Theorem fetch_failure_returns_None (w : world) :
  (forall emoji,
     absent (emoji_file_path self emoji) w ->
     fetch_fails http (emoji_url self emoji) ->
     get_emoji http self emoji w
     = (Ok None, w, [EvGetEmoji emoji; EvHttpGet (emoji_url self emoji)]))
  /\ (forall id,
     absent (discord_file_path self id) w ->
     fetch_fails http (discord_url id) ->
     get_discord_emoji http self id w
     = (Ok None, w, [EvGetDiscordEmoji id; EvHttpGet (discord_url id)]))
  /\ (forall (_cache : bool) (emoji : string),
     (if _cache then _emoji_cache w !! emoji else None) = None ->
     absent (emoji_file_path self emoji) w ->
     fetch_fails http (emoji_url self emoji) ->
     pilmoji._get_emoji http self _cache emoji w
     = (Ok None, w, [EvGetEmoji emoji; EvHttpGet (emoji_url self emoji)]))
  /\ (forall (_cache : bool) (id : Z),
     (if _cache then _discord_emoji_cache w !! id else None) = None ->
     absent (discord_file_path self id) w ->
     fetch_fails http (discord_url id) ->
     pilmoji._get_discord_emoji http self _cache id w
     = (Ok None, w, [EvGetDiscordEmoji id; EvHttpGet (discord_url id)])).
Proof.
  assert (Hemoji : forall emoji,
     absent (emoji_file_path self emoji) w ->
     fetch_fails http (emoji_url self emoji) ->
     get_emoji http self emoji w
     = (Ok None, w, [EvGetEmoji emoji; EvHttpGet (emoji_url self emoji)])).
  { intros emoji Habs Hfail. unfold get_emoji.
    unfold mbind at 1, M_bind, emit.
    unfold mbind at 1, M_bind. rewrite (path_exists_absent _ _ Habs).
    rewrite (fetch_or_none_fails _ _ _ Hfail). reflexivity. }
  assert (Hdiscord : forall id,
     absent (discord_file_path self id) w ->
     fetch_fails http (discord_url id) ->
     get_discord_emoji http self id w
     = (Ok None, w, [EvGetDiscordEmoji id; EvHttpGet (discord_url id)])).
  { intros id Habs Hfail. unfold get_discord_emoji.
    unfold mbind at 1, M_bind, emit.
    unfold mbind at 1, M_bind. rewrite (path_exists_absent _ _ Habs).
    rewrite (fetch_or_none_fails _ _ _ Hfail). reflexivity. }
  split; [exact Hemoji |]. split; [exact Hdiscord |]. split.
  - intros _cache emoji Hmem Habs Hfail. unfold pilmoji._get_emoji.
    rewrite Hmem. unfold mbind, M_bind. rewrite (Hemoji _ Habs Hfail).
    reflexivity.
  - intros _cache id Hmem Habs Hfail. unfold pilmoji._get_discord_emoji.
    rewrite Hmem. unfold mbind, M_bind. rewrite (Hdiscord _ Habs Hfail).
    reflexivity.
Qed.

End SourceProperties.

Section DiskCacheProperties.

Import pilmoji_source.

Variable http : string -> http_reply.
Variable self : EmojiCDNSource.

Lemma write_file_inv p b w r w' evs :
  write_file p b w = (r, w', evs) ->
  (r = Ok tt /\ files w' = <[p := b]> (files w) /\ dirs w' = dirs w /\ evs = [])
  \/ (is_Raise r = true /\ w' = w /\ evs = []).
Proof.
  unfold write_file.
  destruct (bool_decide (parent p ∈ dirs w) && negb (bool_decide (p ∈ dirs w)));
    intros [= <- <- <-]; [left | right]; simpl; auto.
Qed.

(** A fetch that came back with bytes has stored exactly these bytes. *)
Lemma fetch_or_none_stores file_path url w b :
  result_of
    (try_except
       (b ← download http url; write_file file_path b;; mret (Some b))
       is_HTTPError (mret None) w) = Ok (Some b) ->
  files
    (world_of
       (try_except
          (b ← download http url; write_file file_path b;; mret (Some b))
          is_HTTPError (mret None) w)) !! file_path = Some b.
Proof.
  unfold try_except, mbind at 1 3, M_bind.
  destruct (download http url w) as [[[content|e] w1] ev1] eqn:Hd.
  - unfold mbind, M_bind, mret, M_ret.
    destruct (write_file file_path content w1) as [[r w2] ev2] eqn:Hw.
    destruct (write_file_inv _ _ _ _ _ _ Hw)
      as [(-> & Hf & _ & _) | (Hr & _ & _)].
    + simpl. intros [= ->]. unfold world_of; simpl. rewrite Hf.
      apply lookup_insert_eq.
    + destruct r as [[]|e]; [discriminate Hr |].
      destruct (is_HTTPError e); simpl; discriminate.
  - destruct (is_HTTPError e); simpl; discriminate.
Qed.

(** On a cache miss [get_emoji] is the guarded fetch. *)
Lemma get_emoji_miss emoji w :
  absent (emoji_file_path self emoji) w ->
  get_emoji http self emoji w
  = match try_except
            (b ← download http (emoji_url self emoji);
             write_file (emoji_file_path self emoji) b;; mret (Some b))
            is_HTTPError (mret None) w with
    | (r, w1, ev1) => (r, w1, EvGetEmoji emoji :: ev1)
    end.
Proof.
  intros Habs. unfold get_emoji.
  unfold mbind at 1, M_bind, emit. unfold mbind at 1, M_bind.
  rewrite (path_exists_absent _ _ Habs).
  destruct (try_except _ _ _ w) as [[r w1] ev1]. reflexivity.
Qed.

(** C9: when the bitmap file of a key is in the on-disk cache, both
    [get_emoji] and [get_discord_emoji] return exactly the bytes of that
    file, leave the world as it is and request nothing from the network;
    and the bytes an earlier call of [get_emoji] fetched and returned are
    the ones a later call reads back from the cache. *)
Theorem disk_cache_hit_returns_stored_bytes (w : world) :
  (forall emoji b,
     files w !! emoji_file_path self emoji = Some b ->
     get_emoji http self emoji w = (Ok (Some b), w, [EvGetEmoji emoji]))
  /\
  (forall id b,
     files w !! discord_file_path self id = Some b ->
     get_discord_emoji http self id w = (Ok (Some b), w, [EvGetDiscordEmoji id]))
  /\
  (forall emoji b,
     absent (emoji_file_path self emoji) w ->
     result_of (get_emoji http self emoji w) = Ok (Some b) ->
     let w' := world_of (get_emoji http self emoji w) in
     get_emoji http self emoji w' = (Ok (Some b), w', [EvGetEmoji emoji])).
Proof.
  assert (Hhit : forall emoji b w0,
     files w0 !! emoji_file_path self emoji = Some b ->
     get_emoji http self emoji w0 = (Ok (Some b), w0, [EvGetEmoji emoji])).
  { intros emoji b w0 Hf. unfold get_emoji.
    unfold mbind at 1, M_bind, emit. unfold mbind at 1, M_bind.
    rewrite (path_exists_file _ _ _ Hf).
    unfold mbind, M_bind, read_file. rewrite Hf. reflexivity. }
  split; [| split].
  - intros emoji b Hf. apply Hhit, Hf.
  - intros id b Hf. unfold get_discord_emoji.
    unfold mbind at 1, M_bind, emit. unfold mbind at 1, M_bind.
    rewrite (path_exists_file _ _ _ Hf).
    unfold mbind, M_bind, read_file. rewrite Hf. reflexivity.
  - intros emoji b Habs Hres w'. apply Hhit. subst w'.
    revert Hres. rewrite (get_emoji_miss _ _ Habs).
    pose proof (fetch_or_none_stores (emoji_file_path self emoji)
                  (emoji_url self emoji) w b) as Hst.
    destruct (try_except _ _ _ w) as [[r w1] ev1]. exact Hst.
Qed.

(** C10: on a cache miss [get_emoji] requests one URL, and for a fixed
    style it is the same URL whatever the emoji: two emoji that are both
    missing from the on-disk cache are downloaded from the identical
    endpoint, which is a function of the style alone. *)
Theorem cache_miss_url_depends_on_style_only
    (self' : EmojiCDNSource) (w w' : world) (emoji1 emoji2 : string) :
  style self' = style self ->
  absent (emoji_file_path self emoji1) w ->
  absent (emoji_file_path self' emoji2) w' ->
  http_gets (events_of (get_emoji http self emoji1 w))
    = ["https://emojicdn.elk.sh/emoji?style=" +:+ value (style self)]
  /\ http_gets (events_of (get_emoji http self' emoji2 w'))
    = http_gets (events_of (get_emoji http self emoji1 w)).
Proof.
  assert (Hone : forall (src : EmojiCDNSource) emoji w0,
    absent (emoji_file_path src emoji) w0 ->
    http_gets (events_of (get_emoji http src emoji w0))
      = ["https://emojicdn.elk.sh/emoji?style=" +:+ value (style src)]).
  { clear. intros src emoji w0 Habs.
    unfold get_emoji. rewrite bind_run. unfold emit at 1.
    rewrite bind_run. rewrite (path_exists_absent _ _ Habs).
    unfold try_except. rewrite bind_run. unfold download.
    rewrite bind_run. unfold emit at 1. unfold emoji_url.
    destruct (http _) as [sc body | e].
    - destruct ((200 <=? sc) && (sc <? 300)).
      + unfold mret at 1, M_ret. rewrite bind_run. unfold write_file.
        destruct (_ && _); reflexivity.
      + unfold raise. destruct (is_HTTPError _); reflexivity.
    - unfold raise. destruct (is_HTTPError e); reflexivity. }
  intros Hstyle H1 H2. rewrite (Hone self emoji1 w H1), (Hone self' emoji2 w' H2).
  rewrite Hstyle. auto.
Qed.

End DiskCacheProperties.

Section SourceExamples.

Import pilmoji_source.

(** A remote that answers 404, on an empty cache: both functions return
    [None]. *)
Lemma fetch_failure_returns_None_witness :
  get_emoji http_404 apple_source thumbs_up empty_world
    = (Ok None, empty_world,
       [EvGetEmoji thumbs_up; EvHttpGet (emoji_url apple_source thumbs_up)])
  /\ get_discord_emoji http_404 apple_source 596576798351949847 empty_world
    = (Ok None, empty_world,
       [EvGetDiscordEmoji 596576798351949847;
        EvHttpGet (discord_url 596576798351949847)]).
Proof.
  destruct (fetch_failure_returns_None http_404 apple_source empty_world)
    as (Hemoji & Hdiscord & _).
  split.
  - apply Hemoji.
    + split; [reflexivity | apply not_elem_of_empty].
    + apply (fails_status _ _ 404 []); [reflexivity | lia].
  - apply Hdiscord.
    + split; [reflexivity | apply not_elem_of_empty].
    + apply (fails_status _ _ 404 []); [reflexivity | lia].
Defined.

(** A cache that holds the file is read back without a request, and so
    is the file a first call has just fetched. *)
Lemma disk_cache_hit_returns_stored_bytes_witness :
  get_emoji http_404 apple_source thumbs_up warm_world
    = (Ok (Some png_1), warm_world, [EvGetEmoji thumbs_up])
  /\ get_emoji http_png apple_source thumbs_up
       (world_of (get_emoji http_png apple_source thumbs_up fresh_world))
     = (Ok (Some png_1),
        world_of (get_emoji http_png apple_source thumbs_up fresh_world),
        [EvGetEmoji thumbs_up]).
Proof.
  split.
  - destruct (disk_cache_hit_returns_stored_bytes http_404 apple_source warm_world)
      as [Hhit _].
    apply Hhit. vm_compute. reflexivity.
  - destruct (disk_cache_hit_returns_stored_bytes http_png apple_source fresh_world)
      as (_ & _ & Hagain).
    apply Hagain.
    + split; [reflexivity | compute_done].
    + vm_compute. reflexivity.
Defined.

(** Two emoji, one URL. *)
Lemma cache_miss_url_depends_on_style_only_witness :
  http_gets (events_of (get_emoji http_png apple_source thumbs_up fresh_world))
    = ["https://emojicdn.elk.sh/emoji?style=apple"]
  /\ http_gets (events_of (get_emoji http_png apple_source sunglasses fresh_world))
    = http_gets (events_of (get_emoji http_png apple_source thumbs_up fresh_world)).
Proof.
  apply (cache_miss_url_depends_on_style_only http_png apple_source
           apple_source fresh_world fresh_world thumbs_up sunglasses).
  - reflexivity.
  - split; [reflexivity | compute_done].
  - split; [reflexivity | compute_done].
Defined.

End SourceExamples.

(** ** Layout arithmetic *)

Section LayoutArithmetic.



(** On a negative float with a fractional part truncation is one above
    the floor. *)
Lemma to_int_floor_negative m e :
  PyFloat.has_fraction m e = true ->
  exists z, PyFloat.floor (S754_finite true m e) = Ok z
            /\ PyFloat.to_int (S754_finite true m e) = Ok (z + 1).
Proof.
  intros Hfrac. simpl. rewrite Hfrac. eexists. split; [reflexivity |].
  f_equal. lia.
Qed.

(** On integer line heights and font sizes up to 100 the offset is the
    half difference truncated toward zero ([Z.quot], not [Z.div]). *)
Lemma y_diff_on_small_integers :
  forallb (fun line_height =>
             forallb (y_diff_matches_quot line_height) (seqZ 0 101))
          (seqZ 0 101) = true.
Proof. vm_compute. reflexivity. Qed.




End LayoutArithmetic.

(** ** The bitmap adapter *)

Section BitmapAdapter.

Variable Image_open : bytes -> option (Z * Z).

Lemma floor_nonnegative_to_int size n :
  PyFloat.floor size = Ok n -> 0 <= n -> PyFloat.to_int size = Ok n.
Proof.
  destruct size as [s|s| |s m e]; simpl; try discriminate; auto.
  destruct s; [| auto].
  assert (Hq : 0 <= PyFloat.magnitude_quot m e).
  { unfold PyFloat.magnitude_quot. destruct e; try lia.
    apply Z.div_pos; lia. }
  destruct (PyFloat.has_fraction m e); intros [= <-] Hn; f_equal; lia.
Qed.

(** [_resize_emoji] is the adapter with a padding of 2. *)
Lemma _resize_emoji_prepare bytesio size :
  apilmoji._resize_emoji Image_open bytesio size
  = prepare Image_open 2 bytesio size.
Proof.
  unfold apilmoji._resize_emoji, prepare, truncated_height.
  destruct (open_rgba Image_open bytesio) as [im|e]; simpl; [| reflexivity].
  destruct (PyFloat.to_int size) as [n|e]; simpl; [| reflexivity].
  destruct (int_truediv (height im) (width im)) as [a|e]; simpl; reflexivity.
Qed.

(** [_render_emoji] is the adapter with a padding of [EMOJI_PADDING],
    followed by the paste; it returns the width asked for. *)
Lemma _render_emoji_prepare xy bytesio size wd :
  pilmoji._render_emoji Image_open xy bytesio size wd
  = match prepare Image_open pilmoji.EMOJI_PADDING bytesio size with
    | Ok im => (Ok (width im), wd, [EvPaste xy im])
    | Raise e => (Raise e, wd, [])
    end.
Proof.
  unfold pilmoji._render_emoji, prepare, truncated_height, lift,
    mbind, M_bind, result_bind, emit, mret, M_ret.
  destruct (open_rgba Image_open bytesio) as [im|e]; [| reflexivity].
  destruct (PyFloat.to_int size) as [n|e]; [| reflexivity].
  destruct (int_truediv (height im) (width im)) as [a|e]; [| reflexivity].
  destruct (int_of_int_mul_float _ a) as [h|e]; [| reflexivity].
  unfold resize; simpl.
  destruct ((n - pilmoji.EMOJI_PADDING <? 1) || (h <? 1)); reflexivity.
Qed.

(** What the adapter returns when it returns. *)
Lemma prepare_Ok padding bytesio size im :
  prepare Image_open padding bytesio size = Ok im ->
  exists w h n,
    Image_open bytesio = Some (w, h) /\ PyFloat.to_int size = Ok n
    /\ truncated_height (n - padding) h w = Ok (height im)
    /\ width im = n - padding /\ 1 <= width im /\ 1 <= height im
    /\ pixels_of im = bytesio.
Proof.
  unfold prepare, open_rgba.
  destruct (Image_open bytesio) as [[w h]|]; simpl; [| discriminate].
  destruct (PyFloat.to_int size) as [n|e]; simpl; [| discriminate].
  destruct (truncated_height (n - padding) h w) as [h'|e] eqn:Hh; simpl;
    [| discriminate].
  unfold resize; simpl.
  destruct (n - padding <? 1) eqn:H1; destruct (h' <? 1) eqn:H2; simpl;
    try discriminate.
  intros [= <-]. exists w, h, n. simpl.
  apply Z.ltb_ge in H1, H2. repeat split; auto; lia.
Qed.

Lemma prepare_succeeds padding bytesio size w h n h' :
  Image_open bytesio = Some (w, h) ->
  PyFloat.to_int size = Ok n ->
  truncated_height (n - padding) h w = Ok h' ->
  1 <= n - padding -> 1 <= h' ->
  prepare Image_open padding bytesio size
  = Ok (mkImage (n - padding) h' bytesio).
Proof.
  intros Hopen Hn Hh H1 H2. unfold prepare, open_rgba. rewrite Hopen.
  simpl. rewrite Hn. simpl. rewrite Hh. simpl. unfold resize. simpl.
  destruct (n - padding <? 1) eqn:E1; [apply Z.ltb_lt in E1; lia |].
  destruct (h' <? 1) eqn:E2; [apply Z.ltb_lt in E2; lia |]. reflexivity.
Qed.

(** For target widths up to 48 and bitmaps up to 16 x 16 the height is the
    floor of [width * h / w], except that an exact integer may come out one
    lower: a 5 x 7 bitmap at the width 45 gets the height 62, not 63. *)
Lemma truncated_height_on_small_sizes :
  forallb (fun emoji_size =>
             forallb (fun h =>
                        forallb (height_is_floor_or_below emoji_size h)
                                (seqZ 1 16))
                     (seqZ 1 16))
          (seqZ 0 49) = true
  /\ truncated_height 45 7 5 = Ok 62.
Proof. split; vm_compute; reflexivity. Qed.

(** C3 (amended): a bitmap that decodes to [w] by [h] is prepared, for a
    target size [s], to the width [floor(s) - 1] in pilmoji's
    [_render_emoji] and [floor(s) - 2] in apilmoji's [_resize_emoji]; its
    height is [int(width * (h / w))], the product truncated toward
    zero. *)
Theorem prepared_bitmap_size bytesio size (w h n : Z) :
  Image_open bytesio = Some (w, h) ->
  PyFloat.floor size = Ok n ->
  (forall xy wd h',
     truncated_height (n - 1) h w = Ok h' -> 1 <= n - 1 -> 1 <= h' ->
     pilmoji._render_emoji Image_open xy bytesio size wd
     = (Ok (n - 1), wd, [EvPaste xy (mkImage (n - 1) h' bytesio)]))
  /\ (forall h',
     truncated_height (n - 2) h w = Ok h' -> 1 <= n - 2 -> 1 <= h' ->
     apilmoji._resize_emoji Image_open bytesio size
     = Ok (mkImage (n - 2) h' bytesio)).
Proof.
  intros Hopen Hfloor. split.
  - intros xy wd h' Hh H1 H2. rewrite _render_emoji_prepare.
    unfold pilmoji.EMOJI_PADDING.
    rewrite (prepare_succeeds 1 bytesio size w h n h'); auto.
    apply floor_nonnegative_to_int; [assumption | lia].
  - intros h' Hh H1 H2. rewrite _resize_emoji_prepare.
    apply (prepare_succeeds 2 bytesio size w h n h'); auto.
    apply floor_nonnegative_to_int; [assumption | lia].
Qed.

End BitmapAdapter.

(** A 4 x 3 bitmap prepared for the size 6. *)
Lemma prepared_bitmap_size_witness :
  pilmoji._render_emoji decode_example (0, 0) png_1 float_6 empty_world
    = (Ok 5, empty_world, [EvPaste (0, 0) (mkImage 5 3 png_1)])
  /\ apilmoji._resize_emoji decode_example png_1 float_6
    = Ok (mkImage 4 3 png_1).
Proof.
  destruct (prepared_bitmap_size decode_example png_1 float_6 4 3 6)
    as [Hpilmoji Hapilmoji]; [reflexivity | reflexivity |].
  split.
  - apply (Hpilmoji (0, 0) empty_world 3); [reflexivity | lia | lia].
  - apply (Hapilmoji 3); [reflexivity | lia | lia].
Defined.

(** C3, as stated, fails on the height (and, in apilmoji, on the
    padding): a 4 x 3 bitmap prepared for the size 6 comes out 5 x 3 from
    [_render_emoji], although [5 * 3 / 4 = 3.75] rounds to 4, and 4 x 3
    from [_resize_emoji], whose width is [6 - 2]. *)
Lemma prepared_height_is_not_rounded :
  pilmoji._render_emoji decode_example (0, 0) png_1 float_6 empty_world
    = (Ok 5, empty_world, [EvPaste (0, 0) (mkImage 5 3 png_1)])
  /\ PyFloat.floor float_6 = Ok 6
  /\ ~ is_nearest_integer 3 ((6 - 1) * 3) 4
  /\ is_nearest_integer 4 ((6 - 1) * 3) 4
  /\ apilmoji._resize_emoji decode_example png_1 float_6
     = Ok (mkImage 4 3 png_1).
Proof.
  split; [vm_compute; reflexivity |]. split; [reflexivity |].
  unfold is_nearest_integer. split; [lia |]. split; [lia |].
  vm_compute. reflexivity.
Qed.

(** ** The node loop *)

Section NodeLoop.

Variable Image_open : bytes -> option (Z * Z).
Variable int_of_str : string -> result Z.

Lemma _render_text_run xy text font adv wd :
  PyFloat.to_int (getlength font text) = Ok adv ->
  pilmoji._render_text xy text font wd = (Ok adv, wd, [EvDrawText xy text]).
Proof.
  intros Hadv. unfold pilmoji._render_text, mbind, M_bind, emit, lift.
  rewrite Hadv. reflexivity.
Qed.

(** Items whose bitmap is [None] leave their key out of [resized_emjs]. *)
Lemma resize_all_unresolved font_size key items :
  (forall b, (key, Some b) ∉ items) ->
  forall acc resized_emjs,
    apilmoji.resize_all Image_open font_size acc items = Ok resized_emjs ->
    resized_emjs !! key = acc !! key.
Proof.
  induction items as [|[k [b|]] items IH]; intros Hnot acc resized; simpl.
  - intros [= <-]. reflexivity.
  - destruct (apilmoji._resize_emoji Image_open b font_size) as [im|e];
      simpl; [| discriminate].
    intros Hrest. rewrite (IH ltac:(set_solver) _ _ Hrest).
    apply lookup_insert_ne. intros ->. apply (Hnot b). set_solver.
  - apply IH. set_solver.
Qed.

(** C4 (amended): a node whose key resolved to a bitmap is pasted at
    [(cur_x + 1, y + y_diff)] by apilmoji's [text], which then advances
    the cursor by [int(font_size)], two more than the width of the
    bitmap; pilmoji's [text] and [text_with_discord_emoji] paste it at
    [(cur_x, y + y_diff)] and advance by the width of the prepared
    bitmap. *)
Theorem emoji_node_paste_and_advance :
  (forall resized_emjs font font_size y y_diff cur_x node im n wd,
     type node <> TEXT ->
     resized_emjs !! content node = Some im ->
     PyFloat.to_int font_size = Ok n ->
     apilmoji.text_node resized_emjs font font_size y y_diff cur_x node wd
     = (Ok (cur_x + n), wd, [EvPaste (cur_x + 1, y + y_diff) im]))
  /\ (forall bytesio font_size im n,
     apilmoji._resize_emoji Image_open bytesio font_size = Ok im ->
     PyFloat.to_int font_size = Ok n ->
     n = width im + 2)
  /\ (forall emoji_map font font_size y y_diff cur_x node bytesio im wd,
     type node = EMOJI ->
     pilmoji.get_truthy emoji_map (content node) = Some bytesio ->
     prepare Image_open pilmoji.EMOJI_PADDING bytesio font_size = Ok im ->
     pilmoji.text_node Image_open emoji_map font font_size y y_diff
       cur_x node wd
     = (Ok (cur_x + width im), wd, [EvPaste (cur_x, y + y_diff) im]))
  /\ (forall emoji_map discord_map font font_size y y_diff cur_x node id
        bytesio im wd,
     (type node = EMOJI
      /\ pilmoji.get_truthy emoji_map (content node) = Some bytesio)
     \/ (type node = DISCORD_EMOJI
         /\ int_of_str (content node) = Ok id
         /\ pilmoji.get_truthy discord_map id = Some bytesio) ->
     prepare Image_open pilmoji.EMOJI_PADDING bytesio font_size = Ok im ->
     pilmoji.text_with_discord_emoji_node Image_open int_of_str emoji_map
       discord_map font font_size y y_diff cur_x node wd
     = (Ok (cur_x + width im), wd, [EvPaste (cur_x, y + y_diff) im])).
Proof.
  repeat split.
  - intros resized font fs y yd cur_x node im n wd Hty Hres Hn.
    unfold apilmoji.text_node.
    destruct (type node); [congruence | |]; rewrite Hres;
      unfold mbind, M_bind, emit, lift; rewrite Hn; reflexivity.
  - intros bytesio fs im n Hres Hn. rewrite _resize_emoji_prepare in Hres.
    destruct (prepare_Ok _ _ _ _ _ Hres) as (w & h & n' & _ & Hn' & _ & Hw & _).
    rewrite Hn in Hn'. injection Hn' as <-. lia.
  - intros emoji_map font fs y yd cur_x node bytesio im wd Hty Hget Hprep.
    unfold pilmoji.text_node. rewrite Hty, Hget.
    unfold mbind, M_bind. rewrite _render_emoji_prepare, Hprep. reflexivity.
  - intros emoji_map discord_map font fs y yd cur_x node id bytesio im wd
      Hcase Hprep.
    unfold pilmoji.text_with_discord_emoji_node.
    destruct Hcase as [[Hty Hget] | (Hty & Hid & Hget)]; rewrite Hty.
    + unfold mbind at 1, M_bind. unfold mret at 1, M_ret. rewrite Hget.
      unfold mbind, M_bind. rewrite _render_emoji_prepare, Hprep. reflexivity.
    + unfold mbind at 1, M_bind. unfold mbind at 1, M_bind, lift.
      rewrite Hid, Hget. unfold mret at 1, M_ret.
      unfold mbind, M_bind. rewrite _render_emoji_prepare, Hprep. reflexivity.
Qed.

(** C8 (amended): for a custom-emoji node whose id resolved to [None],
    pilmoji's [text_with_discord_emoji] draws ["[:" + content + ":]"],
    where the content of the node is the id of the reference, at the
    cursor, and advances by [int(font.getlength(...))] of that text;
    apilmoji's [text] draws the content of the node itself and advances by
    [int(font.getlength(content))]. *)
Theorem unresolved_custom_emoji_fallback :
  (forall emoji_map discord_map font font_size y y_diff cur_x node id adv wd,
     type node = DISCORD_EMOJI ->
     int_of_str (content node) = Ok id ->
     pilmoji.get_truthy discord_map id = None ->
     PyFloat.to_int (getlength font ("[:" +:+ content node +:+ ":]")) = Ok adv ->
     pilmoji.text_with_discord_emoji_node Image_open int_of_str emoji_map
       discord_map font font_size y y_diff cur_x node wd
     = (Ok (cur_x + adv), wd,
        [EvDrawText (cur_x, y) ("[:" +:+ content node +:+ ":]")]))
  /\ (forall items resized_emjs font font_size y y_diff cur_x node adv wd,
     type node = DISCORD_EMOJI ->
     apilmoji.resize_all Image_open font_size ∅ items = Ok resized_emjs ->
     (forall b, (content node, Some b) ∉ items) ->
     PyFloat.to_int (getlength font (content node)) = Ok adv ->
     apilmoji.text_node resized_emjs font font_size y y_diff cur_x node wd
     = (Ok (cur_x + adv), wd, [EvDrawText (cur_x, y) (content node)])).
Proof.
  split.
  - intros emoji_map discord_map font fs y yd cur_x node id adv wd
      Hty Hid Hget Hadv.
    unfold pilmoji.text_with_discord_emoji_node. rewrite Hty.
    unfold mbind at 1, M_bind. unfold mbind at 1, M_bind, lift.
    rewrite Hid, Hget. unfold mret at 1, M_ret.
    unfold mbind, M_bind. rewrite (_render_text_run _ _ _ adv); auto.
  - intros items resized font fs y yd cur_x node adv wd Hty Hres Hnot Hadv.
    unfold apilmoji.text_node. rewrite Hty.
    rewrite (resize_all_unresolved _ _ _ Hnot _ _ Hres), lookup_empty.
    unfold mbind, M_bind, emit, lift. rewrite Hadv. reflexivity.
Qed.

End NodeLoop.

Section NodeLoopExamples.

(** A resolved node at the cursor 10 of a line at [y = 0], with the
    size 16 and the offset 2. *)
Lemma emoji_node_paste_and_advance_witness :
  apilmoji.text_node {[ thumbs_up := mkImage 14 14 png_2 ]} example_font
    float_16 0 2 10 thumbs_node empty_world
    = (Ok (10 + 16), empty_world, [EvPaste (10 + 1, 0 + 2) (mkImage 14 14 png_2)])
  /\ 16 = width (mkImage 14 14 png_2) + 2
  /\ pilmoji.text_node decode_example {[ thumbs_up := Some png_2 ]}
       example_font float_16 0 2 10 thumbs_node empty_world
     = (Ok (10 + width (mkImage 15 15 png_2)), empty_world,
        [EvPaste (10, 0 + 2) (mkImage 15 15 png_2)])
  /\ pilmoji.text_with_discord_emoji_node decode_example decimal_int ∅
       {[ 596576798351949847 := Some png_2 ]} example_font float_16 0 2 10
       smile_node empty_world
     = (Ok (10 + width (mkImage 15 15 png_2)), empty_world,
        [EvPaste (10, 0 + 2) (mkImage 15 15 png_2)]).
Proof.
  destruct (emoji_node_paste_and_advance decode_example decimal_int)
    as (Hapilmoji & Hwidth & Hpilmoji & Hdiscord).
  split; [| split; [| split]].
  - apply Hapilmoji; [discriminate | reflexivity | reflexivity].
  - apply (Hwidth png_2 float_16); reflexivity.
  - apply (Hpilmoji _ _ _ _ _ _ _ png_2); reflexivity.
  - apply (Hdiscord _ _ _ _ _ _ _ _ 596576798351949847 png_2);
      [right; repeat split; reflexivity | reflexivity].
Defined.

(** C4, as stated, fails in each renderer on one half: apilmoji pastes a
    bitmap 14 wide at [cur_x + 1] and moves the cursor by 16, the font
    size; pilmoji moves the cursor by the width, 15, and pastes at
    [cur_x], not [cur_x + 1]. *)
Lemma emoji_advance_or_offset_differs :
  apilmoji.resize_all decode_example float_16 ∅ [(thumbs_up, Some png_2)]
    = Ok {[ thumbs_up := mkImage 14 14 png_2 ]}
  /\ apilmoji.text_node {[ thumbs_up := mkImage 14 14 png_2 ]} example_font
       float_16 0 2 10 thumbs_node empty_world
     = (Ok 26, empty_world, [EvPaste (11, 2) (mkImage 14 14 png_2)])
  /\ 26 <> 10 + width (mkImage 14 14 png_2)
  /\ pilmoji.text_node decode_example {[ thumbs_up := Some png_2 ]}
       example_font float_16 0 2 10 thumbs_node empty_world
     = (Ok 25, empty_world, [EvPaste (10, 2) (mkImage 15 15 png_2)])
  /\ (10, 2) <> (10 + 1, 0 + 2).
Proof.
  split; [vm_compute; reflexivity |]. split; [vm_compute; reflexivity |].
  split; [simpl; lia |]. split; [vm_compute; reflexivity |].
  intros [= ?].
Qed.

(** An unresolved custom emoji at the cursor 10, in a font 7.5 wide per
    character. *)
Lemma unresolved_custom_emoji_fallback_witness :
  pilmoji.text_with_discord_emoji_node decode_example decimal_int ∅ ∅
    example_font float_16 0 2 10 smile_node empty_world
    = (Ok (10 + 165), empty_world,
       [EvDrawText (10, 0) ("[:" +:+ smile_id +:+ ":]")])
  /\ apilmoji.text_node ∅ example_font float_16 0 2 10 smile_node empty_world
     = (Ok (10 + 135), empty_world, [EvDrawText (10, 0) smile_id]).
Proof.
  destruct (unresolved_custom_emoji_fallback decode_example decimal_int)
    as [Hpilmoji Hapilmoji].
  split.
  - apply (Hpilmoji ∅ ∅ example_font float_16 0 2 10 smile_node
             596576798351949847 165 empty_world); reflexivity.
  - apply (Hapilmoji [(smile_id, None)] ∅ example_font float_16 0 2 10
             smile_node 135 empty_world); try reflexivity.
    intros b Hin. apply list_elem_of_singleton in Hin. discriminate Hin.
Defined.

(** C8, as stated, fails on the text: the node of the reference
    [<:smile:596576798351949847>] carries the id, so pilmoji's fallback
    is ["[:596576798351949847:]"] and not ["[:smile:]"], and apilmoji
    draws the bare id, with no brackets; a node that carried the name
    would stop pilmoji at [int(node.content)]. *)
Lemma custom_emoji_fallback_is_not_the_name :
  Tokenizer.tokenize [] true smile_ref = [smile_node]
  /\ Tokenizer.custom_ref_at smile_ref
     = Some (Tokenizer.mkRef "smile" smile_id 27)
  /\ pilmoji.text_with_discord_emoji_node decode_example decimal_int ∅ ∅
       example_font float_16 0 2 10 smile_node empty_world
     = (Ok 175, empty_world, [EvDrawText (10, 0) "[:596576798351949847:]"])
  /\ "[:596576798351949847:]" <> "[:smile:]"
  /\ apilmoji.text_node ∅ example_font float_16 0 2 10 smile_node empty_world
     = (Ok 145, empty_world, [EvDrawText (10, 0) "596576798351949847"])
  /\ "596576798351949847" <> "[:smile:]"
  /\ pilmoji.text_with_discord_emoji_node decode_example decimal_int ∅ ∅
       example_font float_16 0 2 10 (mkNode DISCORD_EMOJI "smile") empty_world
     = (Raise ValueError, empty_world, []).
Proof.
  split; [vm_compute; reflexivity |]. split; [vm_compute; reflexivity |].
  split; [vm_compute; reflexivity |]. split; [discriminate |].
  split; [vm_compute; reflexivity |]. split; [discriminate |].
  vm_compute. reflexivity.
Qed.

End NodeLoopExamples.

(** ** The tokenizer *)

Section TokenizerProperties.

Import Tokenizer.

Variable registry : list string.

Lemma starts_with_drop p s :
  starts_with p s = true -> s = p +:+ string_drop (String.length p) s.
Proof.
  revert s. induction p as [|a p IH]; intros s; simpl; [reflexivity |].
  destruct s as [|b s]; [discriminate |].
  destruct (Ascii.eqb a b) eqn:Hab; [| discriminate].
  apply Ascii.eqb_eq in Hab as ->. intros Hp.
  change (String b s = String b (p +:+ string_drop (String.length p) s)).
  f_equal. apply IH, Hp.
Qed.

(** What [emoji_at] finds is a non-empty prefix of the line. *)
Lemma emoji_at_prefix s e :
  emoji_at registry s = Some e -> starts_with e s = true /\ e <> EmptyString.
Proof.
  unfold emoji_at. revert e.
  induction registry as [|x l IH]; intros e; simpl; [discriminate |].
  destruct (starts_with x s && negb (String.eqb x EmptyString)) eqn:Hx; [| apply IH].
  apply andb_true_iff in Hx as [Hpre Hne].
  apply negb_true_iff, String.eqb_neq in Hne.
  destruct (foldr _ None l) as [b|] eqn:Hbest.
  - destruct (String.length b <? String.length x)%nat.
    + intros [= <-]. auto.
    + intros [= <-]. apply IH. reflexivity.
  - intros [= <-]. auto.
Qed.

Lemma concat_contents_push_char c nodes :
  concat_contents (push_char c nodes) = String c (concat_contents nodes).
Proof. destruct nodes as [|[[] run] rest]; reflexivity. Qed.

(** With the custom-emoji match off, a match is a Unicode emoji that
    heads the line, and the line is that emoji followed by the rest. *)
Lemma match_at_false c s' node n :
  match_at registry false (String c s') = Some (node, n) ->
  String c s' = content node +:+ string_drop (Nat.pred n) s'.
Proof.
  unfold match_at.
  destruct (emoji_at registry (String c s')) as [e|] eqn:He; [| discriminate].
  intros [= <- <-]. simpl.
  destruct (emoji_at_prefix _ _ He) as [Hpre Hne].
  destruct e as [|a e]; [congruence |].
  rewrite (starts_with_drop _ _ Hpre) at 1. reflexivity.
Qed.

Lemma tokenize_false_roundtrip d line :
  d = false -> concat_contents (tokenize registry d line) = line.
Proof.
  funelim (tokenize registry d line); intros ->; simp tokenize.
  - reflexivity.
  - simpl. rewrite H by reflexivity.
    symmetry. apply (match_at_false _ _ _ _ Heq).
  - rewrite concat_contents_push_char, H by reflexivity. reflexivity.
Qed.

Lemma string_length_app s t :
  String.length (s +:+ t) = (String.length s + String.length t)%nat.
Proof.
  induction s as [|a s IH]; [reflexivity |].
  rewrite string_app_cons. simpl. rewrite IH. reflexivity.
Qed.

Lemma string_app_assoc a b c : (a +:+ b) +:+ c = a +:+ (b +:+ c).
Proof.
  induction a as [|x a IH]; [reflexivity |].
  rewrite !string_app_cons, IH. reflexivity.
Qed.

Lemma string_drop_app p r : string_drop (String.length p) (p +:+ r) = r.
Proof.
  induction p as [|a p IH]; [reflexivity |].
  rewrite string_app_cons. simpl. exact IH.
Qed.

Lemma string_drop_add a b s :
  string_drop (a + b) s = string_drop b (string_drop a s).
Proof.
  revert s. induction a as [|a IH]; intros s; [reflexivity |].
  destruct s as [|c s]; simpl.
  - destruct b; reflexivity.
  - apply IH.
Qed.

Lemma span_app p s run rest : span p s = (run, rest) -> s = run +:+ rest.
Proof.
  revert run rest. induction s as [|c s IH]; intros run rest; simpl.
  - intros [= <- <-]. reflexivity.
  - destruct (p c).
    + destruct (span p s) as [run' rest'] eqn:Hs. intros [= <- <-].
      rewrite string_app_cons. f_equal. apply IH. reflexivity.
    + intros [= <- <-]. reflexivity.
Qed.

(** A reference that is found heads the line: the line is
    [<:name:id>] followed by what is left after its length. *)
Lemma custom_ref_at_span s r :
  custom_ref_at s = Some r ->
  s = ("<:" +:+ ref_name r +:+ ":" +:+ ref_id r +:+ ">")
        +:+ string_drop (ref_length r) s
  /\ (1 <= ref_length r)%nat.
Proof.
  unfold custom_ref_at.
  destruct (starts_with "<:" s) eqn:Hhead; [| discriminate].
  apply starts_with_drop in Hhead. simpl String.length in Hhead.
  destruct (span is_name_char (string_drop 2 s)) as [name after_name] eqn:Hname.
  apply span_app in Hname.
  destruct name as [|n0 name]; [discriminate |].
  destruct after_name as [|c after_colon]; [discriminate |].
  destruct (Ascii.eqb c ":") eqn:Hc;
    [apply Ascii.eqb_eq in Hc as -> |
     destruct c as [[] [] [] [] [] [] [] []]; try discriminate Hc;
     discriminate].
  destruct (span is_digit after_colon) as [id after_id] eqn:Hid.
  apply span_app in Hid.
  destruct id as [|i0 id]; [discriminate |].
  destruct after_id as [|g after_id]; [discriminate |].
  destruct (Ascii.eqb g ">") eqn:Hg;
    [apply Ascii.eqb_eq in Hg as -> |
     destruct g as [[] [] [] [] [] [] [] []]; try discriminate Hg;
     discriminate].
  intros [= <-]. simpl ref_name. simpl ref_id. simpl ref_length.
  split; [| lia].
  assert (Hs : s = "<:" +:+ (String n0 name +:+ (":" +:+ (String i0 id
                 +:+ (">" +:+ after_id))))).
  { rewrite Hhead at 1. f_equal. rewrite Hname. f_equal.
    change (String ":" after_colon) with (":" +:+ after_colon).
    f_equal. exact Hid. }
  assert (Hdrop : string_drop
                    (S (String.length name + S (String.length id) + 4)) s
                  = after_id).
  { rewrite Hs at 1.
    replace (S (String.length name + S (String.length id) + 4))
      with (2 + (String.length (String n0 name)
                 + (1 + (String.length (String i0 id) + 1))))%nat
      by (simpl; lia).
    rewrite string_drop_add.
    change (string_drop 2 ("<:" +:+ ?x)) with x.
    rewrite string_drop_add, string_drop_app.
    rewrite string_drop_add.
    change (string_drop 1 (":" +:+ ?x)) with x.
    rewrite string_drop_add, string_drop_app. reflexivity. }
  rewrite Hdrop. rewrite Hs at 1.
  rewrite !string_app_assoc. reflexivity.
Qed.


Lemma string_drop_succ n c s : string_drop (S n) (String c s) = string_drop n s.
Proof. reflexivity. Qed.

(** What is matched at the head of a line is the span of the node, and
    the scan goes on right after it. *)
Lemma match_at_span d c s' node n :
  match_at registry d (String c s') = Some (node, n) ->
  exists sp,
    node_span node sp
    /\ String c s' = sp +:+ string_drop (Nat.pred n) s'
    /\ (String.length (content node) <= String.length sp)%nat
    /\ (type node = DISCORD_EMOJI ->
        (String.length (content node) < String.length sp)%nat).
Proof.
  unfold match_at.
  destruct (if d then custom_ref_at (String c s') else None) as [r|] eqn:Hr.
  - intros [= <- <-].
    destruct d; [| discriminate Hr].
    destruct (custom_ref_at_span _ _ Hr) as [Hs Hlen].
    exists ("<:" +:+ ref_name r +:+ ":" +:+ ref_id r +:+ ">").
    split; [exists (ref_name r); reflexivity |]. split.
    + destruct (ref_length r) as [|m]; [lia |]. exact Hs.
    + simpl content. rewrite !string_length_app. simpl. split; [lia |].
      intros _. lia.
  - destruct (emoji_at registry (String c s')) as [e|] eqn:He; [| discriminate].
    intros [= <- <-]. simpl.
    destruct (emoji_at_prefix _ _ He) as [Hpre Hne].
    destruct e as [|a e]; [congruence |].
    exists (String a e). split; [reflexivity |]. split.
    + rewrite (starts_with_drop _ _ Hpre) at 1. reflexivity.
    + split; [lia | discriminate].
Qed.

Lemma push_char_spans c nodes spans :
  Forall2 node_span nodes spans ->
  exists spans',
    Forall2 node_span (push_char c nodes) spans'
    /\ concat_strings spans' = String c (concat_strings spans)
    /\ (String.length (concat_contents (push_char c nodes))
        = S (String.length (concat_contents nodes)))%nat.
Proof.
  intros Hspans.
  destruct Hspans as [| [[] run] sp nodes spans Hnode Hrest]; simpl.
  - exists [String c EmptyString]. repeat split.
    repeat constructor.
  - exists (String c run :: spans). unfold node_span in Hnode.
    simpl in Hnode. subst sp. repeat split.
    constructor; [reflexivity | exact Hrest].
  - exists (String c EmptyString :: sp :: spans). repeat split.
    constructor; [reflexivity |]. constructor; assumption.
  - exists (String c EmptyString :: sp :: spans). repeat split.
    constructor; [reflexivity |]. constructor; assumption.
Qed.

(** Every line is the concatenation of the spans of its nodes. *)
Lemma tokenize_spans d line :
  exists spans,
    Forall2 node_span (tokenize registry d line) spans
    /\ concat_strings spans = line.
Proof.
  funelim (tokenize registry d line); simp tokenize.
  - exists []. split; [constructor | reflexivity].
  - destruct H as (spans & Hspans & Hline).
    destruct (match_at_span _ _ _ _ _ Heq) as (sp & Hnode & Hs & _).
    exists (sp :: spans). split; [constructor; assumption |].
    simpl. rewrite Hline. symmetry. exact Hs.
  - destruct H as (spans & Hspans & Hline).
    destruct (push_char_spans c _ _ Hspans) as (spans' & Hspans' & Hcat & _).
    exists spans'. split; [exact Hspans' |]. rewrite Hcat, Hline. reflexivity.
Qed.

Lemma no_custom_ref_drop n line :
  no_custom_ref line -> no_custom_ref (string_drop n line).
Proof.
  intros Hline m. rewrite <- string_drop_add. apply Hline.
Qed.

(** With the detection on, a line in which no reference starts is given
    back by the concatenation. *)
Lemma tokenize_no_custom_ref_roundtrip d line :
  no_custom_ref line -> concat_contents (tokenize registry d line) = line.
Proof.
  funelim (tokenize registry d line); intros Hline; simp tokenize.
  - reflexivity.
  - simpl.
    assert (Hrest : no_custom_ref (string_drop (Nat.pred n) s')).
    { intros m. rewrite <- string_drop_add.
      rewrite <- (string_drop_succ _ c s'). apply Hline. }
    rewrite (H Hrest).
    assert (Hoff : match_at registry false (String c s') = Some (node, n)).
    { revert Heq. unfold match_at.
      pose proof (Hline 0%nat) as Hhead. simpl in Hhead. rewrite Hhead.
      destruct d; intros Hm; exact Hm. }
    symmetry. apply (match_at_false _ _ _ _ Hoff).
  - rewrite concat_contents_push_char.
    assert (Hrest : no_custom_ref s').
    { intros m. rewrite <- (string_drop_succ _ c s'). apply Hline. }
    rewrite (H Hrest). reflexivity.
Qed.

Lemma concat_contents_cons node nodes :
  concat_contents (node :: nodes) = content node +:+ concat_contents nodes.
Proof. reflexivity. Qed.

(** The concatenation is never longer than the line, and shorter when
    some node is a custom-emoji node. *)
Lemma tokenize_length d line :
  (String.length (concat_contents (tokenize registry d line))
   <= String.length line)%nat
  /\ ((exists node,
         node ∈ tokenize registry d line /\ type node = DISCORD_EMOJI) ->
      (String.length (concat_contents (tokenize registry d line))
       < String.length line)%nat).
Proof.
  funelim (tokenize registry d line); simp tokenize.
  - split; [reflexivity |]. intros (node & Hin & _).
    apply elem_of_nil in Hin as [].
  - destruct H as [Hle Hlt].
    destruct (match_at_span _ _ _ _ _ Heq) as (sp & _ & Hs & Hlen & Hstrict).
    rewrite concat_contents_cons, string_length_app.
    apply (f_equal String.length) in Hs. rewrite string_length_app in Hs.
    split; [lia |]. intros (node' & Hin & Htype).
    apply elem_of_cons in Hin as [-> | Hin].
    + specialize (Hstrict Htype). lia.
    + assert (Hrest := Hlt (ex_intro _ node' (conj Hin Htype))). lia.
  - destruct H as [Hle Hlt].
    rewrite concat_contents_push_char. simpl String.length.
    split; [lia |]. intros (node' & Hin & Htype).
    assert (Hin' : node' ∈ tokenize registry d s').
    { revert Hin Htype. unfold push_char.
      destruct (tokenize registry d s') as [|[[] run] rest]; intros Hin Htype.
      - apply list_elem_of_singleton in Hin. subst node'. discriminate Htype.
      - apply elem_of_cons in Hin as [-> | Hin]; [discriminate Htype |].
        right. exact Hin.
      - apply elem_of_cons in Hin as [-> | Hin]; [discriminate Htype |].
        exact Hin.
      - apply elem_of_cons in Hin as [-> | Hin]; [discriminate Htype |].
        exact Hin. }
    assert (Hrest := Hlt (ex_intro _ node' (conj Hin' Htype))). lia.
Qed.


(** C7 (amended): with the custom-emoji detection off, concatenating
    the content of the nodes of [tokenize] gives the line back, for every
    line and every registry; the empty line has no node, with the
    detection on or off.  With the detection on or off the line is the
    concatenation of the spans of its nodes, where a custom-emoji
    reference [<:name:id>] is the span of a node whose content is the id
    alone; so with the detection on the concatenation of the contents
    gives back every line in which no reference starts, and no line in
    which a reference is found. *)
Theorem tokenize_roundtrip_up_to_custom_references (line : string) :
  concat_contents (tokenize registry false line) = line
  /\ (forall detect_custom_emoji,
        tokenize registry detect_custom_emoji EmptyString = [])
  /\ (forall detect_custom_emoji,
        exists spans,
          Forall2 node_span (tokenize registry detect_custom_emoji line) spans
          /\ concat_strings spans = line)
  /\ (no_custom_ref line ->
      concat_contents (tokenize registry true line) = line)
  /\ ((exists node,
         node ∈ tokenize registry true line /\ type node = DISCORD_EMOJI) ->
      concat_contents (tokenize registry true line) <> line).
Proof.
  split; [apply tokenize_false_roundtrip; reflexivity |].
  split; [intros d; simp tokenize; reflexivity |].
  split; [intros d; apply tokenize_spans |].
  split; [apply tokenize_no_custom_ref_roundtrip |].
  intros Hnode Heq.
  destruct (tokenize_length true line) as [_ Hlt].
  specialize (Hlt Hnode). rewrite Heq in Hlt. lia.
Qed.

End TokenizerProperties.

(** C7, as stated, fails on a custom-emoji reference: its node carries
    the id alone, so the concatenation of
    [<:smile:596576798351949847>] is [596576798351949847]. *)
Lemma tokenize_roundtrip_loses_custom_reference :
  Tokenizer.tokenize [] true smile_ref = [smile_node]
  /\ Tokenizer.concat_contents (Tokenizer.tokenize [] true smile_ref) = smile_id
  /\ smile_id <> smile_ref.
Proof.
  split; [vm_compute; reflexivity |]. split; [vm_compute; reflexivity |].
  discriminate.
Qed.

(** ** What the computations log *)

Section Emits.

Context {A B : Type} (P : event -> Prop).

Lemma emits_mret (a : A) : emits P (mret a).
Proof. intros w. constructor. Qed.

Lemma emits_raise e : emits P (raise (A := A) e).
Proof. intros w. constructor. Qed.

Lemma emits_lift (r : result A) : emits P (lift r).
Proof. intros w. constructor. Qed.

Lemma emits_emit ev : P ev -> emits P (emit ev).
Proof. intros Hev w. repeat constructor. exact Hev. Qed.

Lemma emits_bind (m : M A) (f : A -> M B) :
  emits P m -> (forall a, emits P (f a)) -> emits P (m ≫= f).
Proof.
  intros Hm Hf w. rewrite bind_run. specialize (Hm w).
  destruct (m w) as [[[a|e] w1] ev1]; [| exact Hm].
  specialize (Hf a w1). destruct (f a w1) as [[r w2] ev2].
  unfold events_of in *; simpl in *. apply Forall_app; auto.
Qed.

Lemma emits_try_except (body handler : M A) catches :
  emits P body -> emits P handler -> emits P (try_except body catches handler).
Proof.
  intros Hb Hh w. unfold try_except. specialize (Hb w).
  destruct (body w) as [[[a|e] w1] ev1]; [exact Hb |].
  destruct (catches e); [| exact Hb].
  specialize (Hh w1). destruct (handler w1) as [[r w2] ev2].
  unfold events_of in *; simpl in *. apply Forall_app; auto.
Qed.

Lemma emits_gather (tasks : list (M A)) :
  Forall (emits P) tasks -> emits P (gather tasks).
Proof.
  induction 1 as [|task rest Htask _ IH]; intros w; simpl; [constructor |].
  specialize (Htask w). destruct (task w) as [[r w1] ev1].
  specialize (IH w1). destruct (gather rest w1) as [[rs w2] ev2].
  unfold events_of in *; simpl in *. apply Forall_app; auto.
Qed.

End Emits.

Lemma emits_for_nodes P body cur_x line :
  (forall x node, emits P (body x node)) -> emits P (for_nodes body cur_x line).
Proof.
  intros Hbody. revert cur_x.
  induction line as [|node rest IH]; intros cur_x; simpl.
  - apply emits_mret.
  - apply emits_bind; auto.
Qed.

Lemma emits_for_lines {L} P (body : Z -> L -> M unit) line_height y lines :
  (forall y line, emits P (body y line)) ->
  emits P (for_lines body line_height y lines).
Proof.
  intros Hbody. revert y.
  induction lines as [|line rest IH]; intros y; simpl.
  - apply emits_mret.
  - apply emits_bind; auto.
Qed.

Lemma emits_path_exists P p : emits P (path_exists p).
Proof. intros w. constructor. Qed.

Lemma emits_read_file P p : emits P (read_file p).
Proof. intros w. unfold read_file. destruct (files w !! p); constructor. Qed.

Lemma emits_write_file P p b : emits P (write_file p b).
Proof. intros w. unfold write_file. destruct (_ && _); constructor. Qed.

Create HintDb emits.

#[local] Hint Resolve emits_mret emits_raise emits_lift emits_emit emits_bind
  emits_try_except emits_for_nodes emits_for_lines emits_path_exists
  emits_read_file emits_write_file : emits.

Section EmitsSource.

Import pilmoji_source.

Variable http : string -> http_reply.
Variable self : EmojiCDNSource.
Variable P : event -> Prop.
Hypothesis P_get : forall k, P (EvGetEmoji k).
Hypothesis P_get_discord : forall id, P (EvGetDiscordEmoji id).
Hypothesis P_http : forall url, P (EvHttpGet url).

Lemma emits_download url : emits P (download http url).
Proof.
  unfold download. apply emits_bind; [auto with emits |]. intros _.
  destruct (http url) as [sc body|e]; [| auto with emits].
  destruct (_ && _); auto with emits.
Qed.

Lemma emits_get_emoji emoji : emits P (get_emoji http self emoji).
Proof.
  unfold get_emoji. apply emits_bind; [auto with emits |]. intros _.
  apply emits_bind; [auto with emits |]. intros [|].
  - auto with emits.
  - apply emits_try_except; [| auto with emits].
    apply emits_bind; [apply emits_download |]. auto with emits.
Qed.

Lemma emits_get_discord_emoji id : emits P (get_discord_emoji http self id).
Proof.
  unfold get_discord_emoji. apply emits_bind; [auto with emits |]. intros _.
  apply emits_bind; [auto with emits |]. intros [|].
  - auto with emits.
  - apply emits_try_except; [| auto with emits].
    apply emits_bind; [apply emits_download |]. auto with emits.
Qed.

End EmitsSource.

Lemma resolve_then_draw_bind {A B} (m : M A) (f : A -> M B) w :
  emits not_draw m -> (forall a, emits only_draw (f a)) ->
  resolve_then_draw (events_of ((m ≫= f) w)).
Proof.
  intros Hm Hf. rewrite bind_run. specialize (Hm w).
  destruct (m w) as [[[a|e] w1] ev1].
  - specialize (Hf a w1). destruct (f a w1) as [[r w2] ev2].
    exists ev1, ev2. auto.
  - exists ev1, []. rewrite app_nil_r. auto.
Qed.

Lemma resolve_then_draw_only_draw evs :
  Forall only_draw evs -> resolve_then_draw evs.
Proof. intros H. exists [], evs. auto. Qed.

Lemma resolve_then_draw_prefix {A B} (m : M A) (f : A -> M B) w :
  emits not_draw m ->
  (forall a w1, resolve_then_draw (events_of (f a w1))) ->
  resolve_then_draw (events_of ((m ≫= f) w)).
Proof.
  intros Hm Hf. rewrite bind_run. specialize (Hm w).
  destruct (m w) as [[[a|e] w1] ev1].
  - specialize (Hf a w1). destruct (f a w1) as [[r w2] ev2].
    destruct Hf as (pre & post & Heq & Hpre & Hpost).
    unfold events_of in *; simpl in *. subst ev2.
    exists (ev1 ++ pre), post. rewrite app_assoc.
    split; [reflexivity |]. split; [apply Forall_app; auto | exact Hpost].
  - exists ev1, []. rewrite app_nil_r. auto.
Qed.

Section EmitsPilmoji.

Import pilmoji_source.

Variable http : string -> http_reply.
Variable _source : EmojiCDNSource.
Variable _cache : bool.
Variable Image_open : bytes -> option (Z * Z).
Variable int_of_str : string -> result Z.

Lemma emits__get_emoji P emoji :
  (forall k, P (EvGetEmoji k)) -> (forall url, P (EvHttpGet url)) ->
  emits P (pilmoji._get_emoji http _source _cache emoji).
Proof.
  intros Hget Hhttp w. unfold pilmoji._get_emoji.
  destruct (if _cache then _emoji_cache w !! emoji else None);
    [constructor |].
  revert w. apply emits_bind.
  - apply emits_get_emoji; auto.
  - intros [b|]; [| auto with emits].
    apply emits_bind; [| auto with emits].
    destruct _cache; [| auto with emits]. intros w. constructor.
Qed.

Lemma emits__get_discord_emoji P id :
  (forall k, P (EvGetDiscordEmoji k)) -> (forall url, P (EvHttpGet url)) ->
  emits P (pilmoji._get_discord_emoji http _source _cache id).
Proof.
  intros Hget Hhttp w. unfold pilmoji._get_discord_emoji.
  destruct (if _cache then _discord_emoji_cache w !! id else None);
    [constructor |].
  revert w. apply emits_bind.
  - apply emits_get_discord_emoji; auto.
  - intros [b|]; [| auto with emits].
    apply emits_bind; [| auto with emits].
    destruct _cache; [| auto with emits]. intros w. constructor.
Qed.

Lemma emits__render_text xy text font :
  emits only_draw (pilmoji._render_text xy text font).
Proof.
  unfold pilmoji._render_text. apply emits_bind; auto with emits.
  apply emits_emit. reflexivity.
Qed.

Lemma emits__render_emoji xy bytesio size :
  emits only_draw (pilmoji._render_emoji Image_open xy bytesio size).
Proof.
  intros w. rewrite _render_emoji_prepare.
  destruct (prepare _ _ _ _); repeat constructor.
Qed.

Lemma emits_text_node emoji_map font font_size y y_diff cur_x node :
  emits only_draw
    (pilmoji.text_node Image_open emoji_map font font_size y y_diff cur_x node).
Proof.
  unfold pilmoji.text_node.
  destruct (type node);
    [| destruct (pilmoji.get_truthy emoji_map (content node)) |];
    apply emits_bind;
    auto using emits__render_text, emits__render_emoji with emits.
Qed.

Lemma emits_text_with_discord_emoji_node emoji_map discord_map font font_size
    y y_diff cur_x node :
  emits only_draw
    (pilmoji.text_with_discord_emoji_node Image_open int_of_str emoji_map
       discord_map font font_size y y_diff cur_x node).
Proof.
  unfold pilmoji.text_with_discord_emoji_node. apply emits_bind.
  - destruct (type node); auto with emits.
    apply emits_bind; [auto with emits |]. intros id.
    destruct (pilmoji.get_truthy discord_map id); auto with emits.
  - intros [[stream|] fallback]; apply emits_bind;
      auto using emits__render_text, emits__render_emoji with emits.
Qed.

End EmitsPilmoji.

Section EmitsApilmoji.

Lemma emits_apilmoji_text_node resized_emjs font font_size y y_diff cur_x node :
  emits only_draw
    (apilmoji.text_node resized_emjs font font_size y y_diff cur_x node).
Proof.
  unfold apilmoji.text_node.
  destruct (match type node with TEXT => None | _ => _ end);
    (apply emits_bind; [apply emits_emit; reflexivity | auto with emits]).
Qed.

End EmitsApilmoji.

(** ** Resolution and preparation before drawing *)

Section PrepareBeforeDraw.

Variable contains_emoji : list string -> bool -> bool.
Variable parse_lines : list string -> bool -> list (list Node).
Variable get_font_height : FontT -> Z.
Variable get_font_size : FontT -> spec_float.
Variable fetch_emojis :
  gset string -> gset string -> result (list (string * option bytes)).
Variable Image_open : bytes -> option (Z * Z).

Lemma _resize_emoji_undecodable bytesio size :
  Image_open bytesio = None ->
  apilmoji._resize_emoji Image_open bytesio size = Raise UnidentifiedImageError.
Proof.
  intros Hopen. unfold apilmoji._resize_emoji, open_rgba. rewrite Hopen.
  reflexivity.
Qed.

Lemma resize_all_undecodable font_size key bytesio items :
  (key, Some bytesio) ∈ items ->
  Image_open bytesio = None ->
  forall acc, exists e,
    apilmoji.resize_all Image_open font_size acc items = Raise e
    /\ (Forall (decodes_or_prepares Image_open font_size) items ->
        e = UnidentifiedImageError).
Proof.
  intros Hin Hopen.
  induction items as [|[k [b|]] items IH]; intros acc; simpl.
  - apply elem_of_nil in Hin. contradiction.
  - destruct (apilmoji._resize_emoji Image_open b font_size) as [im|e] eqn:Hb;
      simpl.
    + apply elem_of_cons in Hin as [[= -> ->] | Hin].
      * rewrite (_resize_emoji_undecodable _ _ Hopen) in Hb. discriminate Hb.
      * destruct (IH Hin (<[k := im]> acc)) as (e & He & Hkind).
        exists e. split; [exact He |]. intros Hall. apply Hkind.
        apply Forall_cons in Hall as [_ Hall]. exact Hall.
    + exists e. split; [reflexivity |]. intros Hall.
      apply Forall_cons in Hall as [Hhead _].
      destruct (Hhead b eq_refl) as [Hnone | Hok].
      * rewrite (_resize_emoji_undecodable _ _ Hnone) in Hb. congruence.
      * rewrite Hb in Hok. discriminate Hok.
  - apply elem_of_cons in Hin as [[= _ ?] | Hin].
    destruct (IH Hin acc) as (e & He & Hkind).
    exists e. split; [exact He |]. intros Hall. apply Hkind.
    apply Forall_cons in Hall as [_ Hall]. exact Hall.
Qed.

Lemma apilmoji_text_resolve_then_draw xy lines font line_height support_ds_emj w :
  resolve_then_draw
    (events_of
       (apilmoji.text contains_emoji parse_lines get_font_height get_font_size
          fetch_emojis Image_open xy lines font line_height support_ds_emj w)).
Proof.
  unfold apilmoji.text. destruct lines as [|l0 lines].
  - exists [], []. auto.
  - destruct (negb (contains_emoji (l0 :: lines) support_ds_emj)).
    + apply resolve_then_draw_only_draw. apply emits_for_lines.
      intros y line. apply emits_emit. reflexivity.
    + apply resolve_then_draw_bind.
      * apply emits_emit. reflexivity.
      * intros _. repeat (apply emits_bind; [auto with emits |]; intros ?).
        apply emits_for_lines. intros y line.
        apply emits_bind; [| auto with emits].
        apply emits_for_nodes. intros x node.
        apply emits_apilmoji_text_node.
Qed.

(** [text] on lines that hold an emoji: the resolver is called, the
    offset computed, the bitmaps prepared, and then the lines drawn. *)
Lemma apilmoji_text_emoji_path xy lines font line_height support_ds_emj w items :
  lines <> [] ->
  contains_emoji lines support_ds_emj = true ->
  fetch_emojis
    (list_to_set (contents_of EMOJI (parse_lines lines support_ds_emj)))
    (list_to_set (contents_of DISCORD_EMOJI (parse_lines lines support_ds_emj)))
    = Ok items ->
  apilmoji.text contains_emoji parse_lines get_font_height get_font_size
    fetch_emojis Image_open xy lines font line_height support_ds_emj w
  = let called :=
      EvFetchEmojis
        (list_to_set (contents_of EMOJI (parse_lines lines support_ds_emj)))
        (list_to_set
           (contents_of DISCORD_EMOJI (parse_lines lines support_ds_emj))) in
    let font_size := get_font_size font in
    let lh := apilmoji.line_height_or get_font_height line_height font in
    match y_diff_of lh font_size with
    | Raise e => (Raise e, w, [called])
    | Ok y_diff =>
        match apilmoji.resize_all Image_open font_size ∅ items with
        | Raise e => (Raise e, w, [called])
        | Ok resized_emjs =>
            match for_lines
                    (fun y line =>
                       for_nodes
                         (apilmoji.text_node resized_emjs font font_size y y_diff)
                         xy.1 line;; mret tt)
                    lh xy.2 (parse_lines lines support_ds_emj) w with
            | (r, w2, ev2) => (r, w2, called :: ev2)
            end
        end
    end.
Proof.
  intros Hlines Hcontains Hfetch. unfold apilmoji.text.
  destruct lines as [|l0 lines]; [congruence |].
  cbv zeta. rewrite Hcontains. cbn [negb].
  rewrite bind_run. unfold emit at 1.
  rewrite bind_run. unfold lift at 1. rewrite Hfetch.
  rewrite bind_run. unfold lift at 1.
  destruct (y_diff_of _ _) as [y_diff|e]; [| reflexivity].
  rewrite bind_run. unfold lift at 1.
  destruct (apilmoji.resize_all _ _ _ _) as [resized|e]; [| reflexivity].
  destruct (for_lines _ _ _ _ w) as [[r w2] ev2]. reflexivity.
Qed.

(** What [resize_all] returns holds, beyond the entries it started
    with, only bitmaps prepared from the items, and it returns only when
    every bitmap of the items was prepared. *)
Lemma resize_all_prepared font_size items :
  forall acc m,
    apilmoji.resize_all Image_open font_size acc items = Ok m ->
    (forall k im,
       m !! k = Some im ->
       acc !! k = Some im
       \/ exists b,
            (k, Some b) ∈ items
            /\ apilmoji._resize_emoji Image_open b font_size = Ok im)
    /\ all_prepared Image_open font_size items.
Proof.
  unfold all_prepared.
  induction items as [|[k [b|]] items IH]; intros acc m; simpl.
  - intros [= <-]. split; [auto | constructor].
  - destruct (apilmoji._resize_emoji Image_open b font_size) as [im0|e] eqn:Hb;
      simpl; [| discriminate].
    intros Hm. destruct (IH _ _ Hm) as [Hin Hall]. split.
    + intros k' im Hk. destruct (Hin k' im Hk) as [Hacc | (b' & Hb' & Hr)].
      * destruct (decide (k' = k)) as [-> | Hne].
        -- rewrite lookup_insert_eq in Hacc. injection Hacc as <-.
           right. exists b. split; [left | exact Hb].
        -- rewrite lookup_insert_ne in Hacc by congruence. left. exact Hacc.
      * right. exists b'. split; [right; exact Hb' | exact Hr].
    + constructor; [| exact Hall].
      simpl. intros b' [= <-]. rewrite Hb. reflexivity.
  - intros Hm. destruct (IH _ _ Hm) as [Hin Hall]. split.
    + intros k' im Hk. destruct (Hin k' im Hk) as [Hacc | (b' & Hb' & Hr)];
        [left; exact Hacc |].
      right. exists b'. split; [right; exact Hb' | exact Hr].
    + constructor; [| exact Hall]. simpl. intros b' [=].
Qed.

(** The node loop pastes bitmaps of [resized_emjs] only. *)
Lemma emits_pastes_from resized_emjs font font_size y y_diff cur_x node :
  emits (pastes_from resized_emjs)
    (apilmoji.text_node resized_emjs font font_size y y_diff cur_x node).
Proof.
  unfold apilmoji.text_node.
  destruct (match type node with TEXT => None | _ => _ end) as [im|] eqn:Him.
  - apply emits_bind; [apply emits_emit | auto with emits].
    simpl. exists (content node).
    destruct (type node); [discriminate | exact Him | exact Him].
  - apply emits_bind; [apply emits_emit; exact I | auto with emits].
Qed.

Lemma draws_cons_not_draw ev evs :
  is_draw ev = false -> draws (ev :: evs) = draws evs.
Proof.
  intros Hev. unfold draws. rewrite filter_cons_False; [reflexivity |].
  rewrite Hev. intros H. exact H.
Qed.

End PrepareBeforeDraw.

Section PilmojiResolveBeforeDraw.

Import pilmoji_source.

Variable http : string -> http_reply.
Variable _source : EmojiCDNSource.
Variable _cache : bool.
Variable to_nodes : string -> option bool -> list (list Node).
Variable get_font_size : FontT -> spec_float.
Variable get_font_height : FontT -> Z.
Variable Image_open : bytes -> option (Z * Z).

Lemma emits_gather_map_get_emoji P keys :
  (forall k, P (EvGetEmoji k)) -> (forall url, P (EvHttpGet url)) ->
  emits P (pilmoji.gather_map (pilmoji._get_emoji http _source _cache) keys).
Proof.
  intros Hget Hhttp. unfold pilmoji.gather_map.
  apply emits_bind; [| auto with emits].
  apply emits_gather. apply Forall_fmap, Forall_forall. intros k _.
  apply emits__get_emoji; auto.
Qed.

Lemma pilmoji_text_resolve_then_draw xy text font w :
  resolve_then_draw
    (events_of
       (pilmoji.text http _source _cache to_nodes get_font_size get_font_height
          Image_open xy text font w)).
Proof.
  unfold pilmoji.text. apply resolve_then_draw_bind.
  - destruct (elements _); [auto with emits |].
    apply emits_gather_map_get_emoji; reflexivity.
  - intros emoji_map. apply emits_bind; [auto with emits |]. intros y_diff.
    apply emits_for_lines. intros y line.
    apply emits_bind; [| auto with emits].
    apply emits_for_nodes. intros x node. apply emits_text_node.
Qed.

Variable int_of_str : string -> result Z.

Lemma pilmoji_text_with_discord_emoji_resolve_then_draw xy text font w :
  resolve_then_draw
    (events_of
       (pilmoji.text_with_discord_emoji http _source _cache to_nodes
          get_font_size get_font_height Image_open int_of_str xy text font w)).
Proof.
  unfold pilmoji.text_with_discord_emoji. cbv zeta.
  apply resolve_then_draw_prefix; [apply emits_lift |]. intros ids w1.
  apply resolve_then_draw_bind.
  - assert (Hemoji : Forall (emits not_draw)
      (pilmoji._get_emoji http _source _cache
         <$> elements
               (list_to_set (contents_of EMOJI (to_nodes text (Some false)))
                  : gset string))).
    { apply Forall_fmap, Forall_forall. intros k _.
      apply emits__get_emoji; reflexivity. }
    assert (Hdiscord : Forall (emits not_draw)
      (pilmoji._get_discord_emoji http _source _cache
         <$> elements (list_to_set ids : gset Z))).
    { apply Forall_fmap, Forall_forall. intros k _.
      apply emits__get_discord_emoji; reflexivity. }
    assert (Hall : emits not_draw
      (gather
         ((pilmoji._get_emoji http _source _cache
             <$> elements
                   (list_to_set (contents_of EMOJI (to_nodes text (Some false)))
                      : gset string))
          ++ (pilmoji._get_discord_emoji http _source _cache
                <$> elements (list_to_set ids : gset Z))))).
    { apply emits_gather, Forall_app. auto. }
    destruct (pilmoji._get_emoji http _source _cache <$> _) as [|t1 l1];
      [destruct (pilmoji._get_discord_emoji http _source _cache <$> _)
         as [|t2 l2] |];
      try apply emits_mret;
      (apply emits_bind; [exact Hall | intros; apply emits_mret]).
  - intros maps. apply emits_bind; [apply emits_lift |]. intros y_diff.
    apply emits_for_lines. intros y line.
    apply emits_bind; [| intros; apply emits_mret].
    apply emits_for_nodes. intros x node.
    apply emits_text_with_discord_emoji_node.
Qed.

End PilmojiResolveBeforeDraw.

(** C2 (amended): in apilmoji's [text] the resolution of every key and
    the preparation (decode and resize) of every resolved bitmap come
    before the first pixel is drawn.  When the offset computation or the
    preparation of some bitmap fails, in the decoding or in the resizing,
    the call raises that error and nothing is drawn; a call that draws
    has prepared every resolved bitmap, and every bitmap it pastes is one
    of those.  In particular, when the bytes resolved for some key are no
    image the call raises, the decode error unless another bitmap failed
    to resize before it, and nothing is drawn.  In pilmoji's [text] and
    [text_with_discord_emoji] the resolution comes before the first pixel
    too; their bitmaps are decoded when their node is reached. *)
Theorem apilmoji_prepares_before_drawing
    (contains_emoji : list string -> bool -> bool)
    (parse_lines : list string -> bool -> list (list Node))
    (get_font_height : FontT -> Z) (get_font_size : FontT -> spec_float)
    (fetch_emojis :
       gset string -> gset string -> result (list (string * option bytes)))
    (Image_open : bytes -> option (Z * Z))
    xy lines font line_height support_ds_emj w items :
  let emj_set : gset string :=
    list_to_set (contents_of EMOJI (parse_lines lines support_ds_emj)) in
  let ds_emj_set : gset string :=
    list_to_set (contents_of DISCORD_EMOJI (parse_lines lines support_ds_emj)) in
  let run :=
    apilmoji.text contains_emoji parse_lines get_font_height get_font_size
      fetch_emojis Image_open xy lines font line_height support_ds_emj w in
  let font_size := get_font_size font in
  let y_diff :=
    y_diff_of (apilmoji.line_height_or get_font_height line_height font)
      font_size in
  let resized_emjs := apilmoji.resize_all Image_open font_size ∅ items in
  lines <> [] ->
  contains_emoji lines support_ds_emj = true ->
  fetch_emojis emj_set ds_emj_set = Ok items ->
  (forall e,
     y_diff = Raise e \/ (is_Raise y_diff = false /\ resized_emjs = Raise e) ->
     run = (Raise e, w, [EvFetchEmojis emj_set ds_emj_set]))
  /\ (draws (events_of run) <> [] ->
      is_Raise y_diff = false
      /\ is_Raise resized_emjs = false
      /\ all_prepared Image_open font_size items)
  /\ Forall (pastes_prepared Image_open font_size items) (events_of run)
  /\ (forall key bytesio,
        (key, Some bytesio) ∈ items ->
        Image_open bytesio = None ->
        (exists e,
           run = (Raise e, w, [EvFetchEmojis emj_set ds_emj_set])
           /\ (is_Raise y_diff = false ->
               Forall (decodes_or_prepares Image_open font_size) items ->
               e = UnidentifiedImageError))
        /\ draws (events_of run) = [])
  /\ resolve_then_draw (events_of run)
  /\ (forall http _source _cache to_nodes int_of_str xy' text' w',
        resolve_then_draw
          (events_of
             (pilmoji.text http _source _cache to_nodes get_font_size
                get_font_height Image_open xy' text' font w'))
        /\ resolve_then_draw
             (events_of
                (pilmoji.text_with_discord_emoji http _source _cache to_nodes
                   get_font_size get_font_height Image_open int_of_str xy'
                   text' font w'))).
Proof.
  intros emj_set ds_emj_set run font_size y_diff resized_emjs
    Hlines Hcontains Hfetch.
  assert (Hpath := apilmoji_text_emoji_path contains_emoji parse_lines
            get_font_height get_font_size fetch_emojis Image_open xy lines
            font line_height support_ds_emj w items Hlines Hcontains Hfetch).
  cbv zeta in Hpath. fold emj_set ds_emj_set run font_size in Hpath.
  fold y_diff in Hpath. fold resized_emjs in Hpath.
  assert (Hfail : forall e,
     y_diff = Raise e \/ (is_Raise y_diff = false /\ resized_emjs = Raise e) ->
     run = (Raise e, w, [EvFetchEmojis emj_set ds_emj_set])).
  { intros e [He | [Hy He]]; rewrite Hpath.
    - rewrite He. reflexivity.
    - destruct y_diff as [yd|e']; [| discriminate Hy].
      rewrite He. reflexivity. }
  assert (Hdecode : forall key bytesio,
     (key, Some bytesio) ∈ items ->
     Image_open bytesio = None ->
     exists e,
       run = (Raise e, w, [EvFetchEmojis emj_set ds_emj_set])
       /\ (is_Raise y_diff = false ->
           Forall (decodes_or_prepares Image_open font_size) items ->
           e = UnidentifiedImageError)).
  { intros key bytesio Hin Hopen.
    destruct y_diff as [yd|e] eqn:Hy.
    - destruct (resize_all_undecodable Image_open font_size key bytesio items
                  Hin Hopen ∅) as (e & He & Hkind).
      exists e. split; [| intros _; exact Hkind].
      apply Hfail. right. split; [reflexivity | exact He].
    - exists e. split; [apply Hfail; left; reflexivity | discriminate]. }
  split; [exact Hfail |]. split; [| split; [| split]].
  - intros Hdraws.
    destruct y_diff as [yd|e] eqn:Hy.
    + destruct resized_emjs as [m|e] eqn:Hm.
      * split; [reflexivity |]. split; [reflexivity |].
        apply (resize_all_prepared Image_open font_size items ∅ m Hm).
      * exfalso. apply Hdraws.
        rewrite (Hfail e) by (right; split; reflexivity). reflexivity.
    + exfalso. apply Hdraws.
      rewrite (Hfail e) by (left; reflexivity). reflexivity.
  - rewrite Hpath.
    destruct y_diff as [yd|e];
      [| apply Forall_singleton; exact I].
    destruct resized_emjs as [m|e] eqn:Hm;
      [| apply Forall_singleton; exact I].
    assert (Hloop : emits (pastes_from m)
      (for_lines
         (fun y line =>
            for_nodes (apilmoji.text_node m font font_size y yd) xy.1 line;;
            mret tt)
         (apilmoji.line_height_or get_font_height line_height font) xy.2
         (parse_lines lines support_ds_emj))).
    { apply emits_for_lines. intros y line.
      apply emits_bind; [| auto with emits].
      apply emits_for_nodes. intros x node. apply emits_pastes_from. }
    specialize (Hloop w). unfold events_of in Hloop.
    destruct (for_lines _ _ _ _ w) as [[r w2] ev2]. simpl in Hloop |- *.
    apply Forall_cons. split; [exact I |].
    apply (Forall_impl _ _ _ Hloop). intros [] Hev; try exact I.
    destruct Hev as (k & Hk).
    destruct (resize_all_prepared Image_open font_size items ∅ m Hm)
      as [Hin _].
    destruct (Hin k im Hk) as [Hempty | Hitem]; [| exists k; exact Hitem].
    rewrite lookup_empty in Hempty. discriminate Hempty.
  - intros key bytesio Hin Hopen.
    split; [exact (Hdecode key bytesio Hin Hopen) |].
    destruct (Hdecode key bytesio Hin Hopen) as (e & -> & _). reflexivity.
  - split; [apply apilmoji_text_resolve_then_draw |].
    intros. split.
    + apply pilmoji_text_resolve_then_draw.
    + apply pilmoji_text_with_discord_emoji_resolve_then_draw.
Qed.

(** ["Hi 👍"] with bytes that are no image: the call raises and the
    log holds the resolver call alone; and with a bitmap that decodes but
    a font of size 2, for which the resize fails: the same. *)
Lemma apilmoji_prepares_before_drawing_witness :
  apilmoji.text example_contains_emoji example_parse_lines font_height_20
    font_size_16 fetch_garbage decode_example (0, 0) ["Hi 👍"] example_font
    None false empty_world
  = (Raise UnidentifiedImageError, empty_world,
     [EvFetchEmojis
        (list_to_set
           (contents_of EMOJI (example_parse_lines ["Hi 👍"] false)))
        (list_to_set
           (contents_of DISCORD_EMOJI (example_parse_lines ["Hi 👍"] false)))])
  /\ draws
       (events_of
          (apilmoji.text example_contains_emoji example_parse_lines
             font_height_20 font_size_16 fetch_garbage decode_example (0, 0)
             ["Hi 👍"] example_font None false empty_world)) = []
  /\ apilmoji.text example_contains_emoji example_parse_lines font_height_20
       font_size_2 fetch_png decode_example (0, 0) ["Hi 👍"] example_font
       None false empty_world
     = (Raise ValueError, empty_world,
        [EvFetchEmojis
           (list_to_set
              (contents_of EMOJI (example_parse_lines ["Hi 👍"] false)))
           (list_to_set
              (contents_of DISCORD_EMOJI
                 (example_parse_lines ["Hi 👍"] false)))]).
Proof.
  destruct (apilmoji_prepares_before_drawing example_contains_emoji
              example_parse_lines font_height_20 font_size_16 fetch_garbage
              decode_example (0, 0) ["Hi 👍"] example_font None false
              empty_world [(thumbs_up, Some garbage)])
    as (_ & _ & _ & Hdecode & _).
  { discriminate. }
  { vm_compute. reflexivity. }
  { vm_compute. reflexivity. }
  destruct (Hdecode thumbs_up garbage) as ((e & Hrun & Hkind) & Hdraws).
  { apply list_elem_of_singleton. reflexivity. }
  { reflexivity. }
  destruct (apilmoji_prepares_before_drawing example_contains_emoji
              example_parse_lines font_height_20 font_size_2 fetch_png
              decode_example (0, 0) ["Hi 👍"] example_font None false
              empty_world [(thumbs_up, Some png_2)])
    as (Hfail & _).
  { discriminate. }
  { vm_compute. reflexivity. }
  { vm_compute. reflexivity. }
  split; [| split; [exact Hdraws |]].
  - rewrite Hrun. rewrite Hkind; [reflexivity | reflexivity |].
    apply Forall_singleton. intros b [= <-]. left. reflexivity.
  - apply Hfail. right. split; vm_compute; reflexivity.
Defined.

(** C2, as stated, fails in pilmoji's [text], which decodes a bitmap when
    its node is reached: on ["Hi 👍"] with bytes that are no image the
    text ["Hi "] is drawn, and then the decode error is raised. *)
Lemma pilmoji_draws_before_decode_error :
  result_of
    (pilmoji.text http_garbage apple_source true example_to_nodes font_size_16
       font_height_20 decode_example (0, 0) "Hi 👍" example_font fresh_world)
  = Raise UnidentifiedImageError
  /\ events_of
       (pilmoji.text http_garbage apple_source true example_to_nodes
          font_size_16 font_height_20 decode_example (0, 0) "Hi 👍"
          example_font fresh_world)
     = [EvGetEmoji thumbs_up;
        EvHttpGet "https://emojicdn.elk.sh/emoji?style=apple";
        EvDrawText (0, 0) "Hi "]
  /\ draws
       (events_of
          (pilmoji.text http_garbage apple_source true example_to_nodes
             font_size_16 font_height_20 decode_example (0, 0) "Hi 👍"
             example_font fresh_world))
     = [EvDrawText (0, 0) "Hi "].
Proof. repeat split; vm_compute; reflexivity. Qed.

(** ** One request per key *)

Lemma get_calls_app evs1 evs2 :
  get_calls (evs1 ++ evs2) = get_calls evs1 ++ get_calls evs2.
Proof. apply omap_app. Qed.

Lemma http_gets_app evs1 evs2 :
  http_gets (evs1 ++ evs2) = http_gets evs1 ++ http_gets evs2.
Proof. apply omap_app. Qed.

(** Drawing events are neither requests to the source nor downloads. *)
Lemma only_draw_no_calls evs :
  Forall only_draw evs ->
  get_calls evs = [] /\ http_gets evs = [] /\ fetch_calls evs = [].
Proof.
  induction 1 as [|ev evs Hev _ (IH1 & IH2 & IH3)]; [auto |].
  destruct ev; try discriminate Hev; simpl; auto.
Qed.

Section OneRequestPerKey.

Import pilmoji_source.

Variable http : string -> http_reply.
Variable _source : EmojiCDNSource.
Variable _cache : bool.

(** The source logs its call and at most one download, and leaves the
    in-memory cache alone. *)
Lemma get_emoji_run emoji w r w1 evs :
  get_emoji http _source emoji w = (r, w1, evs) ->
  (evs = [EvGetEmoji emoji]
   \/ evs = [EvGetEmoji emoji; EvHttpGet (emoji_url _source emoji)])
  /\ _emoji_cache w1 = _emoji_cache w.
Proof.
  unfold get_emoji. rewrite bind_run. unfold emit at 1.
  rewrite bind_run. unfold path_exists at 1.
  destruct (_ || _).
  - rewrite bind_run. unfold read_file.
    destruct (files w !! _); simpl; intros [= <- <- <-]; auto.
  - unfold try_except. rewrite bind_run. unfold download.
    rewrite bind_run. unfold emit at 1.
    destruct (http _) as [sc body|e].
    + destruct (_ && _).
      * unfold mret at 1, M_ret. rewrite bind_run.
        unfold write_file.
        destruct (_ && _); simpl; intros [= <- <- <-]; auto.
      * unfold raise. destruct (is_HTTPError _); simpl;
          intros [= <- <- <-]; auto.
    + unfold raise. destruct (is_HTTPError e); simpl;
        intros [= <- <- <-]; auto.
Qed.

(** One task of the gather: it calls the source when, and only when, the
    key misses the in-memory cache, and touches no other cache slot. *)
Lemma _get_emoji_run emoji w :
  get_calls (events_of (pilmoji._get_emoji http _source _cache emoji w))
    = (if memory_miss _cache (_emoji_cache w) emoji then [emoji] else [])
  /\ (length (http_gets
        (events_of (pilmoji._get_emoji http _source _cache emoji w)))
      <= length (get_calls
        (events_of (pilmoji._get_emoji http _source _cache emoji w))))%nat
  /\ (forall k, k <> emoji ->
        _emoji_cache (world_of (pilmoji._get_emoji http _source _cache emoji w))
          !! k = _emoji_cache w !! k).
Proof.
  unfold pilmoji._get_emoji, memory_miss.
  destruct (if _cache then _emoji_cache w !! emoji else None) as [b|] eqn:Hc.
  - assert (Hhit : _cache && bool_decide (is_Some (_emoji_cache w !! emoji))
                   = true).
    { destruct _cache; [| discriminate]. rewrite Hc.
      rewrite bool_decide_eq_true_2 by eauto. reflexivity. }
    rewrite Hhit. simpl. auto.
  - assert (Hmiss : _cache && bool_decide (is_Some (_emoji_cache w !! emoji))
                    = false).
    { destruct _cache; [| reflexivity]. rewrite Hc.
      rewrite bool_decide_eq_false_2 by (intros [? ?]; discriminate).
      reflexivity. }
    rewrite Hmiss. simpl negb. cbv iota.
    rewrite bind_run.
    destruct (get_emoji http _source emoji w) as [[r w1] ev1] eqn:Hrun.
    destruct (get_emoji_run _ _ _ _ _ Hrun) as [Hev Hkeep].
    destruct r as [[b|]|e]; unfold events_of, world_of in *; simpl in *.
    + unfold mbind, M_bind, mret, M_ret, pilmoji.set_emoji_cache.
      destruct _cache; simpl; rewrite app_nil_r;
        (split; [destruct Hev as [-> | ->]; reflexivity |]);
        (split; [destruct Hev as [-> | ->]; simpl; lia |]);
        intros k Hk; rewrite ?lookup_insert_ne by congruence;
        rewrite Hkeep; reflexivity.
    + rewrite app_nil_r.
      split; [destruct Hev as [-> | ->]; reflexivity |].
      split; [destruct Hev as [-> | ->]; simpl; lia |].
      intros k Hk. rewrite Hkeep. reflexivity.
    + split; [destruct Hev as [-> | ->]; reflexivity |].
      split; [destruct Hev as [-> | ->]; simpl; lia |].
      intros k Hk. rewrite Hkeep. reflexivity.
Qed.

(** The gather over distinct keys: the source is called for the keys
    that miss the in-memory cache the call started with, once each. *)
Lemma gather_get_emoji_run (cache0 : gmap string bytes) keys :
  NoDup keys ->
  forall w,
    (forall k, k ∈ keys -> _emoji_cache w !! k = cache0 !! k) ->
    get_calls
      (events_of
         (gather (pilmoji._get_emoji http _source _cache <$> keys) w))
      = List.filter (memory_miss _cache cache0) keys
    /\ (length (http_gets
          (events_of
             (gather (pilmoji._get_emoji http _source _cache <$> keys) w)))
        <= length (List.filter (memory_miss _cache cache0) keys))%nat.
Proof.
  induction 1 as [|k keys Hnotin Hnodup IH]; intros w Hsame;
    [simpl; auto |].
  cbn [fmap list_fmap gather].
  destruct (_get_emoji_run k w) as (Hcalls & Hhttp & Hkeep).
  destruct (pilmoji._get_emoji http _source _cache k w) as [[r w1] ev1].
  unfold events_of, world_of in *; simpl in Hcalls, Hhttp, Hkeep.
  destruct (IH w1) as [IHcalls IHhttp].
  { intros k' Hk'. rewrite Hkeep by (intros ->; contradiction).
    apply Hsame. right. exact Hk'. }
  change (list_fmap _ _ (pilmoji._get_emoji http _source _cache) keys)
    with (pilmoji._get_emoji http _source _cache <$> keys).
  destruct (gather _ w1) as [[rs w2] ev2].
  unfold events_of in *; simpl in IHcalls, IHhttp |- *.
  rewrite get_calls_app, http_gets_app, length_app, Hcalls, IHcalls.
  assert (Hk : memory_miss _cache (_emoji_cache w) k
               = memory_miss _cache cache0 k).
  { unfold memory_miss. rewrite (Hsame k) by left. reflexivity. }
  rewrite Hk in *. rewrite Hcalls in Hhttp.
  destruct (memory_miss _cache cache0 k); simpl in *; split;
    try reflexivity; lia.
Qed.

Lemma emoji_file_path_inj emoji1 emoji2 :
  emoji_file_path _source emoji1 = emoji_file_path _source emoji2 ->
  emoji1 = emoji2.
Proof.
  unfold emoji_file_path. intros H. apply path_join_inj in H as [_ H].
  apply (string_app_inj_r _ _ _ H).
Qed.

(** The source downloads exactly when the file of the key is not there,
    and touches no other file and no directory. *)
Lemma get_emoji_requests emoji w r w1 evs :
  get_emoji http _source emoji w = (r, w1, evs) ->
  http_gets evs
    = (if on_disk w (emoji_file_path _source emoji) then []
       else [emoji_url _source emoji])
  /\ dirs w1 = dirs w
  /\ (forall p, p <> emoji_file_path _source emoji ->
        files w1 !! p = files w !! p).
Proof.
  unfold get_emoji, on_disk. rewrite bind_run. unfold emit at 1.
  rewrite bind_run. unfold path_exists at 1.
  destruct (_ || _).
  - rewrite bind_run. unfold read_file.
    destruct (files w !! _); simpl; intros [= <- <- <-]; auto.
  - unfold try_except. rewrite bind_run. unfold download.
    rewrite bind_run. unfold emit at 1.
    destruct (http _) as [sc body|e].
    + destruct (_ && _).
      * unfold mret at 1, M_ret. rewrite bind_run.
        unfold write_file.
        destruct (_ && _); simpl; intros [= <- <- <-]; simpl;
          (split; [reflexivity |]); (split; [reflexivity |]);
          intros p Hp; rewrite ?lookup_insert_ne by congruence; reflexivity.
      * unfold raise. destruct (is_HTTPError _); simpl;
          intros [= <- <- <-]; auto.
    + unfold raise. destruct (is_HTTPError e); simpl;
        intros [= <- <- <-]; auto.
Qed.

(** One task of the gather downloads exactly when its key is in neither
    cache. *)
Lemma _get_emoji_requests emoji w :
  http_gets (events_of (pilmoji._get_emoji http _source _cache emoji w))
    = (if memory_miss _cache (_emoji_cache w) emoji
          && negb (on_disk w (emoji_file_path _source emoji))
       then [emoji_url _source emoji] else [])
  /\ dirs (world_of (pilmoji._get_emoji http _source _cache emoji w)) = dirs w
  /\ (forall p, p <> emoji_file_path _source emoji ->
        files (world_of (pilmoji._get_emoji http _source _cache emoji w)) !! p
        = files w !! p).
Proof.
  unfold pilmoji._get_emoji, memory_miss.
  destruct (if _cache then _emoji_cache w !! emoji else None) as [b|] eqn:Hc.
  - assert (Hhit : _cache && bool_decide (is_Some (_emoji_cache w !! emoji))
                   = true).
    { destruct _cache; [| discriminate]. rewrite Hc.
      rewrite bool_decide_eq_true_2 by eauto. reflexivity. }
    rewrite Hhit. simpl. auto.
  - assert (Hmiss : _cache && bool_decide (is_Some (_emoji_cache w !! emoji))
                    = false).
    { destruct _cache; [| reflexivity]. rewrite Hc.
      rewrite bool_decide_eq_false_2 by (intros [? ?]; discriminate).
      reflexivity. }
    rewrite Hmiss. cbn [negb andb].
    rewrite bind_run.
    destruct (get_emoji http _source emoji w) as [[r w1] ev1] eqn:Hrun.
    destruct (get_emoji_requests _ _ _ _ _ Hrun) as (Hev & Hdirs & Hframe).
    assert (Hgets : http_gets ev1
                    = (if negb (on_disk w (emoji_file_path _source emoji))
                       then [emoji_url _source emoji] else [])).
    { rewrite Hev. destruct (on_disk _ _); reflexivity. }
    destruct r as [[b|]|e]; unfold events_of, world_of; simpl.
    + unfold mbind, M_bind, mret, M_ret, pilmoji.set_emoji_cache.
      destruct _cache; simpl; rewrite app_nil_r; auto.
    + rewrite app_nil_r. auto.
    + auto.
Qed.

(** The gather over distinct keys downloads once for each key that is in
    neither cache when the call starts, and for no other key. *)
Lemma gather_get_emoji_requests (w0 : world) keys :
  NoDup keys ->
  forall w,
    (forall k, k ∈ keys -> _emoji_cache w !! k = _emoji_cache w0 !! k) ->
    (forall k, k ∈ keys ->
       files w !! emoji_file_path _source k
       = files w0 !! emoji_file_path _source k) ->
    dirs w = dirs w0 ->
    http_gets
      (events_of
         (gather (pilmoji._get_emoji http _source _cache <$> keys) w))
    = emoji_url _source
        <$> List.filter
              (fun k => memory_miss _cache (_emoji_cache w0) k
                        && negb (on_disk w0 (emoji_file_path _source k)))
              keys.
Proof.
  induction 1 as [|k keys Hnotin Hnodup IH]; intros w Hmem Hfiles Hdirs;
    [reflexivity |].
  cbn [fmap list_fmap gather].
  destruct (_get_emoji_run k w) as (_ & _ & Hkeep).
  destruct (_get_emoji_requests k w) as (Hgets & Hdirs1 & Hframe).
  destruct (pilmoji._get_emoji http _source _cache k w) as [[r w1] ev1].
  unfold events_of, world_of in *; simpl in Hkeep, Hgets, Hdirs1, Hframe.
  specialize (IH w1).
  change (list_fmap _ _ (pilmoji._get_emoji http _source _cache) keys)
    with (pilmoji._get_emoji http _source _cache <$> keys).
  destruct (gather _ w1) as [[rs w2] ev2].
  simpl in IH |- *.
  assert (Hrest : http_gets ev2
    = emoji_url _source
        <$> List.filter
              (fun k => memory_miss _cache (_emoji_cache w0) k
                        && negb (on_disk w0 (emoji_file_path _source k)))
              keys).
  { apply IH.
    - intros k' Hk'. rewrite Hkeep by (intros ->; contradiction).
      apply Hmem. right. exact Hk'.
    - intros k' Hk'. rewrite Hframe.
      + apply Hfiles. right. exact Hk'.
      + intros Heq. apply emoji_file_path_inj in Heq. subst k'.
        contradiction.
    - rewrite Hdirs1. exact Hdirs. }
  assert (Hk : memory_miss _cache (_emoji_cache w) k
               && negb (on_disk w (emoji_file_path _source k))
               = memory_miss _cache (_emoji_cache w0) k
                 && negb (on_disk w0 (emoji_file_path _source k))).
  { unfold memory_miss, on_disk.
    rewrite (Hmem k), (Hfiles k), Hdirs by left. reflexivity. }
  rewrite http_gets_app, Hgets, Hrest, Hk. clear Hk Hgets.
  simpl List.filter.
  destruct (memory_miss _cache (_emoji_cache w0) k
            && negb (on_disk w0 (emoji_file_path _source k)));
    reflexivity.
Qed.

End OneRequestPerKey.

Section RenderRequests.

Import pilmoji_source.

Variable http : string -> http_reply.
Variable _source : EmojiCDNSource.
Variable _cache : bool.
Variable to_nodes : string -> option bool -> list (list Node).
Variable get_font_size : FontT -> spec_float.
Variable get_font_height : FontT -> Z.
Variable Image_open : bytes -> option (Z * Z).

Lemma pilmoji_text_calls xy text font w :
  get_calls
    (events_of
       (pilmoji.text http _source _cache to_nodes get_font_size get_font_height
          Image_open xy text font w))
  = List.filter (memory_miss _cache (_emoji_cache w))
      (elements
         (list_to_set (contents_of EMOJI (to_nodes text None)) : gset string))
  /\ (length
        (http_gets
           (events_of
              (pilmoji.text http _source _cache to_nodes get_font_size
                 get_font_height Image_open xy text font w)))
      <= length
           (List.filter (memory_miss _cache (_emoji_cache w))
              (elements
                 (list_to_set (contents_of EMOJI (to_nodes text None))
                    : gset string))))%nat.
Proof.
  unfold pilmoji.text. cbv zeta.
  set (keys := elements _).
  match goal with |- context [mbind _ ?m] => set (phase := m) end.
  assert (Hphase :
    get_calls (events_of (phase w))
    = List.filter (memory_miss _cache (_emoji_cache w)) keys
    /\ (length (http_gets (events_of (phase w)))
        <= length (List.filter (memory_miss _cache (_emoji_cache w)) keys))%nat).
  { subst phase.
    destruct (gather_get_emoji_run http _source _cache (_emoji_cache w) keys
                (NoDup_elements _) w (fun _ _ => eq_refl)) as [Hc Hh].
    destruct keys as [|k keys']; [simpl; auto |].
    unfold pilmoji.gather_map. rewrite bind_run.
    destruct (gather _ w) as [[[rs|e] w1] ev1];
      unfold events_of in *; simpl in *; rewrite ?app_nil_r; auto. }
  rewrite bind_run.
  destruct (phase w) as [[[emoji_map|e] w1] ev1].
  - assert (Hdraw : emits only_draw
      (y_diff ← lift (y_diff_of (get_font_height font) (get_font_size font));
       for_lines
         (fun y line =>
            for_nodes
              (pilmoji.text_node Image_open emoji_map font (get_font_size font)
                 y y_diff) xy.1 line;; mret tt)
         (get_font_height font) xy.2 (to_nodes text None))).
    { apply emits_bind; [apply emits_lift |]. intros y_diff.
      apply emits_for_lines. intros y line.
      apply emits_bind; [| intros; apply emits_mret].
      apply emits_for_nodes. intros x node. apply emits_text_node. }
    specialize (Hdraw w1).
    destruct (@mbind M _ _ _ _ _ w1) as [[r w2] ev2].
    destruct (only_draw_no_calls _ Hdraw) as (Hg & Hh & _).
    unfold events_of in *; simpl in *.
    rewrite get_calls_app, http_gets_app, Hg, Hh, !app_nil_r. exact Hphase.
  - exact Hphase.
Qed.

(** The downloads of a render call: one for each distinct key of the
    text that is in neither cache when the call starts. *)
Lemma pilmoji_text_requests xy text font w :
  http_gets
    (events_of
       (pilmoji.text http _source _cache to_nodes get_font_size get_font_height
          Image_open xy text font w))
  = emoji_url _source
      <$> List.filter
            (fun k => memory_miss _cache (_emoji_cache w) k
                      && negb (on_disk w (emoji_file_path _source k)))
            (elements
               (list_to_set (contents_of EMOJI (to_nodes text None))
                  : gset string)).
Proof.
  unfold pilmoji.text. cbv zeta.
  set (keys := elements _).
  match goal with |- context [mbind _ ?m] => set (phase := m) end.
  assert (Hphase :
    http_gets (events_of (phase w))
    = emoji_url _source
        <$> List.filter
              (fun k => memory_miss _cache (_emoji_cache w) k
                        && negb (on_disk w (emoji_file_path _source k)))
              keys).
  { subst phase.
    pose proof (gather_get_emoji_requests http _source _cache w keys
                  (NoDup_elements _) w (fun _ _ => eq_refl)
                  (fun _ _ => eq_refl) eq_refl) as Hg.
    destruct keys as [|k keys']; [reflexivity |].
    unfold pilmoji.gather_map. rewrite bind_run.
    destruct (gather _ w) as [[[rs|e] w1] ev1];
      unfold events_of in *; simpl in *; rewrite ?app_nil_r; exact Hg. }
  rewrite bind_run.
  destruct (phase w) as [[[emoji_map|e] w1] ev1].
  - assert (Hdraw : emits only_draw
      (y_diff ← lift (y_diff_of (get_font_height font) (get_font_size font));
       for_lines
         (fun y line =>
            for_nodes
              (pilmoji.text_node Image_open emoji_map font (get_font_size font)
                 y y_diff) xy.1 line;; mret tt)
         (get_font_height font) xy.2 (to_nodes text None))).
    { apply emits_bind; [apply emits_lift |]. intros y_diff.
      apply emits_for_lines. intros y line.
      apply emits_bind; [| intros; apply emits_mret].
      apply emits_for_nodes. intros x node. apply emits_text_node. }
    specialize (Hdraw w1).
    destruct (@mbind M _ _ _ _ _ w1) as [[r w2] ev2].
    destruct (only_draw_no_calls _ Hdraw) as (_ & Hh & _).
    unfold events_of in *; simpl in *.
    rewrite http_gets_app, Hh, app_nil_r. exact Hphase.
  - exact Hphase.
Qed.

Lemma filter_filter_andb {A} (f g : A -> bool) (l : list A) :
  List.filter g (List.filter f l) = List.filter (fun x => f x && g x) l.
Proof.
  induction l as [|x l IH]; [reflexivity |]. simpl.
  destruct (f x); simpl; [destruct (g x) |]; rewrite IH; reflexivity.
Qed.

End RenderRequests.

Section ResolverCalls.

Variable contains_emoji : list string -> bool -> bool.
Variable parse_lines : list string -> bool -> list (list Node).
Variable get_font_height : FontT -> Z.
Variable get_font_size : FontT -> spec_float.
Variable fetch_emojis :
  gset string -> gset string -> result (list (string * option bytes)).
Variable Image_open : bytes -> option (Z * Z).

Lemma apilmoji_text_fetch_calls xy lines font line_height support_ds_emj w :
  fetch_calls
    (events_of
       (apilmoji.text contains_emoji parse_lines get_font_height get_font_size
          fetch_emojis Image_open xy lines font line_height support_ds_emj w))
  = if bool_decide (lines <> []) && contains_emoji lines support_ds_emj
    then [(list_to_set (contents_of EMOJI (parse_lines lines support_ds_emj)),
           list_to_set
             (contents_of DISCORD_EMOJI (parse_lines lines support_ds_emj)))]
    else [].
Proof.
  unfold apilmoji.text. destruct lines as [|l0 lines]; [reflexivity |].
  rewrite bool_decide_eq_true_2 by discriminate. cbv zeta.
  destruct (contains_emoji (l0 :: lines) support_ds_emj); cbn [negb andb].
  - rewrite bind_run. unfold emit at 1.
    assert (Hdraw : emits only_draw
      (emj_map ← lift
         (fetch_emojis
            (list_to_set
               (contents_of EMOJI (parse_lines (l0 :: lines) support_ds_emj)))
            (list_to_set
               (contents_of DISCORD_EMOJI
                  (parse_lines (l0 :: lines) support_ds_emj))));
       y_diff ← lift
         (y_diff_of (apilmoji.line_height_or get_font_height line_height font)
            (get_font_size font));
       resized_emjs ← lift
         (apilmoji.resize_all Image_open (get_font_size font) ∅ emj_map);
       for_lines
         (fun y line =>
            for_nodes
              (apilmoji.text_node resized_emjs font (get_font_size font) y
                 y_diff) xy.1 line;; mret tt)
         (apilmoji.line_height_or get_font_height line_height font) xy.2
         (parse_lines (l0 :: lines) support_ds_emj))).
    { repeat (apply emits_bind; [apply emits_lift |]; intros ?).
      apply emits_for_lines. intros y line.
      apply emits_bind; [| intros; apply emits_mret].
      apply emits_for_nodes. intros x node. apply emits_apilmoji_text_node. }
    specialize (Hdraw w).
    destruct (@mbind M _ _ _ _ _ w) as [[r w2] ev2].
    destruct (only_draw_no_calls _ Hdraw) as (_ & _ & Hf).
    unfold events_of in *; simpl in *. rewrite Hf. reflexivity.
  - assert (Hdraw : emits only_draw
      (for_lines (fun y line => emit (EvDrawText (xy.1, y) line))
         (apilmoji.line_height_or get_font_height line_height font) xy.2
         (l0 :: lines))).
    { apply emits_for_lines. intros y line. apply emits_emit. reflexivity. }
    apply (only_draw_no_calls _ (Hdraw w)).
Qed.

End ResolverCalls.

(** C1 (amended): in a render call of pilmoji's [text] the source is
    asked once for each distinct emoji key of the lines that misses the
    in-memory cache, and for no other key, so for no key twice, however
    many nodes and lines refer to it; the source downloads exactly once
    for each of these calls whose key has no file in the on-disk cache
    when the render call starts, and not at all for a key whose file is
    there.  apilmoji's [text] calls the resolver [fetch_emojis] with the
    union of the distinct Unicode-emoji keys and the union of the distinct
    custom-emoji keys over all lines and nodes, exactly once when the
    lines are not empty and hold an emoji, and not at all otherwise. *)
Theorem each_key_is_requested_at_most_once
    (http : string -> http_reply) (_source : pilmoji_source.EmojiCDNSource)
    (_cache : bool) (to_nodes : string -> option bool -> list (list Node))
    (contains_emoji : list string -> bool -> bool)
    (parse_lines : list string -> bool -> list (list Node))
    (get_font_size : FontT -> spec_float) (get_font_height : FontT -> Z)
    (fetch_emojis :
       gset string -> gset string -> result (list (string * option bytes)))
    (Image_open : bytes -> option (Z * Z))
    xy text lines font line_height support_ds_emj w :
  let evs :=
    events_of
      (pilmoji.text http _source _cache to_nodes get_font_size get_font_height
         Image_open xy text font w) in
  NoDup (get_calls evs)
  /\ (forall k,
        k ∈ get_calls evs <->
        k ∈ contents_of EMOJI (to_nodes text None)
        /\ memory_miss _cache (_emoji_cache w) k = true)
  /\ (length (http_gets evs) <= length (get_calls evs))%nat
  /\ http_gets evs
     = pilmoji_source.emoji_url _source
         <$> List.filter
               (fun k =>
                  negb (on_disk w (pilmoji_source.emoji_file_path _source k)))
               (get_calls evs)
  /\ fetch_calls
       (events_of
          (apilmoji.text contains_emoji parse_lines get_font_height
             get_font_size fetch_emojis Image_open xy lines font line_height
             support_ds_emj w))
     = (if bool_decide (lines <> []) && contains_emoji lines support_ds_emj
        then [(list_to_set
                 (contents_of EMOJI (parse_lines lines support_ds_emj)),
               list_to_set
                 (contents_of DISCORD_EMOJI (parse_lines lines support_ds_emj)))]
        else []).
Proof.
  intros evs.
  destruct (pilmoji_text_calls http _source _cache to_nodes get_font_size
              get_font_height Image_open xy text font w) as [Hcalls Hhttp].
  fold evs in Hcalls, Hhttp.
  split; [| split; [| split; [| split]]].
  - rewrite Hcalls.
    apply NoDup_ListNoDup, List.NoDup_filter, NoDup_ListNoDup, NoDup_elements.
  - intros k. rewrite Hcalls, list_elem_of_In, List.filter_In,
      <- list_elem_of_In, elem_of_elements, elem_of_list_to_set.
    reflexivity.
  - rewrite Hcalls. exact Hhttp.
  - rewrite Hcalls, filter_filter_andb. subst evs.
    apply pilmoji_text_requests.
  - apply apilmoji_text_fetch_calls.
Qed.

(** One key on two nodes, in neither cache: one download; and one key
    on two lines. *)
Lemma each_key_is_requested_at_most_once_witness :
  NoDup
    (get_calls
       (events_of
          (pilmoji.text http_png apple_source true example_to_nodes
             font_size_16 font_height_20 decode_example (0, 0) "👍 and 👍"
             example_font fresh_world)))
  /\ http_gets
       (events_of
          (pilmoji.text http_png apple_source true example_to_nodes
             font_size_16 font_height_20 decode_example (0, 0) "👍 and 👍"
             example_font fresh_world))
     = ["https://emojicdn.elk.sh/emoji?style=apple"]
  /\ fetch_calls
       (events_of
          (apilmoji.text example_contains_emoji example_parse_lines
             font_height_20 font_size_16 fetch_png decode_example (0, 0)
             ["A 👍"; "B 👍"] example_font None false fresh_world))
     = [(list_to_set
           (contents_of EMOJI (example_parse_lines ["A 👍"; "B 👍"] false)),
         list_to_set
           (contents_of DISCORD_EMOJI
              (example_parse_lines ["A 👍"; "B 👍"] false)))].
Proof.
  destruct (each_key_is_requested_at_most_once http_png apple_source true
              example_to_nodes example_contains_emoji example_parse_lines
              font_size_16 font_height_20 fetch_png decode_example (0, 0)
              "👍 and 👍" ["A 👍"; "B 👍"] example_font None false fresh_world)
    as (Hnodup & _ & _ & Hgets & Hfetch).
  split; [exact Hnodup |]. split; [| exact Hfetch].
  rewrite Hgets. vm_compute. reflexivity.
Defined.

(** C1, as stated, fails on "exactly one": a key that two nodes refer to
    and whose file is in the on-disk cache triggers no fetch at all, and
    for lines without an emoji apilmoji does not call the resolver. *)
Lemma cached_key_triggers_no_fetch :
  contents_of EMOJI (example_to_nodes "👍 and 👍" None) = [thumbs_up; thumbs_up]
  /\ get_calls
       (events_of
          (pilmoji.text http_png apple_source true example_to_nodes
             font_size_16 font_height_20 decode_example (0, 0) "👍 and 👍"
             example_font warm_world))
     = [thumbs_up]
  /\ http_gets
       (events_of
          (pilmoji.text http_png apple_source true example_to_nodes
             font_size_16 font_height_20 decode_example (0, 0) "👍 and 👍"
             example_font warm_world))
     = []
  /\ fetch_calls
       (events_of
          (apilmoji.text example_contains_emoji example_parse_lines
             font_height_20 font_size_16 fetch_png decode_example (0, 0)
             ["plain"; "text"] example_font None false fresh_world))
     = [].
Proof. repeat split; vm_compute; reflexivity. Qed.

(** With the detection off a custom-emoji reference stays text; with
    the detection on a line without a reference is given back. *)
Lemma tokenize_roundtrip_up_to_custom_references_witness :
  Tokenizer.concat_contents
    (Tokenizer.tokenize [thumbs_up; sunglasses] false "Hi 👍 <:smile:1>")
  = "Hi 👍 <:smile:1>"
  /\ Tokenizer.concat_contents
       (Tokenizer.tokenize [thumbs_up; sunglasses] true "Hi 👍")
     = "Hi 👍".
Proof.
  split.
  - apply (tokenize_roundtrip_up_to_custom_references [thumbs_up; sunglasses]
             "Hi 👍 <:smile:1>").
  - apply (tokenize_roundtrip_up_to_custom_references [thumbs_up; sunglasses]
             "Hi 👍").
    intros n. do 8 (destruct n as [|n]; [reflexivity |]). reflexivity.
Defined.

(** * Further properties of the sources and the renderers *)

(** ** What the computations leave of the world *)

Section Keeps.

Variable R : world -> world -> Prop.
Hypothesis R_refl : forall w, R w w.
Hypothesis R_trans : forall w1 w2 w3, R w1 w2 -> R w2 w3 -> R w1 w3.

Lemma keeps_mret {A} (a : A) : keeps R (mret a).
Proof. intros w. apply R_refl. Qed.

Lemma keeps_lift {A} (r : result A) : keeps R (lift r).
Proof. intros w. apply R_refl. Qed.

Lemma keeps_emit ev : keeps R (emit ev).
Proof. intros w. apply R_refl. Qed.

Lemma keeps_bind {A B} (m : M A) (f : A -> M B) :
  keeps R m -> (forall a, keeps R (f a)) -> keeps R (m ≫= f).
Proof.
  intros Hm Hf w. rewrite bind_run. specialize (Hm w).
  destruct (m w) as [[[a|e] w1] ev1]; [| exact Hm].
  specialize (Hf a w1). destruct (f a w1) as [[r w2] ev2].
  unfold world_of in *; simpl in *. eapply R_trans; eauto.
Qed.

Lemma keeps_gather {A} (tasks : list (M A)) :
  Forall (keeps R) tasks -> keeps R (gather tasks).
Proof.
  induction 1 as [|task rest Htask _ IH]; intros w; simpl; [apply R_refl |].
  specialize (Htask w). destruct (task w) as [[r w1] ev1].
  specialize (IH w1). destruct (gather rest w1) as [[rs w2] ev2].
  unfold world_of in *; simpl in *. eapply R_trans; eauto.
Qed.

Lemma keeps_for_nodes body cur_x line :
  (forall x node, keeps R (body x node)) -> keeps R (for_nodes body cur_x line).
Proof.
  intros Hbody. revert cur_x.
  induction line as [|node rest IH]; intros cur_x; simpl.
  - apply keeps_mret.
  - apply keeps_bind; auto.
Qed.

Lemma keeps_for_lines {L} (body : Z -> L -> M unit) line_height y lines :
  (forall y line, keeps R (body y line)) ->
  keeps R (for_lines body line_height y lines).
Proof.
  intros Hbody. revert y.
  induction lines as [|line rest IH]; intros y; simpl.
  - apply keeps_mret.
  - apply keeps_bind; auto.
Qed.

Variable Image_open : bytes -> option (Z * Z).
Variable int_of_str : string -> result Z.

Lemma keeps__render_text xy text font :
  keeps R (pilmoji._render_text xy text font).
Proof.
  unfold pilmoji._render_text.
  apply keeps_bind; [apply keeps_emit | intros; apply keeps_lift].
Qed.

Lemma keeps__render_emoji xy bytesio size :
  keeps R (pilmoji._render_emoji Image_open xy bytesio size).
Proof.
  intros w. rewrite _render_emoji_prepare.
  destruct (prepare _ _ _ _); apply R_refl.
Qed.

Lemma keeps_text_node emoji_map font font_size y y_diff cur_x node :
  keeps R
    (pilmoji.text_node Image_open emoji_map font font_size y y_diff cur_x node).
Proof.
  unfold pilmoji.text_node.
  destruct (type node);
    [| destruct (pilmoji.get_truthy emoji_map (content node)) |];
    (apply keeps_bind;
     [first [apply keeps__render_text | apply keeps__render_emoji]
     | intros; apply keeps_mret]).
Qed.

Lemma keeps_text_with_discord_emoji_node emoji_map discord_map font font_size
    y y_diff cur_x node :
  keeps R
    (pilmoji.text_with_discord_emoji_node Image_open int_of_str emoji_map
       discord_map font font_size y y_diff cur_x node).
Proof.
  unfold pilmoji.text_with_discord_emoji_node. apply keeps_bind.
  - destruct (type node); try apply keeps_mret.
    apply keeps_bind; [apply keeps_lift |]. intros id.
    destruct (pilmoji.get_truthy discord_map id); apply keeps_mret.
  - intros [[stream|] fallback];
      (apply keeps_bind;
       [first [apply keeps__render_text | apply keeps__render_emoji]
       | intros; apply keeps_mret]).
Qed.

End Keeps.

Lemma cache_grows_refl w : cache_grows w w.
Proof. repeat split; reflexivity. Qed.

Lemma cache_grows_trans w1 w2 w3 :
  cache_grows w1 w2 -> cache_grows w2 w3 -> cache_grows w1 w3.
Proof.
  intros (Hf & Hd & He & Hx) (Hf' & Hd' & He' & Hx').
  repeat split; try (etrans; eassumption); congruence.
Qed.

(** ** The caches only grow *)

Section CachesGrow.

Import pilmoji_source.

Variable http : string -> http_reply.
Variable _source : EmojiCDNSource.
Variable _cache : bool.

(** Runs a cached fetch through its cases; each leaf is a closed run.
    The lookup of the file is left as [Hstored]. *)
Ltac run_cached_fetch Hstored :=
  let stored := fresh "stored" in
  let Hdir := fresh "Hdir" in
  let sc := fresh "sc" in
  let body := fresh "body" in
  let e := fresh "e" in
  rewrite bind_run; unfold emit at 1;
  rewrite bind_run; unfold path_exists at 1;
  match goal with
  | |- context [bool_decide (is_Some (files ?w !! ?p))] =>
      destruct (files w !! p) as [stored|] eqn:Hstored
  end;
  [ rewrite bool_decide_eq_true_2 by eauto; cbn [orb];
    rewrite bind_run; unfold read_file; rewrite Hstored
  | rewrite bool_decide_eq_false_2 by (intros [? ?]; discriminate);
    cbn [orb];
    match goal with
    | |- context [bool_decide (?p ∈ dirs ?w)] =>
        destruct (bool_decide (p ∈ dirs w)) eqn:Hdir
    end;
    [ rewrite bind_run; unfold read_file; rewrite Hstored
    | unfold try_except; rewrite bind_run; unfold download;
      rewrite bind_run; unfold emit at 1;
      match goal with
      | |- context [http ?url] => destruct (http url) as [sc body|e]
      end;
      [ destruct ((200 <=? sc) && (sc <? 300));
        [ unfold mret at 1, M_ret; rewrite bind_run; unfold write_file;
          rewrite Hdir;
          match goal with
          | |- context [bool_decide (?d ∈ dirs ?w)] =>
              destruct (bool_decide (d ∈ dirs w))
          end; cbn [andb negb]
        | unfold raise;
          match goal with
          | |- context [is_HTTPError ?x] => destruct (is_HTTPError x)
          end ]
      | unfold raise; destruct (is_HTTPError e) ] ] ].

(** What [get_emoji] can do to the world: nothing, or store the bytes it
    returns under the path of the key, where nothing was stored. *)
Lemma get_emoji_outcome emoji w r w1 evs :
  get_emoji http _source emoji w = (r, w1, evs) ->
  (w1 = w
   \/ exists b,
        files w !! emoji_file_path _source emoji = None
        /\ w1 = mkWorld (<[emoji_file_path _source emoji := b]> (files w))
                  (dirs w) (_emoji_cache w) (_discord_emoji_cache w))
  /\ (forall b, r = Ok (Some b) ->
        files w1 !! emoji_file_path _source emoji = Some b).
Proof.
  unfold get_emoji. run_cached_fetch Hstored; simpl; intros [= <- <- <-];
    (split; [eauto | intros b' [= <-]]);
    simpl; rewrite ?lookup_insert_eq; auto.
Qed.

Lemma get_discord_emoji_outcome id w r w1 evs :
  get_discord_emoji http _source id w = (r, w1, evs) ->
  (w1 = w
   \/ exists b,
        files w !! discord_file_path _source id = None
        /\ w1 = mkWorld (<[discord_file_path _source id := b]> (files w))
                  (dirs w) (_emoji_cache w) (_discord_emoji_cache w))
  /\ (forall b, r = Ok (Some b) ->
        files w1 !! discord_file_path _source id = Some b).
Proof.
  unfold get_discord_emoji. run_cached_fetch Hstored; simpl; intros [= <- <- <-];
    (split; [eauto | intros b' [= <-]]);
    simpl; rewrite ?lookup_insert_eq; auto.
Qed.

Lemma keeps_get_emoji emoji : keeps cache_grows (get_emoji http _source emoji).
Proof.
  intros w. destruct (get_emoji http _source emoji w) as [[r w1] evs] eqn:Hrun.
  destruct (get_emoji_outcome _ _ _ _ _ Hrun) as [[-> | (b & Hnone & ->)] _];
    [apply cache_grows_refl |].
  repeat split; simpl; try reflexivity. apply insert_subseteq, Hnone.
Qed.

Lemma keeps_get_discord_emoji id :
  keeps cache_grows (get_discord_emoji http _source id).
Proof.
  intros w.
  destruct (get_discord_emoji http _source id w) as [[r w1] evs] eqn:Hrun.
  destruct (get_discord_emoji_outcome _ _ _ _ _ Hrun)
    as [[-> | (b & Hnone & ->)] _];
    [apply cache_grows_refl |].
  repeat split; simpl; try reflexivity. apply insert_subseteq, Hnone.
Qed.

Lemma keeps__get_emoji emoji :
  keeps cache_grows (pilmoji._get_emoji http _source _cache emoji).
Proof.
  intros w. unfold pilmoji._get_emoji.
  destruct (if _cache then _emoji_cache w !! emoji else None) eqn:Hmem;
    [apply cache_grows_refl |].
  rewrite bind_run.
  pose proof (keeps_get_emoji emoji w) as Hsrc.
  destruct (get_emoji http _source emoji w) as [[r w1] ev1] eqn:Hrun.
  destruct (get_emoji_outcome _ _ _ _ _ Hrun) as [Hw _].
  unfold world_of in *; simpl in Hsrc.
  destruct r as [[b|]|e]; simpl; try exact Hsrc.
  unfold mbind, M_bind, mret, M_ret, pilmoji.set_emoji_cache.
  destruct _cache; simpl; [| exact Hsrc].
  eapply cache_grows_trans; [exact Hsrc |].
  repeat split; simpl; try reflexivity.
  apply insert_subseteq.
  destruct Hw as [-> | (b' & _ & ->)]; simpl; exact Hmem.
Qed.

Lemma keeps__get_discord_emoji id :
  keeps cache_grows (pilmoji._get_discord_emoji http _source _cache id).
Proof.
  intros w. unfold pilmoji._get_discord_emoji.
  destruct (if _cache then _discord_emoji_cache w !! id else None) eqn:Hmem;
    [apply cache_grows_refl |].
  rewrite bind_run.
  pose proof (keeps_get_discord_emoji id w) as Hsrc.
  destruct (get_discord_emoji http _source id w) as [[r w1] ev1] eqn:Hrun.
  destruct (get_discord_emoji_outcome _ _ _ _ _ Hrun) as [Hw _].
  unfold world_of in *; simpl in Hsrc.
  destruct r as [[b|]|e]; simpl; try exact Hsrc.
  unfold mbind, M_bind, mret, M_ret, pilmoji.set_discord_emoji_cache.
  destruct _cache; simpl; [| exact Hsrc].
  eapply cache_grows_trans; [exact Hsrc |].
  repeat split; simpl; try reflexivity.
  apply insert_subseteq.
  destruct Hw as [-> | (b' & _ & ->)]; simpl; exact Hmem.
Qed.

End CachesGrow.

Section RenderKeeps.

Import pilmoji_source.

Variable http : string -> http_reply.
Variable _source : EmojiCDNSource.
Variable _cache : bool.
Variable to_nodes : string -> option bool -> list (list Node).
Variable get_font_size : FontT -> spec_float.
Variable get_font_height : FontT -> Z.
Variable Image_open : bytes -> option (Z * Z).
Variable int_of_str : string -> result Z.

(** The drawing phase of [text] leaves the world as it is. *)
Lemma text_draw_phase_keeps R emoji_map xy text font :
  (forall w, R w w) -> (forall w1 w2 w3, R w1 w2 -> R w2 w3 -> R w1 w3) ->
  keeps R
    (y_diff ← lift (y_diff_of (get_font_height font) (get_font_size font));
     for_lines
       (fun y line =>
          for_nodes
            (pilmoji.text_node Image_open emoji_map font (get_font_size font)
               y y_diff) xy.1 line;; mret tt)
       (get_font_height font) xy.2 (to_nodes text None)).
Proof.
  intros Hrefl Htrans.
  apply (keeps_bind _ Htrans); [apply (keeps_lift _ Hrefl) |]. intros y_diff.
  apply (keeps_for_lines _ Hrefl Htrans). intros y line.
  apply (keeps_bind _ Htrans); [| intros; apply (keeps_mret _ Hrefl)].
  apply (keeps_for_nodes _ Hrefl Htrans). intros x node.
  apply (keeps_text_node _ Hrefl Htrans).
Qed.

(** X1: a render call of pilmoji never removes or changes an entry of
    the on-disk cache or of the in-memory caches, and makes or removes no
    directory: both caches only grow, whether the call returns or
    raises. *)
Theorem render_call_only_grows_the_caches xy text font w :
  cache_grows w
    (world_of
       (pilmoji.text http _source _cache to_nodes get_font_size
          get_font_height Image_open xy text font w))
  /\ cache_grows w
       (world_of
          (pilmoji.text_with_discord_emoji http _source _cache to_nodes
             get_font_size get_font_height Image_open int_of_str xy text
             font w)).
Proof.
  pose proof cache_grows_refl as Hrefl.
  pose proof cache_grows_trans as Htrans.
  split; revert w.
  - unfold pilmoji.text. cbv zeta.
    apply (keeps_bind _ Htrans).
    + destruct (elements
                  (list_to_set (contents_of EMOJI (to_nodes text None))
                     : gset string)) as [|k keys] eqn:Hkeys.
      * apply (keeps_mret _ Hrefl).
      * unfold pilmoji.gather_map.
        apply (keeps_bind _ Htrans); [| intros; apply (keeps_mret _ Hrefl)].
        apply (keeps_gather _ Hrefl Htrans).
        apply Forall_fmap, Forall_forall. intros k' _.
        apply keeps__get_emoji.
    + intros emoji_map. apply text_draw_phase_keeps; assumption.
  - unfold pilmoji.text_with_discord_emoji. cbv zeta.
    apply (keeps_bind _ Htrans); [apply (keeps_lift _ Hrefl) |].
    intros ids.
    apply (keeps_bind _ Htrans).
    + assert (Hall : keeps cache_grows
        (gather
           ((pilmoji._get_emoji http _source _cache
               <$> elements
                     (list_to_set
                        (contents_of EMOJI (to_nodes text (Some false)))
                        : gset string))
            ++ (pilmoji._get_discord_emoji http _source _cache
                  <$> elements (list_to_set ids : gset Z))))).
      { apply (keeps_gather _ Hrefl Htrans).
        apply Forall_app. split; apply Forall_fmap, Forall_forall; intros k _.
        - apply keeps__get_emoji.
        - apply keeps__get_discord_emoji. }
      destruct (pilmoji._get_emoji http _source _cache <$> _) as [|t1 l1];
        [destruct (pilmoji._get_discord_emoji http _source _cache <$> _)
           as [|t2 l2] |];
        try apply (keeps_mret _ Hrefl);
        (apply (keeps_bind _ Htrans);
           [exact Hall | intros; apply (keeps_mret _ Hrefl)]).
    + intros maps.
      apply (keeps_bind _ Htrans); [apply (keeps_lift _ Hrefl) |].
      intros y_diff.
      apply (keeps_for_lines _ Hrefl Htrans). intros y line.
      apply (keeps_bind _ Htrans); [| intros; apply (keeps_mret _ Hrefl)].
      apply (keeps_for_nodes _ Hrefl Htrans). intros x node.
      apply (keeps_text_with_discord_emoji_node _ Hrefl Htrans).
Qed.

(** X2: when no node of the text is a Unicode emoji, [text] asks no
    source, reads and writes no cache, and only draws: the world is left
    exactly as it was (custom-emoji nodes are drawn as text here). *)
Theorem text_without_emoji_touches_nothing xy text font w :
  contents_of EMOJI (to_nodes text None) = [] ->
  world_of
    (pilmoji.text http _source _cache to_nodes get_font_size get_font_height
       Image_open xy text font w) = w
  /\ Forall only_draw
       (events_of
          (pilmoji.text http _source _cache to_nodes get_font_size
             get_font_height Image_open xy text font w)).
Proof.
  intros Hnone.
  destruct (pilmoji.text http _source _cache to_nodes get_font_size
              get_font_height Image_open xy text font w)
    as [[r0 w0] ev0] eqn:Hrun.
  revert Hrun. unfold pilmoji.text. cbv zeta. rewrite Hnone.
  change (elements (list_to_set [] : gset string)) with (elements (∅ : gset string)).
  rewrite elements_empty. rewrite bind_run. unfold mret at 1, M_ret.
  pose proof (text_draw_phase_keeps eq ∅ xy text font
                (fun _ => eq_refl) (fun _ _ _ H1 H2 => eq_trans H1 H2) w) as Hw.
  assert (Hd : emits only_draw
    (y_diff ← lift (y_diff_of (get_font_height font) (get_font_size font));
     for_lines
       (fun y line =>
          for_nodes
            (pilmoji.text_node Image_open ∅ font (get_font_size font)
               y y_diff) xy.1 line;; mret tt)
       (get_font_height font) xy.2 (to_nodes text None))).
  { apply emits_bind; [apply emits_lift |]. intros y_diff.
    apply emits_for_lines. intros y line.
    apply emits_bind; [| intros; apply emits_mret].
    apply emits_for_nodes. intros x node. apply emits_text_node. }
  specialize (Hd w).
  destruct (@mbind M _ _ _ _ _ w) as [[r w2] ev2].
  unfold world_of, events_of in *; simpl in *.
  intros [= <- <- <-]. auto.
Qed.

End RenderKeeps.

(** ** The in-memory cache and [close] *)

Section MemoryCache.

Import pilmoji_source.

Variable http : string -> http_reply.
Variable _source : EmojiCDNSource.

Lemma get_emoji_hit emoji b w :
  files w !! emoji_file_path _source emoji = Some b ->
  get_emoji http _source emoji w = (Ok (Some b), w, [EvGetEmoji emoji]).
Proof.
  intros Hf. unfold get_emoji. rewrite bind_run. unfold emit at 1.
  rewrite bind_run. rewrite (path_exists_file _ _ _ Hf).
  rewrite bind_run. unfold read_file. rewrite Hf. reflexivity.
Qed.

(** What a successful [_get_emoji] leaves: the bytes in the in-memory
    cache when it is on, and, when the key missed that cache, in the file
    of the key. *)
Lemma _get_emoji_Some (_cache : bool) emoji b w w1 evs :
  pilmoji._get_emoji http _source _cache emoji w = (Ok (Some b), w1, evs) ->
  (_cache = true -> _emoji_cache w1 !! emoji = Some b)
  /\ ((if _cache then _emoji_cache w !! emoji else None) = None ->
      files w1 !! emoji_file_path _source emoji = Some b).
Proof.
  unfold pilmoji._get_emoji.
  destruct (if _cache then _emoji_cache w !! emoji else None) as [c|] eqn:Hmem.
  - intros [= -> <- <-]. split; [| discriminate].
    intros ->. exact Hmem.
  - rewrite bind_run.
    destruct (get_emoji http _source emoji w) as [[r w0] ev0] eqn:Hrun.
    destruct (get_emoji_outcome _ _ _ _ _ _ _ Hrun) as [_ Hstored].
    destruct r as [[b0|]|e]; [| discriminate | discriminate].
    specialize (Hstored b0 eq_refl).
    unfold mbind, M_bind, mret, M_ret, pilmoji.set_emoji_cache.
    destruct _cache; simpl; intros [= <- <- <-]; simpl; split; auto.
    + intros _. apply lookup_insert_eq.
    + discriminate.
Qed.

(** A key that misses the in-memory cache and whose file is on disk is
    read from the file: one call of the source, no request. *)
Lemma _get_emoji_from_disk (http' : string -> http_reply) (_cache : bool)
    emoji b w :
  (if _cache then _emoji_cache w !! emoji else None) = None ->
  files w !! emoji_file_path _source emoji = Some b ->
  result_of (pilmoji._get_emoji http' _source _cache emoji w) = Ok (Some b)
  /\ events_of (pilmoji._get_emoji http' _source _cache emoji w)
     = [EvGetEmoji emoji].
Proof.
  intros Hmem Hhit. unfold pilmoji._get_emoji. rewrite Hmem.
  assert (Hrun : get_emoji http' _source emoji w
                 = (Ok (Some b), w, [EvGetEmoji emoji])).
  { unfold get_emoji. rewrite bind_run. unfold emit at 1.
    rewrite bind_run. rewrite (path_exists_file _ _ _ Hhit).
    rewrite bind_run. unfold read_file. rewrite Hhit. reflexivity. }
  rewrite !bind_run, Hrun.
  unfold mbind, M_bind, mret, M_ret, pilmoji.set_emoji_cache.
  destruct _cache; split; reflexivity.
Qed.

(** X3: with the in-memory cache on, the bytes a call of [_get_emoji]
    returned are what every later call for that key returns, as long as
    the cache slot stays: without a call to the source, whatever the
    remote and the disk hold by then. *)
Theorem memory_cache_serves_later_calls
    (http' : string -> http_reply) (_source' : EmojiCDNSource)
    emoji b w w1 evs w2 :
  pilmoji._get_emoji http _source true emoji w = (Ok (Some b), w1, evs) ->
  _emoji_cache w2 !! emoji = _emoji_cache w1 !! emoji ->
  pilmoji._get_emoji http' _source' true emoji w2 = (Ok (Some b), w2, []).
Proof.
  intros Hrun Hslot.
  destruct (_get_emoji_Some _ _ _ _ _ _ Hrun) as [Hmem _].
  unfold pilmoji._get_emoji. rewrite Hslot, (Hmem eq_refl). reflexivity.
Qed.

(** X4: with the in-memory cache off, [_get_emoji] is the call of the
    source and nothing else: a key that the dictionary happens to hold
    still goes to the source, and the dictionary is not written. *)
Theorem cache_off_always_asks_the_source emoji w :
  pilmoji._get_emoji http _source false emoji w
    = get_emoji http _source emoji w
  /\ _emoji_cache
       (world_of (pilmoji._get_emoji http _source false emoji w))
     = _emoji_cache w.
Proof.
  assert (Heq : pilmoji._get_emoji http _source false emoji w
                = get_emoji http _source emoji w).
  { unfold pilmoji._get_emoji. rewrite bind_run.
    destruct (get_emoji http _source emoji w) as [[[[b|]|e] w1] ev1];
      unfold mbind, M_bind, mret, M_ret; simpl; rewrite ?app_nil_r;
      reflexivity. }
  split; [exact Heq |]. rewrite Heq.
  destruct (get_emoji http _source emoji w) as [[r w1] ev1] eqn:Hrun.
  destruct (get_emoji_outcome _ _ _ _ _ _ _ Hrun) as [[-> | (b & _ & ->)] _];
    reflexivity.
Qed.

(** X5: [close] empties the in-memory caches and leaves the disk alone:
    a key that was resolved through the source before is, after [close],
    read back from its file, the same bytes and no request to the
    network. *)
Theorem close_keeps_the_disk_cache
    (http' : string -> http_reply) (_cache : bool) emoji b w w1 evs :
  (if _cache then _emoji_cache w !! emoji else None) = None ->
  pilmoji._get_emoji http _source _cache emoji w = (Ok (Some b), w1, evs) ->
  let w2 := world_of (pilmoji.close _cache w1) in
  (_cache = true -> _emoji_cache w2 = ∅ /\ _discord_emoji_cache w2 = ∅)
  /\ files w2 = files w1
  /\ result_of (pilmoji._get_emoji http' _source _cache emoji w2)
     = Ok (Some b)
  /\ events_of (pilmoji._get_emoji http' _source _cache emoji w2)
     = [EvGetEmoji emoji].
Proof.
  intros Hmiss Hrun w2.
  destruct (_get_emoji_Some _ _ _ _ _ _ Hrun) as [_ Hfile].
  specialize (Hfile Hmiss).
  assert (Hfiles : files w2 = files w1).
  { subst w2. unfold pilmoji.close. destruct _cache; reflexivity. }
  assert (Hmem : (if _cache then _emoji_cache w2 !! emoji else None) = None).
  { subst w2. unfold pilmoji.close. destruct _cache; [| reflexivity].
    simpl. apply lookup_empty. }
  split; [| split; [exact Hfiles |]].
  - intros ->. subst w2. split; reflexivity.
  - apply _get_emoji_from_disk; [exact Hmem |].
    rewrite Hfiles. exact Hfile.
Qed.

End MemoryCache.

(** ** Errors that are not caught, and a cache that was never set up *)

Section SourceErrors.

Import pilmoji_source.

Variable http : string -> http_reply.

(** A successful download whose file cannot be written. *)
Lemma get_emoji_unwritable (self : EmojiCDNSource) emoji w sc body :
  absent (emoji_file_path self emoji) w ->
  http (emoji_url self emoji) = Response sc body ->
  200 <= sc < 300 ->
  parent (emoji_file_path self emoji) ∉ dirs w ->
  get_emoji http self emoji w
  = (Raise OSError, w, [EvGetEmoji emoji; EvHttpGet (emoji_url self emoji)]).
Proof.
  intros Habs Hreply Hsc Hdir. rewrite (get_emoji_miss _ _ _ _ Habs).
  unfold try_except. rewrite bind_run. unfold download.
  rewrite bind_run. unfold emit at 1. rewrite Hreply.
  assert (Hok : (200 <=? sc) && (sc <? 300) = true).
  { apply andb_true_iff. split; [apply Z.leb_le | apply Z.ltb_lt]; lia. }
  rewrite Hok. unfold mret at 1, M_ret. rewrite bind_run. unfold write_file.
  rewrite (bool_decide_eq_false_2 _ Hdir). reflexivity.
Qed.

(** X6: only [httpx.HTTPError] is caught.  An exception of [client.get]
    outside that class (an invalid URL, say) leaves [get_emoji] as it is,
    and so does the [OSError] of a file that cannot be written after a
    successful download, because the directory of the style is missing:
    nothing is returned and nothing is stored. *)
Theorem other_errors_reach_the_caller (self : EmojiCDNSource) emoji w :
  absent (emoji_file_path self emoji) w ->
  (forall e,
     http (emoji_url self emoji) = RequestFailed e ->
     is_HTTPError e = false ->
     get_emoji http self emoji w
     = (Raise e, w, [EvGetEmoji emoji; EvHttpGet (emoji_url self emoji)]))
  /\ (forall sc body,
     http (emoji_url self emoji) = Response sc body ->
     200 <= sc < 300 ->
     parent (emoji_file_path self emoji) ∉ dirs w ->
     get_emoji http self emoji w
     = (Raise OSError, w,
        [EvGetEmoji emoji; EvHttpGet (emoji_url self emoji)])).
Proof.
  intros Habs. split.
  - intros e Hreply He. rewrite (get_emoji_miss _ _ _ _ Habs).
    unfold try_except. rewrite bind_run. unfold download.
    rewrite bind_run. unfold emit at 1. rewrite Hreply.
    unfold raise. simpl. rewrite He. reflexivity.
  - intros sc body Hreply Hsc Hdir.
    apply (get_emoji_unwritable self emoji w sc body); assumption.
Qed.

Lemma self_and_parents_length p q :
  q ∈ self_and_parents p -> (length q <= length p)%nat.
Proof.
  unfold self_and_parents. intros Hin.
  apply list_elem_of_fmap in Hin as (n & -> & _).
  rewrite length_take. lia.
Qed.

Lemma parent_path_join p name : parent (path_join p name) = p.
Proof. unfold parent, path_join. apply removelast_last. Qed.

(** X7: the constructor makes the cache directory and nothing below it,
    so on a disk where the directory of the style does not exist yet the
    first [get_emoji] whose download succeeds raises [OSError]: the fresh
    cache is not filled. *)
Theorem fresh_cache_is_not_filled home style cache_dir w self w1 evs emoji
    sc body :
  EmojiCDNSource__init__ home style cache_dir w = (Ok self, w1, evs) ->
  path_join (pilmoji_source.cache_dir self) (value style) ∉ dirs w ->
  absent (emoji_file_path self emoji) w ->
  http (emoji_url self emoji) = Response sc body ->
  200 <= sc < 300 ->
  pilmoji_source.style self = style
  /\ files w1 = files w
  /\ get_emoji http self emoji w1
     = (Raise OSError, w1,
        [EvGetEmoji emoji; EvHttpGet (emoji_url self emoji)]).
Proof.
  unfold EmojiCDNSource__init__. rewrite bind_run. unfold mkdir_parents.
  destruct (existsb _ _) eqn:Hfile; [discriminate |].
  unfold mret, M_ret. intros [= <- <- <-] Hstyle [Hnone Hnodir] Hreply Hsc.
  set (cd := cache_dir_or home cache_dir) in *. simpl in *.
  assert (Hlonger : forall name q,
            q ∈ self_and_parents cd -> q <> path_join cd name).
  { intros name q Hq ->. apply self_and_parents_length in Hq.
    unfold path_join in Hq. rewrite length_app in Hq. simpl in Hq. lia. }
  split; [reflexivity |]. split; [reflexivity |].
  apply get_emoji_unwritable with (sc := sc) (body := body); auto.
  - split; [exact Hnone |]. simpl. intros Hin.
    apply elem_of_union in Hin as [Hin | Hin]; [auto |].
    apply elem_of_list_to_set in Hin.
    apply self_and_parents_length in Hin.
    unfold emoji_file_path, path_join in Hin.
    rewrite !length_app in Hin. simpl in Hin. lia.
  - unfold emoji_file_path. rewrite parent_path_join. simpl.
    intros Hin. apply elem_of_union in Hin as [Hin | Hin]; [auto |].
    apply elem_of_list_to_set in Hin.
    apply (Hlonger (value style) _ Hin). reflexivity.
Qed.

End SourceErrors.

(** ** Cache paths and URLs tell the keys apart *)

Section PathsAndUrls.

Import pilmoji_source.

Lemma value_inj s1 s2 : value s1 = value s2 -> s1 = s2.
Proof. destruct s1, s2; intros H; first [reflexivity | discriminate H]. Qed.

(** X8: the cache files never collide, for keys that hold no path
    separator (a key with one would name a file in another directory):
    the file of an emoji determines the cache directory, the style and
    the emoji, the file of a custom emoji determines the directory and the
    id, and no file of an emoji is the file of a custom emoji (no style is
    named [discord]). *)
Theorem cache_paths_do_not_collide (self self' : EmojiCDNSource)
    (emoji emoji' : string) (id id' : Z) :
  no_separator emoji = true ->
  no_separator emoji' = true ->
  (emoji_file_path self emoji = emoji_file_path self' emoji' ->
   cache_dir self = cache_dir self' /\ style self = style self'
   /\ emoji = emoji')
  /\ (discord_file_path self id = discord_file_path self' id' ->
      cache_dir self = cache_dir self' /\ id = id')
  /\ emoji_file_path self emoji <> discord_file_path self' id.
Proof.
  intros _ _. split; [| split].
  - unfold emoji_file_path. intros H.
    apply path_join_inj in H as [H Hname].
    apply path_join_inj in H as [Hdir Hstyle].
    split; [exact Hdir |]. split; [apply value_inj, Hstyle |].
    apply (string_app_inj_r _ _ _ Hname).
  - unfold discord_file_path. intros H.
    apply path_join_inj in H as [H Hname].
    apply path_join_inj in H as [Hdir _].
    split; [exact Hdir |].
    apply string_app_inj_r in Hname. apply (inj pretty), Hname.
  - unfold emoji_file_path, discord_file_path. intros H.
    apply path_join_inj in H as [H _].
    apply path_join_inj in H as [_ Hstyle].
    destruct (style self); discriminate Hstyle.
Qed.

(** Reading back one quoted byte. *)
Lemma unquote_plus_quote_byte c t :
  unquote_plus (quote_byte c +:+ t) = String c (unquote_plus t).
Proof.
  destruct c as [[] [] [] [] [] [] [] []]; reflexivity.
Qed.

Lemma unquote_plus_quote_plus s : unquote_plus (quote_plus s) = s.
Proof.
  induction s as [|c s IH]; [reflexivity |].
  simpl quote_plus. rewrite unquote_plus_quote_byte, IH. reflexivity.
Qed.

(** X9: [quote_plus] loses nothing, so the URL that
    [download_all_emojis] requests for an emoji determines the emoji:
    two emoji are never downloaded from one URL there. *)
Theorem local_url_determines_the_emoji (self : LocalEmojiSource)
    (emj1 emj2 : string) :
  (quote_plus emj1 = quote_plus emj2 -> emj1 = emj2)
  /\ (local_url self emj1 = local_url self emj2 -> emj1 = emj2).
Proof.
  assert (Hinj : forall a b, quote_plus a = quote_plus b -> a = b).
  { intros a b H. rewrite <- (unquote_plus_quote_plus a),
      <- (unquote_plus_quote_plus b), H. reflexivity. }
  split; [apply Hinj |].
  unfold local_url. intros H. apply (inj (String.app _)) in H.
  apply Hinj. apply (string_app_inj_r _ _ ("?style=" +:+ value (local_style self))).
  exact H.
Qed.

End PathsAndUrls.

(** ** The bulk download of [LocalEmojiSource] *)

Section BulkDownload.

Import pilmoji_source.

Variable http : string -> http_reply.
Variable self : LocalEmojiSource.

Lemma local_file_path_inj emj1 emj2 :
  local_file_path self emj1 = local_file_path self emj2 -> emj1 = emj2.
Proof.
  unfold local_file_path. intros H. apply path_join_inj in H as [_ H].
  apply (string_app_inj_r _ _ _ H).
Qed.

Lemma cache_grows_insert_file w p b :
  files w !! p = None ->
  cache_grows w (mkWorld (<[p := b]> (files w)) (dirs w)
                         (_emoji_cache w) (_discord_emoji_cache w)).
Proof.
  intros Hnone. unfold cache_grows. simpl.
  split; [apply insert_subseteq, Hnone | auto].
Qed.

(** One task of the bulk download: a request exactly when the file is
    not there, no other file touched, and the body stored when the
    request succeeds and the directory of the style exists. *)
Lemma download_emoji_run emj w :
  exists r w1,
    download_emoji http self emj w
    = (r, w1, if on_disk w (local_file_path self emj) then []
              else [EvHttpGet (local_url self emj)])
    /\ cache_grows w w1
    /\ (forall p, p <> local_file_path self emj ->
          files w1 !! p = files w !! p)
    /\ (forall sc body,
          absent (local_file_path self emj) w ->
          http (local_url self emj) = Response sc body ->
          200 <= sc < 300 ->
          path_join (local_cache_dir self) (value (local_style self)) ∈ dirs w ->
          files w1 !! local_file_path self emj = Some body).
Proof.
  unfold download_emoji. rewrite bind_run. unfold path_exists at 1.
  fold (on_disk w (local_file_path self emj)).
  destruct (on_disk w (local_file_path self emj)) eqn:Hdisk.
  - exists (Ok tt), w. simpl. split; [reflexivity |].
    split; [apply cache_grows_refl |]. split; [reflexivity |].
    intros sc body [Hnone Hnodir] _ _ _. exfalso.
    unfold on_disk in Hdisk. rewrite Hnone in Hdisk.
    rewrite bool_decide_eq_false_2 in Hdisk by (intros [? [=]]).
    rewrite bool_decide_eq_false_2 in Hdisk by exact Hnodir.
    discriminate Hdisk.
  - assert (Hnone : files w !! local_file_path self emj = None).
    { unfold on_disk in Hdisk. apply orb_false_iff in Hdisk as [Hfile _].
      apply bool_decide_eq_false in Hfile.
      destruct (files w !! local_file_path self emj); [| reflexivity].
      exfalso. apply Hfile. eauto. }
    rewrite bind_run. unfold download. rewrite bind_run. unfold emit at 1.
    destruct (http (local_url self emj)) as [sc body | e] eqn:Hreply.
    + destruct ((200 <=? sc) && (sc <? 300)) eqn:Hok.
      * unfold write_file, mret, M_ret.
        replace (parent (local_file_path self emj))
          with (path_join (local_cache_dir self) (value (local_style self)))
          by (symmetry; apply parent_path_join).
        destruct (bool_decide _ && negb (bool_decide _)) eqn:Hwritable.
        -- eexists _, _. simpl. split; [reflexivity |].
           split; [apply cache_grows_insert_file, Hnone |].
           split; [intros p Hp; simpl; apply lookup_insert_ne; congruence |].
           intros sc' body' _ [= <- <-] _ _. simpl. apply lookup_insert_eq.
        -- eexists _, _. simpl. split; [reflexivity |].
           split; [apply cache_grows_refl |]. split; [reflexivity |].
           intros sc' body' [_ Hnodir] _ _ Hdir. exfalso.
           rewrite bool_decide_eq_true_2 in Hwritable by exact Hdir.
           rewrite bool_decide_eq_false_2 in Hwritable by exact Hnodir.
           discriminate Hwritable.
      * eexists _, _. simpl. split; [reflexivity |].
        split; [apply cache_grows_refl |]. split; [reflexivity |].
        intros sc' body' _ [= <- <-] Hrange _. exfalso.
        apply andb_false_iff in Hok as [Hlo | Hhi]; lia.
    + eexists _, _. simpl. split; [reflexivity |].
      split; [apply cache_grows_refl |]. split; [reflexivity |].
      intros sc' body' _ [=].
Qed.

Lemma on_disk_frame w w1 p :
  dirs w1 = dirs w -> files w1 !! p = files w !! p ->
  on_disk w1 p = on_disk w p.
Proof. unfold on_disk. intros -> ->. reflexivity. Qed.

Lemma gather_downloads keys :
  NoDup keys ->
  forall w,
    let run :=
      gather_return_exceptions (download_emoji http self <$> keys) w in
    (exists rs, result_of run = Ok rs)
    /\ http_gets (events_of run) = local_url self <$> to_download self w keys
    /\ cache_grows w (world_of run)
    /\ (forall p, (forall k, k ∈ keys -> p <> local_file_path self k) ->
          files (world_of run) !! p = files w !! p)
    /\ (forall emj sc body,
          emj ∈ keys ->
          absent (local_file_path self emj) w ->
          http (local_url self emj) = Response sc body ->
          200 <= sc < 300 ->
          path_join (local_cache_dir self) (value (local_style self)) ∈ dirs w ->
          files (world_of run) !! local_file_path self emj = Some body).
Proof.
  induction 1 as [| k rest Hfresh Hnodup IH]; intros w.
  - simpl. split; [eauto |]. split; [reflexivity |].
    split; [apply cache_grows_refl |]. split; [reflexivity |].
    intros emj sc body Hin. apply elem_of_nil in Hin as [].
  - destruct (download_emoji_run k w)
      as (r & w1 & Hrun & Hgrows & Hframe & Hstored).
    destruct (IH w1) as ((rs & Hrs) & Hgets & Hgrows' & Hframe' & Hstored').
    cbn zeta. rewrite fmap_cons. simpl gather_return_exceptions. rewrite Hrun.
    destruct (gather_return_exceptions (download_emoji http self <$> rest) w1)
      as [[rrest w2] evs2] eqn:Hrest.
    unfold result_of, world_of, events_of in *. simpl in Hrs, Hgets, Hgrows',
      Hframe', Hstored'. subst rrest. simpl.
    assert (Hkeep : to_download self w1 rest = to_download self w rest).
    { unfold to_download. apply List.filter_ext_in. intros k' Hk'.
      f_equal. apply on_disk_frame; [apply Hgrows |].
      apply Hframe. intros Heq. apply local_file_path_inj in Heq.
      subst k'. apply Hfresh. apply list_elem_of_In, Hk'. }
    split; [eauto |]. split; [| split; [| split]].
    + rewrite http_gets_app, Hgets, Hkeep. unfold to_download at 2.
      simpl List.filter.
      destruct (on_disk w (local_file_path self k)); reflexivity.
    + apply (cache_grows_trans _ w1); assumption.
    + intros p Hp. rewrite Hframe'.
      * apply Hframe, Hp. left.
      * intros k' Hk'. apply Hp. right. exact Hk'.
    + intros emj sc body Hin Habsent Hreply Hrange Hdir.
      apply elem_of_cons in Hin as [-> | Hin].
      * destruct Hgrows' as [Hfiles _].
        apply (lookup_weaken _ _ _ _ (Hstored _ _ Habsent Hreply Hrange Hdir)
                 Hfiles).
      * assert (Hne : local_file_path self emj <> local_file_path self k).
        { intros Heq. apply local_file_path_inj in Heq. subst emj.
          apply Hfresh, Hin. }
        destruct Hgrows as (_ & Hdirs & _).
        apply (Hstored' emj sc body Hin); [| exact Hreply | exact Hrange |].
        -- destruct Habsent as [Hnone Hnodir]. split.
           ++ rewrite (Hframe _ Hne). exact Hnone.
           ++ rewrite Hdirs. exact Hnodir.
        -- rewrite Hdirs. exact Hdir.
Qed.

(** X10: [download_all_emojis] over a table of distinct keys, none with
    a path separator, never raises, whatever the requests answer; it
    requests, in the order of the table, exactly the keys whose file is
    not there, each from its own URL; it keeps every file and directory of
    the cache and both memory caches; and an emoji whose request succeeds
    is stored under the file name [get_emoji] reads, provided the
    directory of the style exists. *)
Theorem download_all_emojis_fills_the_cache (EMOJI_DATA : list string) w :
  NoDup EMOJI_DATA ->
  Forall (fun emj => no_separator emj = true) EMOJI_DATA ->
  let run := download_all_emojis http EMOJI_DATA self w in
  result_of run = Ok tt
  /\ http_gets (events_of run)
     = local_url self <$> to_download self w EMOJI_DATA
  /\ cache_grows w (world_of run)
  /\ (forall emj sc body,
        emj ∈ EMOJI_DATA ->
        absent (local_file_path self emj) w ->
        http (local_url self emj) = Response sc body ->
        200 <= sc < 300 ->
        path_join (local_cache_dir self) (value (local_style self)) ∈ dirs w ->
        local_get_emoji self emj (world_of run)
        = (Ok (Some body), world_of run, [])).
Proof.
  intros Hnodup _.
  destruct (gather_downloads EMOJI_DATA Hnodup w)
    as ((rs & Hrs) & Hgets & Hgrows & _ & Hstored).
  unfold download_all_emojis. cbn zeta. rewrite bind_run.
  destruct (gather_return_exceptions _ w) as [[r w2] evs2] eqn:Hrun.
  unfold result_of, world_of, events_of in *. simpl in Hrs, Hgets, Hgrows,
    Hstored. subst r. simpl. rewrite app_nil_r.
  split; [reflexivity |]. split; [exact Hgets |]. split; [exact Hgrows |].
  intros emj sc body Hin Habsent Hreply Hrange Hdir.
  unfold local_get_emoji. rewrite bind_run. unfold read_file at 1.
  rewrite (Hstored emj sc body Hin Habsent Hreply Hrange Hdir). reflexivity.
Qed.

(** X11: a [LocalEmojiSource] never makes its cache directory
    ([LocalEmojiSource.__init__] only records the path), so on a cache
    whose style directory does not exist [download_all_emojis] requests
    every key and stores nothing: the world is the one it found and
    [get_emoji] still raises for every emoji. *)
Theorem bulk_download_without_directory_stores_nothing
    (EMOJI_DATA : list string) w :
  path_join (local_cache_dir self) (value (local_style self)) ∉ dirs w ->
  (forall emj, emj ∈ EMOJI_DATA -> absent (local_file_path self emj) w) ->
  let run := download_all_emojis http EMOJI_DATA self w in
  result_of run = Ok tt
  /\ world_of run = w
  /\ http_gets (events_of run) = local_url self <$> EMOJI_DATA
  /\ (forall emj, emj ∈ EMOJI_DATA ->
        local_get_emoji self emj (world_of run)
        = (Raise OSError, world_of run, [])).
Proof.
  intros Hnodir Habsent.
  assert (Hgather : forall keys,
    (forall emj, emj ∈ keys -> absent (local_file_path self emj) w) ->
    exists rs evs,
      gather_return_exceptions (download_emoji http self <$> keys) w
      = (Ok rs, w, evs)
      /\ http_gets evs = local_url self <$> keys).
  { induction keys as [| k rest IH]; intros Hkeys.
    - exists [], []. split; reflexivity.
    - destruct IH as (rs & evs & Hrest & Hgets).
      { intros emj Hin. apply Hkeys. right. exact Hin. }
      destruct (Hkeys k) as [Hnone Hnotdir]; [left |].
      assert (Htask : exists r,
        download_emoji http self k w = (r, w, [EvHttpGet (local_url self k)])).
      { unfold download_emoji. rewrite bind_run. unfold path_exists at 1.
        rewrite Hnone.
        rewrite bool_decide_eq_false_2 by (intros [? [=]]).
        rewrite bool_decide_eq_false_2 by exact Hnotdir.
        cbn [orb]. rewrite bind_run. unfold download. rewrite bind_run.
        unfold emit at 1.
        destruct (http (local_url self k)) as [sc body | e].
        - destruct ((200 <=? sc) && (sc <? 300)).
          + unfold write_file, mret, M_ret.
            replace (parent (local_file_path self k))
              with (path_join (local_cache_dir self)
                              (value (local_style self)))
              by (symmetry; apply parent_path_join).
            rewrite bool_decide_eq_false_2 by exact Hnodir.
            simpl. eauto.
          + simpl. eauto.
        - simpl. eauto. }
      destruct Htask as (r & Htask).
      eexists _, _. rewrite fmap_cons. simpl gather_return_exceptions.
      rewrite Htask, Hrest. split; [reflexivity |].
      rewrite http_gets_app, Hgets. reflexivity. }
  destruct (Hgather EMOJI_DATA Habsent) as (rs & evs & Hrun & Hgets).
  unfold download_all_emojis. cbn zeta. rewrite bind_run, Hrun.
  unfold result_of, world_of, events_of. simpl. rewrite app_nil_r.
  split; [reflexivity |]. split; [reflexivity |]. split; [exact Hgets |].
  intros emj Hin. destruct (Habsent emj Hin) as [Hnone _].
  unfold local_get_emoji. rewrite bind_run. unfold read_file at 1.
  rewrite Hnone. reflexivity.
Qed.

(** X12: the local source reads what the CDN source stored: after
    [EmojiCDNSource.get_emoji] returned bytes, [LocalEmojiSource.get_emoji]
    over the same directory and style returns these bytes, with no
    request and no change; for a file that is not there it raises
    instead of returning [None]. *)
Theorem local_source_reads_what_the_cdn_source_stored
    (cdn : EmojiCDNSource) emoji b w w1 evs :
  get_emoji http cdn emoji w = (Ok (Some b), w1, evs) ->
  local_get_emoji (mkLocal (cache_dir cdn) (style cdn)) emoji w1
  = (Ok (Some b), w1, [])
  /\ (forall emoji',
        files w1 !! emoji_file_path cdn emoji' = None ->
        local_get_emoji (mkLocal (cache_dir cdn) (style cdn)) emoji' w1
        = (Raise OSError, w1, [])).
Proof.
  intros Hrun.
  destruct (get_emoji_outcome http cdn emoji w _ _ _ Hrun) as [_ Hfile].
  specialize (Hfile b eq_refl).
  split.
  - unfold local_get_emoji. rewrite bind_run. unfold read_file at 1.
    change (local_file_path (mkLocal (cache_dir cdn) (style cdn)) emoji)
      with (emoji_file_path cdn emoji).
    rewrite Hfile. reflexivity.
  - intros emoji' Hnone.
    unfold local_get_emoji. rewrite bind_run. unfold read_file at 1.
    change (local_file_path (mkLocal (cache_dir cdn) (style cdn)) emoji')
      with (emoji_file_path cdn emoji').
    rewrite Hnone. reflexivity.
Qed.

End BulkDownload.

(** ** The layout of text without emoji *)

Section PlainLayout.

Variable Image_open : bytes -> option (Z * Z).

Lemma for_lines_line_draws x line_height lines :
  forall y w,
    for_lines (fun y line => emit (EvDrawText (x, y) line)) line_height y
              lines w
    = (Ok tt, w, line_draws x y line_height lines).
Proof.
  unfold line_draws.
  induction lines as [| line rest IH]; intros y w; [reflexivity |].
  simpl for_lines. rewrite bind_run. unfold emit at 1. rewrite IH.
  rewrite imap_cons. cbn [app]. f_equal. f_equal.
  - f_equal. f_equal. lia.
  - apply imap_ext. intros i l _. unfold compose. f_equal. f_equal. lia.
Qed.

(** X13: lines in which [contains_emoji] finds no emoji are drawn by
    apilmoji one draw call per line, whole and untokenized, line [i] at
    [x] and [i] line heights below [y] (the height given, or the height of
    the font when none or 0 is given); the resolver is not called and
    nothing else happens. *)
Theorem plain_lines_are_drawn_one_per_line
    (contains_emoji : list string -> bool -> bool)
    (parse_lines : list string -> bool -> list (list Node))
    (get_font_height : FontT -> Z) (get_font_size : FontT -> spec_float)
    (fetch_emojis :
       gset string -> gset string -> result (list (string * option bytes)))
    xy lines font line_height support_ds_emj w :
  contains_emoji lines support_ds_emj = false ->
  apilmoji.text contains_emoji parse_lines get_font_height get_font_size
    fetch_emojis Image_open xy lines font line_height support_ds_emj w
  = (Ok tt, w,
     line_draws xy.1 xy.2
       (apilmoji.line_height_or get_font_height line_height font) lines).
Proof.
  intros Hplain. unfold apilmoji.text.
  destruct lines as [| l0 lines]; [reflexivity |].
  rewrite Hplain. cbn [negb]. apply for_lines_line_draws.
Qed.

Lemma pilmoji_text_run emoji_map font font_size y y_diff line advances :
  Forall (fun node => type node = TEXT) line ->
  Forall2 (measured font) line advances ->
  forall x w,
    for_nodes
      (pilmoji.text_node Image_open emoji_map font font_size y y_diff) x line w
    = (Ok (x + sum_Z advances), w, run_events y x line advances).
Proof.
  intros Htext Hmeasured. induction Hmeasured as [| node a line advances Ha _ IH];
    intros x w.
  - simpl. unfold mret, M_ret. do 2 f_equal. unfold sum_Z. simpl. f_equal. lia.
  - apply Forall_cons in Htext as [Hnode Htext].
    simpl for_nodes. rewrite bind_run. unfold pilmoji.text_node at 1.
    rewrite Hnode. rewrite bind_run.
    rewrite (_render_text_run _ _ _ _ _ Ha). unfold mret at 1, M_ret.
    rewrite (IH Htext). simpl. do 2 f_equal. f_equal.
    unfold sum_Z. simpl. lia.
Qed.

Lemma apilmoji_text_run resized_emjs font font_size y y_diff line advances :
  Forall (fun node => type node = TEXT) line ->
  Forall2 (measured font) line advances ->
  forall x w,
    for_nodes
      (apilmoji.text_node resized_emjs font font_size y y_diff) x line w
    = (Ok (x + sum_Z advances), w, run_events y x line advances).
Proof.
  intros Htext Hmeasured. induction Hmeasured as [| node a line advances Ha _ IH];
    intros x w.
  - simpl. unfold mret, M_ret. do 2 f_equal. unfold sum_Z. simpl. f_equal. lia.
  - apply Forall_cons in Htext as [Hnode Htext].
    simpl for_nodes. rewrite bind_run. unfold apilmoji.text_node at 1.
    rewrite Hnode. rewrite bind_run. unfold emit at 1. rewrite bind_run.
    unfold lift at 1. unfold measured in Ha. rewrite Ha.
    unfold mret at 1, M_ret.
    rewrite (IH Htext). simpl. do 2 f_equal. f_equal.
    unfold sum_Z. simpl. lia.
Qed.

(** X14: in both renderers a run of text nodes is drawn node by node,
    each node at the cursor the nodes before it left, and the cursor ends
    at [x] plus the sum of the widths of the nodes, each truncated to an
    integer on its own (not the truncated width of the whole run). *)
Theorem text_run_advances_by_truncated_widths
    emoji_map resized_emjs font font_size y y_diff line advances x w :
  Forall (fun node => type node = TEXT) line ->
  Forall2 (measured font) line advances ->
  for_nodes
    (pilmoji.text_node Image_open emoji_map font font_size y y_diff) x line w
  = (Ok (x + sum_Z advances), w, run_events y x line advances)
  /\ for_nodes
       (apilmoji.text_node resized_emjs font font_size y y_diff) x line w
     = (Ok (x + sum_Z advances), w, run_events y x line advances).
Proof.
  intros Htext Hmeasured. split.
  - apply pilmoji_text_run; assumption.
  - apply apilmoji_text_run; assumption.
Qed.

Lemma contents_of_text_lines lines :
  Forall (Forall (fun node => type node = TEXT)) lines ->
  contents_of EMOJI lines = [].
Proof.
  intros Hlines. unfold contents_of.
  assert (Hall : Forall (fun node => type node = TEXT) (concat lines)).
  { apply Forall_concat. exact Hlines. }
  induction Hall as [| node rest Hnode _ IH]; [reflexivity |].
  rewrite filter_cons_False by (rewrite Hnode; discriminate). exact IH.
Qed.

Lemma for_lines_layout emoji_map font font_size y_diff x line_height
    lines advances :
  Forall (Forall (fun node => type node = TEXT)) lines ->
  Forall2 (Forall2 (measured font)) lines advances ->
  forall y w,
    for_lines
      (fun y line =>
         for_nodes
           (pilmoji.text_node Image_open emoji_map font font_size y y_diff)
           x line;; mret tt)
      line_height y lines w
    = (Ok tt, w, layout_events x y line_height lines advances).
Proof.
  intros Htext Hmeasured. unfold layout_events.
  induction Hmeasured as [| line advs lines advances Hline _ IH]; intros y w;
    [reflexivity |].
  apply Forall_cons in Htext as [Hhead Htext].
  simpl for_lines. rewrite bind_run, bind_run.
  rewrite (pilmoji_text_run _ _ _ _ _ _ _ Hhead Hline).
  unfold mret at 1, M_ret. rewrite (IH Htext).
  cbn [zip zip_with]. rewrite imap_cons. cbn [concat fst snd].
  rewrite app_nil_r. f_equal. f_equal.
  - f_equal. lia.
  - f_equal. apply imap_ext. intros i la _. unfold compose. f_equal. lia.
Qed.

(** X15: a text that is tokenized into text nodes only is laid out by
    [Pilmoji.text] line by line: line [i] starts at [x], [i] font heights
    below [y], and each of its nodes is drawn where the truncated widths
    of the nodes before it lead; the call returns, asks no source and
    changes nothing. *)
Theorem plain_text_layout
    (http : string -> http_reply) (_source : pilmoji_source.EmojiCDNSource)
    (_cache : bool) (to_nodes : string -> option bool -> list (list Node))
    (get_font_size : FontT -> spec_float) (get_font_height : FontT -> Z)
    xy text font advances y_diff w :
  Forall (Forall (fun node => type node = TEXT)) (to_nodes text None) ->
  Forall2 (Forall2 (measured font)) (to_nodes text None) advances ->
  y_diff_of (get_font_height font) (get_font_size font) = Ok y_diff ->
  pilmoji.text http _source _cache to_nodes get_font_size get_font_height
    Image_open xy text font w
  = (Ok tt, w,
     layout_events xy.1 xy.2 (get_font_height font) (to_nodes text None)
       advances).
Proof.
  intros Htext Hmeasured Hdiff. unfold pilmoji.text. cbv zeta.
  rewrite (contents_of_text_lines _ Htext).
  change (elements (list_to_set [] : gset string))
    with (elements (∅ : gset string)).
  rewrite elements_empty. rewrite bind_run. unfold mret at 1, M_ret.
  rewrite bind_run. unfold lift at 1. rewrite Hdiff.
  rewrite (for_lines_layout _ _ _ _ _ _ _ _ Htext Hmeasured). reflexivity.
Qed.

End PlainLayout.

(** ** Constructing a source, and the custom emoji of the local source *)

Section Construction.

Import pilmoji_source.

Variable http : string -> http_reply.

(** X16: constructing an [EmojiCDNSource] touches no file and removes no
    directory; it makes the cache directory (with [exist_ok]), so
    constructing a source for the same directory again, with whatever
    style, succeeds and changes nothing. *)
Theorem constructing_a_source_again_changes_nothing
    home style style' cache_dir w self w1 evs :
  EmojiCDNSource__init__ home style cache_dir w = (Ok self, w1, evs) ->
  files w1 = files w
  /\ dirs w ⊆ dirs w1
  /\ (pilmoji_source.cache_dir self <> [] ->
      pilmoji_source.cache_dir self ∈ dirs w1)
  /\ EmojiCDNSource__init__ home style' cache_dir w1
     = (Ok (mkSource (pilmoji_source.cache_dir self) style'), w1, []).
Proof.
  unfold EmojiCDNSource__init__. rewrite !bind_run. unfold mkdir_parents.
  destruct (existsb _ _) eqn:Hfile; [discriminate |].
  unfold mret, M_ret. intros [= <- <- <-].
  set (cd := cache_dir_or home cache_dir) in *. simpl.
  split; [reflexivity |]. split; [set_solver |]. split.
  - intros Hne. apply elem_of_union. right. apply elem_of_list_to_set.
    unfold self_and_parents. apply list_elem_of_fmap.
    exists (length cd). split; [symmetry; apply firstn_all |].
    apply elem_of_seq. destruct cd; [contradiction | simpl; lia].
  - rewrite Hfile. simpl. do 2 f_equal.
    destruct w as [fs ds ec dc]. simpl. f_equal.
    rewrite <- (assoc_L (∪)), (idemp_L (∪)). reflexivity.
Qed.

(** X17: the files of custom emoji do not depend on the style: after
    [get_discord_emoji] of a CDN source returned bytes, the
    [get_discord_emoji] of a local source over the same directory, of
    whatever style, returns these bytes; for an id whose file is not
    there it raises instead of returning [None]. *)
Theorem local_source_reads_custom_emoji
    (cdn : EmojiCDNSource) (style' : EmojiStyle) id b w w1 evs :
  get_discord_emoji http cdn id w = (Ok (Some b), w1, evs) ->
  local_get_discord_emoji (mkLocal (cache_dir cdn) style') id w1
  = (Ok (Some b), w1, [])
  /\ (forall id',
        files w1 !! discord_file_path cdn id' = None ->
        local_get_discord_emoji (mkLocal (cache_dir cdn) style') id' w1
        = (Raise OSError, w1, [])).
Proof.
  intros Hrun.
  destruct (get_discord_emoji_outcome http cdn id w _ _ _ Hrun) as [_ Hfile].
  specialize (Hfile b eq_refl).
  split.
  - unfold local_get_discord_emoji. rewrite bind_run. unfold read_file at 1.
    change (path_join
              (path_join (local_cache_dir (mkLocal (cache_dir cdn) style'))
                 "discord") (pretty id +:+ ".png"))
      with (discord_file_path cdn id).
    rewrite Hfile. reflexivity.
  - intros id' Hnone.
    unfold local_get_discord_emoji. rewrite bind_run. unfold read_file at 1.
    change (path_join
              (path_join (local_cache_dir (mkLocal (cache_dir cdn) style'))
                 "discord") (pretty id' +:+ ".png"))
      with (discord_file_path cdn id').
    rewrite Hnone. reflexivity.
Qed.

End Construction.

(** ** Examples for the further properties *)

Section FurtherExamples.

Import pilmoji_source.

(** A text of text nodes only leaves an empty world as it is. *)
Lemma text_without_emoji_touches_nothing_witness :
  world_of
    (pilmoji.text http_404 apple_source true two_line_nodes font_size_16
       font_height_20 decode_example (0, 0) "Hi you" example_font empty_world)
  = empty_world.
Proof.
  apply (text_without_emoji_touches_nothing http_404 apple_source true
           two_line_nodes font_size_16 font_height_20 decode_example (0, 0)
           "Hi you" example_font empty_world).
  reflexivity.
Defined.

(** After a first call fetched [thumbs_up], a second call is served from
    memory although the remote now answers 404. *)
Lemma memory_cache_serves_later_calls_witness :
  pilmoji._get_emoji http_404 apple_source true thumbs_up
    (world_of
       (pilmoji._get_emoji http_png apple_source true thumbs_up fresh_world))
  = (Ok (Some png_1),
     world_of
       (pilmoji._get_emoji http_png apple_source true thumbs_up fresh_world),
     []).
Proof.
  set (run := pilmoji._get_emoji http_png apple_source true thumbs_up
                fresh_world).
  apply (memory_cache_serves_later_calls http_png apple_source http_404
           apple_source thumbs_up png_1 fresh_world (world_of run)
           (events_of run) (world_of run)).
  - vm_compute. reflexivity.
  - reflexivity.
Defined.

(** Fetch, [close], then a remote that answers 404: the bytes come from
    the file. *)
Lemma close_keeps_the_disk_cache_witness :
  result_of
    (pilmoji._get_emoji http_404 apple_source true thumbs_up
       (world_of
          (pilmoji.close true
             (world_of
                (pilmoji._get_emoji http_png apple_source true thumbs_up
                   fresh_world)))))
  = Ok (Some png_1).
Proof.
  set (run := pilmoji._get_emoji http_png apple_source true thumbs_up
                fresh_world).
  apply (close_keeps_the_disk_cache http_png apple_source http_404 true
           thumbs_up png_1 fresh_world (world_of run) (events_of run)).
  - reflexivity.
  - vm_compute. reflexivity.
Defined.

(** A successful download into a cache without directories raises. *)
Lemma other_errors_reach_the_caller_witness :
  get_emoji http_png apple_source thumbs_up empty_world
  = (Raise OSError, empty_world,
     [EvGetEmoji thumbs_up; EvHttpGet (emoji_url apple_source thumbs_up)]).
Proof.
  destruct (other_errors_reach_the_caller http_png apple_source thumbs_up
              empty_world) as [_ Hwrite].
  - split; [reflexivity | apply not_elem_of_empty].
  - apply (Hwrite 200 png_1); [reflexivity | lia | apply not_elem_of_empty].
Defined.

(** A source constructed on an empty disk: the first download raises. *)
Lemma fresh_cache_is_not_filled_witness :
  get_emoji http_png apple_source thumbs_up
    (world_of (EmojiCDNSource__init__ ["home"] APPLE (Some ["cache"])
                 empty_world))
  = (Raise OSError,
     world_of (EmojiCDNSource__init__ ["home"] APPLE (Some ["cache"])
                 empty_world),
     [EvGetEmoji thumbs_up; EvHttpGet (emoji_url apple_source thumbs_up)]).
Proof.
  destruct (fresh_cache_is_not_filled http_png ["home"] APPLE (Some ["cache"])
              empty_world apple_source
              (world_of (EmojiCDNSource__init__ ["home"] APPLE
                           (Some ["cache"]) empty_world))
              [] thumbs_up 200 png_1) as (_ & _ & Hraise).
  - reflexivity.
  - apply not_elem_of_empty.
  - split; [reflexivity | apply not_elem_of_empty].
  - reflexivity.
  - lia.
  - exact Hraise.
Defined.

(** The file of an emoji is never the file of a custom emoji. *)
Lemma cache_paths_do_not_collide_witness :
  emoji_file_path apple_source thumbs_up
  <> discord_file_path apple_source 596576798351949847.
Proof.
  apply (cache_paths_do_not_collide apple_source apple_source thumbs_up
           thumbs_up 596576798351949847 596576798351949847);
    vm_compute; reflexivity.
Defined.

(** Two emoji, two URLs. *)
Lemma local_url_determines_the_emoji_witness :
  local_url (mkLocal ["cache"] APPLE) thumbs_up
  <> local_url (mkLocal ["cache"] APPLE) sunglasses.
Proof.
  intros Heq.
  apply (local_url_determines_the_emoji (mkLocal ["cache"] APPLE) thumbs_up
           sunglasses) in Heq.
  discriminate Heq.
Defined.

(** A table of two emoji over a cache that holds the first: one request,
    for the second, which is then read from its file. *)
Lemma download_all_emojis_fills_the_cache_witness :
  http_gets
    (events_of
       (download_all_emojis http_png [thumbs_up; sunglasses]
          (mkLocal ["cache"] APPLE) warm_world))
  = [local_url (mkLocal ["cache"] APPLE) sunglasses]
  /\ local_get_emoji (mkLocal ["cache"] APPLE) sunglasses
       (world_of
          (download_all_emojis http_png [thumbs_up; sunglasses]
             (mkLocal ["cache"] APPLE) warm_world))
     = (Ok (Some png_1),
        world_of
          (download_all_emojis http_png [thumbs_up; sunglasses]
             (mkLocal ["cache"] APPLE) warm_world),
        []).
Proof.
  destruct (download_all_emojis_fills_the_cache http_png
              (mkLocal ["cache"] APPLE) [thumbs_up; sunglasses] warm_world)
    as (_ & Hgets & _ & Hstored).
  - apply NoDup_cons. split.
    + intros Hin. apply list_elem_of_singleton in Hin. discriminate Hin.
    + apply NoDup_singleton.
  - repeat constructor.
  - split.
    + rewrite Hgets. vm_compute. reflexivity.
    + apply (Hstored sunglasses 200 png_1).
      * right. left.
      * split; [vm_compute; reflexivity | compute_done].
      * reflexivity.
      * lia.
      * compute_done.
Defined.

(** On an empty disk every key is requested and nothing is stored. *)
Lemma bulk_download_without_directory_stores_nothing_witness :
  download_all_emojis http_png [thumbs_up; sunglasses]
    (mkLocal ["cache"] APPLE) empty_world
  = (Ok tt, empty_world,
     [EvHttpGet (local_url (mkLocal ["cache"] APPLE) thumbs_up);
      EvHttpGet (local_url (mkLocal ["cache"] APPLE) sunglasses)]).
Proof.
  destruct (bulk_download_without_directory_stores_nothing http_png
              (mkLocal ["cache"] APPLE) [thumbs_up; sunglasses] empty_world)
    as (_ & _ & _ & _).
  - apply not_elem_of_empty.
  - intros emj _. split; [reflexivity | apply not_elem_of_empty].
  - vm_compute. reflexivity.
Defined.

(** What the CDN source fetched is read by a local source. *)
Lemma local_source_reads_what_the_cdn_source_stored_witness :
  local_get_emoji (mkLocal ["cache"] APPLE) thumbs_up
    (world_of (get_emoji http_png apple_source thumbs_up fresh_world))
  = (Ok (Some png_1),
     world_of (get_emoji http_png apple_source thumbs_up fresh_world), []).
Proof.
  set (run := get_emoji http_png apple_source thumbs_up fresh_world).
  apply (local_source_reads_what_the_cdn_source_stored http_png apple_source
           thumbs_up png_1 fresh_world (world_of run) (events_of run)).
  vm_compute. reflexivity.
Defined.

(** Two plain lines with a line height of 30. *)
Lemma plain_lines_are_drawn_one_per_line_witness :
  apilmoji.text example_contains_emoji example_parse_lines font_height_20
    font_size_16 fetch_png decode_example (5, 7) ["plain"; "text"]
    example_font (Some 30) false empty_world
  = (Ok tt, empty_world,
     [EvDrawText (5, 7) "plain"; EvDrawText (5, 37) "text"]).
Proof.
  apply (plain_lines_are_drawn_one_per_line decode_example
           example_contains_emoji example_parse_lines font_height_20
           font_size_16 fetch_png (5, 7) ["plain"; "text"] example_font
           (Some 30) false empty_world).
  vm_compute. reflexivity.
Defined.

(** Two nodes of 22.5 units each: the second is drawn at 22 and the
    cursor ends at 44, not at [int(45.0)]. *)
Lemma text_run_advances_by_truncated_widths_witness :
  for_nodes
    (pilmoji.text_node decode_example ∅ example_font float_16 0 2) 0
    [mkNode TEXT "Hi "; mkNode TEXT "you"] empty_world
  = (Ok 44, empty_world,
     [EvDrawText (0, 0) "Hi "; EvDrawText (22, 0) "you"])
  /\ PyFloat.to_int (getlength example_font "Hi you") = Ok 45.
Proof.
  split; [| vm_compute; reflexivity].
  apply (text_run_advances_by_truncated_widths decode_example ∅ ∅
           example_font float_16 0 2 [mkNode TEXT "Hi "; mkNode TEXT "you"]
           [22; 22] 0 empty_world).
  - repeat constructor.
  - repeat constructor; vm_compute; reflexivity.
Defined.

(** Two lines of text nodes, with a font 20 high. *)
Lemma plain_text_layout_witness :
  pilmoji.text http_404 apple_source true two_line_nodes font_size_16
    font_height_20 decode_example (5, 7) "Hi you" example_font empty_world
  = (Ok tt, empty_world,
     [EvDrawText (5, 7) "Hi "; EvDrawText (27, 7) "you";
      EvDrawText (5, 27) "bye"]).
Proof.
  apply (plain_text_layout decode_example http_404 apple_source true
           two_line_nodes font_size_16 font_height_20 (5, 7) "Hi you"
           example_font [[22; 22]; [22]] 2 empty_world).
  - repeat constructor.
  - repeat constructor; vm_compute; reflexivity.
  - vm_compute. reflexivity.
Defined.

(** Constructing a second source, of another style, on the disk the
    first one left. *)
Lemma constructing_a_source_again_changes_nothing_witness :
  EmojiCDNSource__init__ ["home"] TWEMOJI (Some ["cache"])
    (world_of (EmojiCDNSource__init__ ["home"] APPLE (Some ["cache"])
                 empty_world))
  = (Ok (mkSource ["cache"] TWEMOJI),
     world_of (EmojiCDNSource__init__ ["home"] APPLE (Some ["cache"])
                 empty_world),
     []).
Proof.
  destruct (constructing_a_source_again_changes_nothing ["home"] APPLE
              TWEMOJI (Some ["cache"]) empty_world apple_source
              (world_of (EmojiCDNSource__init__ ["home"] APPLE
                           (Some ["cache"]) empty_world))
              []) as (_ & _ & _ & Hagain).
  - reflexivity.
  - exact Hagain.
Defined.

(** A custom emoji fetched by an Apple source is read by a Twemoji local
    source. *)
Lemma local_source_reads_custom_emoji_witness :
  local_get_discord_emoji (mkLocal ["cache"] TWEMOJI) 596576798351949847
    (world_of
       (get_discord_emoji http_png apple_source 596576798351949847
          fresh_world))
  = (Ok (Some png_1),
     world_of
       (get_discord_emoji http_png apple_source 596576798351949847
          fresh_world),
     []).
Proof.
  set (run := get_discord_emoji http_png apple_source 596576798351949847
                fresh_world).
  apply (local_source_reads_custom_emoji http_png apple_source TWEMOJI
           596576798351949847 png_1 fresh_world (world_of run)
           (events_of run)).
  vm_compute. reflexivity.
Defined.

End FurtherExamples.
